(** * pdf-parser: a shallow embedding and its properties

    The development follows the three modules of the repository.  First the
    embedding: [SchemaTransformer] of [src/schema_transformer.py], method by
    method and under the names of the source, then [Document] of
    [src/data_extractor.py] and the methods of [RawExtractor] of
    [src/raw_extractor.py] that do not call the PDF library.  Then their
    properties.

    Python strings are lists of characters; a character is a code point in
    0..255 (Rocq's [ascii], read as Latin-1), and the character classes below
    are the ones Python's [str] methods and [re] module use on that range.
    Exceptions are explicit: a function that can raise returns a [result].
    The fields of the transformer object are the fields of a [state] record
    that every handler takes and returns; the dictionaries of the raw input
    are records, so an input with a missing key is not an input of the
    embedding.  Coordinates are rationals and integers are unbounded. *)

From Stdlib Require Import String.
From Stdlib Require Import List Ascii ZArith NArith Lia Bool Arith.
From Stdlib Require Import QArith Qabs.
From Stdlib Require DecimalN.
Import ListNotations.

Close Scope Q_scope.
Close Scope string_scope.
Open Scope char_scope.
Open Scope list_scope.
Open Scope nat_scope.

(* ================================================================== *)
(** ** Exceptions *)

Inductive exn : Type := IndexError | ValueError.

Inductive result (A : Type) : Type :=
| Ok (a : A)
| Raise (e : exn).

Arguments Ok {A} a.
Arguments Raise {A} e.

Definition bind {A B : Type} (m : result A) (k : A -> result B) : result B :=
  match m with
  | Ok a => k a
  | Raise e => Raise e
  end.

Notation "x <- m ;; k" := (bind m (fun x => k))
  (at level 61, m at next level, right associativity).
Notation "' p <- m ;; k" := (bind m (fun x => let p := x in k))
  (at level 61, p pattern, m at next level, right associativity).

Fixpoint mapM {A B : Type} (f : A -> result B) (l : list A) : result (list B) :=
  match l with
  | [] => Ok []
  | a :: l' => b <- f a ;; bs <- mapM f l' ;; Ok (b :: bs)
  end.

(* ================================================================== *)
(** ** Python strings *)

Module PyStr.

Definition str : Type := list ascii.

(** A string literal of the source. *)
Definition py (s : String.string) : str := String.list_ascii_of_string s.

Definition code (c : ascii) : N := N_of_ascii c.

Definition in_range (lo hi : N) (c : ascii) : bool :=
  ((lo <=? code c) && (code c <=? hi))%N.

(** [str.isspace] on one character, also the class [\s] of [re]. *)
Definition is_space (c : ascii) : bool :=
  in_range 9 13 c || in_range 28 32 c
  || (code c =? 133)%N || (code c =? 160)%N.

(** The class [\d] of [re]: the decimal digits. *)
Definition is_digit (c : ascii) : bool := in_range 48 57 c.

(** [str.isalpha] on one character. *)
Definition is_alpha (c : ascii) : bool :=
  in_range 65 90 c || in_range 97 122 c
  || (code c =? 170)%N || (code c =? 181)%N || (code c =? 186)%N
  || in_range 192 214 c || in_range 216 246 c || in_range 248 255 c.

(** The class [\w] of [re]: alphanumeric characters and the underscore. *)
Definition is_word (c : ascii) : bool :=
  is_alpha c || is_digit c || (code c =? 95)%N
  || (code c =? 178)%N || (code c =? 179)%N || (code c =? 185)%N
  || in_range 188 190 c.

(** [str.lower] on one character. *)
Definition lower_char (c : ascii) : ascii :=
  if in_range 65 90 c || in_range 192 214 c || in_range 216 222 c
  then ascii_of_N (code c + 32)
  else c.

Definition lower (s : str) : str := map lower_char s.

Definition str_eqb (a b : str) : bool :=
  if list_eq_dec ascii_dec a b then true else false.

(** [c in s] for a one-character string [c]. *)
Definition has_char (c : ascii) (s : str) : bool :=
  existsb (Ascii.eqb c) s.

Fixpoint lstrip (s : str) : str :=
  match s with
  | [] => []
  | c :: s' => if is_space c then lstrip s' else s
  end.

Definition rstrip (s : str) : str := rev (lstrip (rev s)).

Definition strip (s : str) : str := rstrip (lstrip s).

(** [s.rstrip(chars)] for a one-character [chars]. *)
Fixpoint lstrip_char (c : ascii) (s : str) : str :=
  match s with
  | [] => []
  | d :: s' => if Ascii.eqb d c then lstrip_char c s' else s
  end.

Definition rstrip_char (c : ascii) (s : str) : str :=
  rev (lstrip_char c (rev s)).

(** [s.split(sep)] for a one-character separator. *)
Fixpoint split (sep : ascii) (s : str) : list str :=
  match s with
  | [] => [[]]
  | c :: s' =>
      if Ascii.eqb c sep then [] :: split sep s'
      else match split sep s' with
           | cur :: rest => (c :: cur) :: rest
           | [] => [[c]]
           end
  end.

(** [sep.join(l)]. *)
Fixpoint join (sep : str) (l : list str) : str :=
  match l with
  | [] => []
  | [x] => x
  | x :: rest => x ++ sep ++ join sep rest
  end.

Fixpoint startswith (p s : str) : bool :=
  match p, s with
  | [], _ => true
  | a :: p', b :: s' => Ascii.eqb a b && startswith p' s'
  | _ :: _, [] => false
  end.

Definition endswith (s p : str) : bool := startswith (rev p) (rev s).

(** [p in s]: substring test. *)
Fixpoint contains (p s : str) : bool :=
  startswith p s ||
  match s with
  | [] => false
  | _ :: s' => contains p s'
  end.

(** [s.isalpha()]. *)
Definition isalpha (s : str) : bool :=
  match s with
  | [] => false
  | _ => forallb is_alpha s
  end.

(** [s.replace(c, "")] for a one-character [c]. *)
Definition remove_char (c : ascii) (s : str) : str :=
  filter (fun d => negb (Ascii.eqb d c)) s.

(** [s.zfill(w)] on a string without sign. *)
Definition zfill (w : nat) (s : str) : str :=
  repeat "0" (w - length s) ++ s.

(** Python's slice bounds: a negative index counts from the end, and both
    are clamped to the list. *)
Definition slice_index {A : Type} (l : list A) (i : Z) : nat :=
  let n := Z.of_nat (length l) in
  Z.to_nat (Z.min n (if (i <? 0)%Z then Z.max 0 (n + i) else i)).

(** [l[:i]] and [l[i:]]. *)
Definition slice_to {A : Type} (l : list A) (i : Z) : list A :=
  firstn (slice_index l i) l.

Definition slice_from {A : Type} (l : list A) (i : Z) : list A :=
  skipn (slice_index l i) l.

(** [l[-1]]. *)
Definition last_item {A : Type} (l : list A) : result A :=
  match rev l with
  | [] => Raise IndexError
  | x :: _ => Ok x
  end.

Definition digit_val (c : ascii) : N := (code c - 48)%N.

(** [int(s)] on a string of decimal digits; anything else is a ValueError
    (signs, blanks and underscores do not occur at the call site).  Integers
    are unbounded; the interpreter's configurable limit on the number of
    digits of a conversion is not modelled. *)
Definition py_int (s : str) : result N :=
  match s with
  | [] => Raise ValueError
  | _ =>
      if forallb is_digit s
      then Ok (fold_left (fun acc c => (acc * 10 + digit_val c)%N) s 0%N)
      else Raise ValueError
  end.

Fixpoint uint_digits (u : Decimal.uint) : str :=
  match u with
  | Decimal.Nil => []
  | Decimal.D0 u' => "0" :: uint_digits u'
  | Decimal.D1 u' => "1" :: uint_digits u'
  | Decimal.D2 u' => "2" :: uint_digits u'
  | Decimal.D3 u' => "3" :: uint_digits u'
  | Decimal.D4 u' => "4" :: uint_digits u'
  | Decimal.D5 u' => "5" :: uint_digits u'
  | Decimal.D6 u' => "6" :: uint_digits u'
  | Decimal.D7 u' => "7" :: uint_digits u'
  | Decimal.D8 u' => "8" :: uint_digits u'
  | Decimal.D9 u' => "9" :: uint_digits u'
  end.

(** [str(n)] for a natural number. *)
Definition decimal (n : N) : str := uint_digits (N.to_uint n).

(** Commas every three characters, on the reversed digit string. *)
Fixpoint group3 (r : str) : str :=
  match r with
  | a :: b :: c :: ((_ :: _) as rest) => a :: b :: c :: "," :: group3 rest
  | _ => r
  end.

(** [f"{n:,}"]. *)
Definition format_commas (n : N) : str :=
  rev (group3 (rev (decimal n))).

End PyStr.
Import PyStr.

(* ================================================================== *)
(** ** The regular expressions of the source

    Each pattern is embedded as the recogniser of its language.  In every
    pattern a repetition is followed by a class disjoint from its own
    (blanks, digits, single punctuation marks), so the greedy left-to-right
    reading below succeeds exactly when the backtracking matcher of [re]
    does, and the groups it reports are the ones returned here.  The
    languages are stated and proved further down ([paren_dollar_form] and
    the like). *)

Module Re.

Definition NL : ascii := "010".

(** The longest prefix of [s] in the class [p], and the rest. *)
Fixpoint span (p : ascii -> bool) (s : str) : str * str :=
  match s with
  | [] => ([], [])
  | c :: s' =>
      if p c then let (a, b) := span p s' in (c :: a, b) else ([], s)
  end.

Definition skip (p : ascii -> bool) (s : str) : str := snd (span p s).

Definition is_some {A : Type} (o : option A) : bool :=
  match o with
  | Some _ => true
  | None => false
  end.

(** [$] without MULTILINE: the end of the string, or just before a newline
    that ends the string. *)
Definition at_end (s : str) : bool :=
  match s with
  | [] => true
  | [c] => Ascii.eqb c NL
  | _ => false
  end.

(** The class [[, .]]. *)
Definition is_csd (c : ascii) : bool :=
  Ascii.eqb c "," || Ascii.eqb c " " || Ascii.eqb c ".".

(** Does [s] match [[, .]*\s*$] from its start?  The blanks may take the
    final newline, so the match runs to the end of the string. *)
Definition tail_noise (s : str) : bool :=
  forallb is_space (skip is_csd s).

(** [re.sub(r'\n[, .]*\s*$', '', s)]: the leftmost newline followed only by
    noise is the single match, and it reaches the end of [s]. *)
Fixpoint sub_trailing (s : str) : str :=
  match s with
  | [] => []
  | c :: s' =>
      if Ascii.eqb c NL && tail_noise s' then [] else c :: sub_trailing s'
  end.

(** [re.sub(r'\s+', ' ', s)]: every maximal run of blanks becomes one space
    (a blank followed by a blank is dropped, the last of a run is the
    space). *)
Fixpoint collapse (s : str) : str :=
  match s with
  | [] => []
  | c :: s' =>
      if is_space c then
        match s' with
        | d :: _ => if is_space d then collapse s' else " " :: collapse s'
        | [] => [" "]
        end
      else c :: collapse s'
  end.

(** The next character of [s] must be [c]. *)
Definition expect (c : ascii) (s : str) : option str :=
  match s with
  | d :: t => if Ascii.eqb d c then Some t else None
  | [] => None
  end.

(** An optional character [c] at the head of [s]. *)
Definition opt_char (c : ascii) (s : str) : str :=
  match expect c s with
  | Some t => t
  | None => s
  end.

(** [re.match(r'^(\()\$\s*(\d+)\s*(\))$', s)]: group 2. *)
Definition match_paren_dollar (s : str) : option str :=
  match expect "(" s with
  | None => None
  | Some r =>
  match expect "$" r with
  | None => None
  | Some r =>
      let (digits, r) := span is_digit (skip is_space r) in
      match digits, expect ")" (skip is_space r) with
      | _ :: _, Some r => if at_end r then Some digits else None
      | _, _ => None
      end
  end
  end.

(** [re.match(r'^\$\s*(-?)(\d+)$', s)]: is group 1 non-empty, and group 2. *)
Definition match_dollar (s : str) : option (bool * str) :=
  match expect "$" s with
  | None => None
  | Some r =>
      let r := skip is_space r in
      let minus := is_some (expect "-" r) in
      let (digits, r) := span is_digit (opt_char "-" r) in
      match digits with
      | _ :: _ => if at_end r then Some (minus, digits) else None
      | [] => None
      end
  end.

(** [re.match(r'^\$\s*-?\s*0\s*\.?\s*00$', s)]. *)
Definition match_zero_dollar (s : str) : bool :=
  match expect "$" s with
  | None => false
  | Some r =>
  match expect "0" (skip is_space (opt_char "-" (skip is_space r))) with
  | None => false
  | Some r =>
  match expect "0" (skip is_space (opt_char "." (skip is_space r))) with
  | None => false
  | Some r =>
  match expect "0" r with
  | None => false
  | Some r => at_end r
  end
  end
  end
  end.

(** [re.match(r'^(\d+)%$', s)]: group 1. *)
Definition match_percent (s : str) : option str :=
  let (digits, r) := span is_digit s in
  match digits, expect "%" r with
  | _ :: _, Some r => if at_end r then Some digits else None
  | _, _ => None
  end.

(** Is there a word boundary [\b] between [prev], the character before the
    position, and [next], the one after it ([None] at either end)? *)
Definition word_boundary (prev next : option ascii) : bool :=
  let w o := match o with Some c => is_word c | None => false end in
  xorb (w prev) (w next).

(** [re.search(r'\b' + re.escape(kw) + r'\b', s)] as a truth value; [prev] is
    the character before [s] in the searched string. *)
Fixpoint search_word_from (kw : str) (prev : option ascii) (s : str) : bool :=
  (word_boundary prev (hd_error s)
   && startswith kw s
   && word_boundary (hd_error (rev kw)) (hd_error (skipn (length kw) s)))
  || match s with
     | [] => false
     | c :: s' => search_word_from kw (Some c) s'
     end.

Definition search_word (kw s : str) : bool := search_word_from kw None s.

End Re.
Import Re.

(* ================================================================== *)
(** ** Cell normalizer *)

(** A cell is a string or [None]. *)
Definition cell : Type := option str.

Definition _fix_dollar (digits : str) (negative : bool) : result str :=
  formatted <-
    (if length digits <=? 2 then Ok (py "0." ++ zfill 2 digits)
     else n <- py_int (slice_to digits (-2)) ;;
          Ok (format_commas n ++ py "." ++ slice_from digits (-2))) ;;
  Ok (if negative then py "($" ++ formatted ++ py ")"
      else py "$" ++ formatted).

Definition _clean_cell (val : cell) : result cell :=
  match val with
  | None => Ok None
  | Some val =>
      let stripped := strip (sub_trailing val) in
      match match_paren_dollar stripped with
      | Some digits => r <- _fix_dollar digits true ;; Ok (Some r)
      | None =>
      match match_dollar stripped with
      | Some (minus, digits) => r <- _fix_dollar digits minus ;; Ok (Some r)
      | None =>
      if match_zero_dollar stripped then Ok (Some (py "$0.00")) else
      match match_percent stripped with
      | Some digits =>
          if has_char NL val && (2 <=? length digits) then
            d <- last_item digits ;;
            Ok (Some (slice_to digits (-1) ++ py "." ++ [d] ++ py "%"))
          else Ok (Some (digits ++ py "%"))
      | None =>
          let stripped := collapse stripped in
          Ok (match stripped with [] => None | _ => Some stripped end)
      end
      end
      end
  end.

(* ================================================================== *)
(** ** Containers *)

(** [l[i]] for a non-negative index. *)
Definition getitem {A : Type} (l : list A) (i : nat) : result A :=
  match nth_error l i with
  | Some x => Ok x
  | None => Raise IndexError
  end.

(** [range(0, stop, 2)]. *)
Definition range2 (stop : nat) : list nat :=
  map (fun k => 2 * k) (seq 0 (Nat.div2 (stop + 1))).

Definition row : Type := list cell.

Definition str_eq_dec : forall a b : str, {a = b} + {a <> b} :=
  list_eq_dec ascii_dec.

Definition cell_eq_dec (a b : cell) : {a = b} + {a <> b}.
Proof. decide equality; apply str_eq_dec. Defined.

Definition row_eq_dec : forall a b : row, {a = b} + {a <> b} :=
  list_eq_dec cell_eq_dec.

Definition row_eqb (a b : row) : bool :=
  if row_eq_dec a b then true else false.

(** A Python [dict] with string keys: insertion order is kept, and writing
    an existing key replaces its value in place. *)
Definition dict : Type := list (str * cell).

Fixpoint dict_set (d : dict) (k : str) (v : cell) : dict :=
  match d with
  | [] => [(k, v)]
  | (k', v') :: d' =>
      if str_eqb k' k then (k', v) :: d' else (k', v') :: dict_set d' k v
  end.

Fixpoint dict_get (d : dict) (k : str) : option cell :=
  match d with
  | [] => None
  | (k', v') :: d' => if str_eqb k' k then Some v' else dict_get d' k
  end.

(** Truth value of a cell: [None] and the empty string are false. *)
Definition cell_truthy (c : cell) : bool :=
  match c with
  | Some (_ :: _) => true
  | _ => false
  end.

(* ================================================================== *)
(** ** Row classifier *)

Definition SUMMARY_KEYWORDS : list str :=
  map py ["total"; "sum"; "subtotal"; "grand total"; "average";
          "net total"; "net payable"; "net commission"]%string.

Fixpoint _is_summary_row (r : row) : bool :=
  match r with
  | [] => false
  | c :: r' =>
      match c with
      | Some ((_ :: _) as s) =>
          let lower := lower (strip s) in
          if 60 <? length lower then _is_summary_row r'
          else if existsb (fun kw => search_word kw lower) SUMMARY_KEYWORDS
               then true
               else _is_summary_row r'
      | _ => _is_summary_row r'
      end
  end.

Definition _headers_match (h1 h2 : row) : bool :=
  (length h1 =? length h2) && row_eqb h1 h2.

(** The test of the generator in [_is_key_value_table] on one cell. *)
Definition colon_cell (c : cell) : bool :=
  match c with
  | Some ((_ :: _) as s) => endswith (rstrip s) (py ":")
  | _ => false
  end.

(** [sum(1 for row in cells if row[key_col] and ...)]. *)
Fixpoint colon_count (cells : list row) (key_col : nat) : result nat :=
  match cells with
  | [] => Ok 0
  | r :: cells' =>
      c <- getitem r key_col ;;
      n <- colon_count cells' key_col ;;
      Ok (if colon_cell c then S n else n)
  end.

(** The loop over the key columns; [colon_count < len(cells) * 0.5] is
    [2 * colon_count < len(cells)]. *)
Fixpoint kv_columns (cells : list row) (cols : list nat) : result bool :=
  match cols with
  | [] => Ok true
  | key_col :: cols' =>
      n <- colon_count cells key_col ;;
      if 2 * n <? length cells then Ok false else kv_columns cells cols'
  end.

Definition _is_key_value_table (cells : list row) : result bool :=
  match cells with
  | [] => Ok false
  | r0 :: _ =>
      if (length cells <? 2) || (length r0 <? 2) then Ok false
      else kv_columns cells (range2 (length r0))
  end.

(** The inner loop of [_extract_key_values] on one row. *)
Fixpoint kv_row (r : row) (cols : list nat) (kv : dict) : result dict :=
  match cols with
  | [] => Ok kv
  | key_col :: cols' =>
      key <- getitem r key_col ;;
      val <- getitem r (key_col + 1) ;;
      kv_row r cols'
        (match key with
         | Some ((_ :: _) as k) => dict_set kv (strip (rstrip_char ":" k)) val
         | _ => kv
         end)
  end.

Fixpoint kv_rows (cells : list row) (cols : list nat) (kv : dict)
  : result dict :=
  match cells with
  | [] => Ok kv
  | r :: cells' => kv' <- kv_row r cols kv ;; kv_rows cells' cols kv'
  end.

Definition _extract_key_values (cells : list row) : result dict :=
  r0 <- getitem cells 0 ;;
  kv_rows cells (range2 (length r0 - 1)) [].

(* ================================================================== *)
(** ** Trailing-totals parser *)

Definition nonempty {A : Type} (l : list A) : bool :=
  match l with
  | [] => false
  | _ => true
  end.

(** The index of the first element satisfying [p]. *)
Fixpoint find_index {A : Type} (p : A -> bool) (l : list A) : option nat :=
  match l with
  | [] => None
  | x :: l' =>
      if p x then Some 0
      else match find_index p l' with
           | Some i => Some (S i)
           | None => None
           end
  end.

Definition is_total_line (line : str) : bool :=
  existsb (fun kw => contains kw (lower line)) (map py ["total"; "totals"]%string).

(** The result is the pair (label, values), or [None]. *)
Definition _parse_trailing_totals (trailing_text : option str)
  : option (str * list str) :=
  match trailing_text with
  | Some ((_ :: _) as t) =>
      let lines := split NL (strip t) in
      match find_index is_total_line lines with
      | None => None
      | Some total_idx =>
          let label := strip (nth total_idx lines []) in
          let values :=
            filter nonempty (map strip (skipn (S total_idx) lines)) in
          if nonempty values then Some (label, values) else None
      end
  | _ => None
  end.

(* ================================================================== *)
(** ** OCR table reconstructor *)

(** [[ln.strip() for ln in text.strip().split("\n") if ln.strip()]]. *)
Definition ocr_lines (text : str) : list str :=
  filter nonempty (map strip (split NL (strip text))).

(** [Counter(lines)[line]]. *)
Definition line_count (lines : list str) (line : str) : nat :=
  count_occ str_eq_dec lines line.

(** The header loop of [_detect_image_table] over the indices [idx], with
    its [break]. *)
Fixpoint header_loop (lines : list str) (idx : list nat) (headers : list str)
  : list str :=
  match idx with
  | [] => headers
  | i :: idx' =>
      let line := nth i lines [] in
      if (length line <? 30) && (line_count lines line =? 1)
      then header_loop lines idx' (headers ++ [line])
      else headers
  end.

Definition _detect_image_table (ocr_text : str) : option (list str) :=
  match ocr_text with
  | [] => None
  | _ =>
      let lines := ocr_lines ocr_text in
      if length lines <? 5 then None
      else
        let start := if 30 <? length (nth 0 lines []) then 1 else 0 in
        let stop := Nat.min (start + 6) (length lines) in
        let headers := header_loop lines (seq start (stop - start)) [] in
        if length headers <? 2 then None
        else
          let remaining := length lines - start - length headers in
          if length headers * 2 <=? remaining then Some headers else None
  end.

Definition is_row_start (line : str) : bool :=
  let clean := remove_char " " line in
  (length line <? 20) && isalpha clean && negb (has_char "-" line).

(** The grouping loop of [_parse_image_table]: the finished groups and the
    group under construction. *)
Fixpoint group_loop (data_lines : list str) (row_groups : list (list str))
  (current : list str) : list (list str) * list str :=
  match data_lines with
  | [] => (row_groups, current)
  | line :: rest =>
      if is_row_start line && nonempty current
      then group_loop rest (row_groups ++ [current]) [line]
      else group_loop rest row_groups (current ++ [line])
  end.

(** One group padded or truncated to [ncols] cells. *)
Definition pad_group (ncols : nat) (group : list str) : row :=
  if ncols <=? length group
  then map Some (slice_to group (Z.of_nat ncols - 1))
       ++ [Some (join (py " ") (slice_from group (Z.of_nat ncols - 1)))]
  else map Some group ++ repeat None (ncols - length group).

(** The classification loop of [_parse_image_table]. *)
Fixpoint classify_groups (ncols : nat) (row_groups : list (list str))
  (rows : list row) (summary : option row) : list row * option row :=
  match row_groups with
  | [] => (rows, summary)
  | group :: rest =>
      let padded := pad_group ncols group in
      if _is_summary_row padded
      then classify_groups ncols rest rows (Some padded)
      else classify_groups ncols rest (rows ++ [padded]) summary
  end.

(** [lines.index(x)]. *)
Definition index_of (lines : list str) (x : str) : result nat :=
  match find_index (str_eqb x) lines with
  | Some i => Ok i
  | None => Raise ValueError
  end.

Definition _parse_image_table (ocr_text : str) (headers : list str)
  (skip_header : bool) : result (list row * option row) :=
  let lines := ocr_lines ocr_text in
  data_lines <-
    (if skip_header then Ok lines
     else last <- last_item headers ;;
          header_last <- index_of lines last ;;
          Ok (skipn (header_last + 1) lines)) ;;
  let ncols := length headers in
  let (row_groups, current) := group_loop data_lines [] [] in
  let row_groups :=
    if nonempty current then row_groups ++ [current] else row_groups in
  Ok (classify_groups ncols row_groups [] None).

(* ================================================================== *)
(** ** Data model *)

(** Raw input.  Coordinates are JSON numbers, taken here as rationals. *)
Record bbox : Type := {
  x0 : Q; y0 : Q; x1 : Q; y1 : Q
}.

Record table : Type := {
  header_names : list cell;
  cells : list row;
  col_count : Z;
  row_count : Z;
  trailing_text : option str
}.

Record layout_table : Type := {
  lt_col_count : Z;
  lt_row_count : Z;
  lt_cells : list row
}.

Record layout_box : Type := {
  boxclass : str;
  box_bbox : bbox;
  text : str;
  box_layout_table : option layout_table
}.

(** An absent [ocr_text] reads as the empty string, an absent [images] as
    the empty list. *)
Record image : Type := {
  img_bbox : bbox;
  ocr_text : str
}.

Record page_data : Type := {
  page_number : Z;
  tables : list table;
  images : list image;
  layout_boxes : list layout_box
}.

Record raw : Type := {
  filename : str;
  total_pages : Z;
  pages : list page_data
}.

(** Output blocks. *)
Inductive block_type : Type := text_block | table_block | image_text | image_table.

(** The [page] entry of a block: a page number or a list of page numbers. *)
Inductive page_ref : Type :=
| PageNum (p : Z)
| PageList (ps : list Z).

Inductive block_data : Type :=
| DataText (s : str)
| DataTable (headers : row) (rows : list row) (summary_row : option row)
| DataKeyValue (key_value : dict).

Record block : Type := {
  title : str;
  description : str;
  type : block_type;
  data : block_data;
  page : option page_ref
}.

Record schema : Type := {
  out_filename : str;
  out_total_pages : Z;
  out_blocks : list block
}.

(** The pending table accumulator. *)
Record pending : Type := {
  pt_page : list Z;
  pt_title : option str;
  pt_description : option str;
  pt_headers : row;
  pt_rows : list row;
  pt_summary_row : option row;
  pt_raw_headers : row;
  pt_trailing : option str
}.

(** The fields of a [SchemaTransformer] object.  The last four are assigned
    by [_process_page] and are not read before. *)
Record state : Type := {
  blocks : list block;
  heading : option str;
  text_buf : list str;
  text_page : option Z;
  pending_table : option pending;
  last_img_tbl_headers : option (list str);
  pg : Z;
  page_tables : list table;
  page_images : list image;
  table_idx : nat
}.

Definition set_blocks (st : state) (v : list block) : state :=
  {| blocks := v; heading := heading st; text_buf := text_buf st;
     text_page := text_page st; pending_table := pending_table st;
     last_img_tbl_headers := last_img_tbl_headers st; pg := pg st;
     page_tables := page_tables st; page_images := page_images st;
     table_idx := table_idx st |}.

Definition set_heading (st : state) (v : option str) : state :=
  {| blocks := blocks st; heading := v; text_buf := text_buf st;
     text_page := text_page st; pending_table := pending_table st;
     last_img_tbl_headers := last_img_tbl_headers st; pg := pg st;
     page_tables := page_tables st; page_images := page_images st;
     table_idx := table_idx st |}.

(** [self._text_buf, self._text_page = buf, page]. *)
Definition set_text (st : state) (buf : list str) (p : option Z) : state :=
  {| blocks := blocks st; heading := heading st; text_buf := buf;
     text_page := p; pending_table := pending_table st;
     last_img_tbl_headers := last_img_tbl_headers st; pg := pg st;
     page_tables := page_tables st; page_images := page_images st;
     table_idx := table_idx st |}.

Definition set_pending_table (st : state) (v : option pending) : state :=
  {| blocks := blocks st; heading := heading st; text_buf := text_buf st;
     text_page := text_page st; pending_table := v;
     last_img_tbl_headers := last_img_tbl_headers st; pg := pg st;
     page_tables := page_tables st; page_images := page_images st;
     table_idx := table_idx st |}.

Definition set_last_img_tbl_headers (st : state) (v : option (list str))
  : state :=
  {| blocks := blocks st; heading := heading st; text_buf := text_buf st;
     text_page := text_page st; pending_table := pending_table st;
     last_img_tbl_headers := v; pg := pg st;
     page_tables := page_tables st; page_images := page_images st;
     table_idx := table_idx st |}.

Definition set_table_idx (st : state) (v : nat) : state :=
  {| blocks := blocks st; heading := heading st; text_buf := text_buf st;
     text_page := text_page st; pending_table := pending_table st;
     last_img_tbl_headers := last_img_tbl_headers st; pg := pg st;
     page_tables := page_tables st; page_images := page_images st;
     table_idx := v |}.

(** The four assignments that open [_process_page]. *)
Definition set_page (st : state) (p : page_data) : state :=
  {| blocks := blocks st; heading := heading st; text_buf := text_buf st;
     text_page := text_page st; pending_table := pending_table st;
     last_img_tbl_headers := last_img_tbl_headers st;
     pg := page_number p; page_tables := tables p;
     page_images := images p; table_idx := 0 |}.

(** [self._blocks.append(b)]. *)
Definition append_block (st : state) (b : block) : state :=
  set_blocks st (blocks st ++ [b]).

(** [x or ""]. *)
Definition or_empty (x : option str) : str :=
  match x with
  | Some s => s
  | None => []
  end.

(** Truth value of an optional string: [None] and [""] are false. *)
Definition str_truthy (x : option str) : bool :=
  match x with
  | Some (_ :: _) => true
  | _ => false
  end.

(* ================================================================== *)
(** ** Page/block state machine *)

Definition _make_block (title description : option str)
  (block_type : block_type) (data : block_data) (page : option page_ref)
  : block :=
  {| title := or_empty title; description := or_empty description;
     type := block_type; data := data; page := page |}.

Definition _flush_text (st : state) : state :=
  match text_buf st with
  | [] => st
  | _ =>
      let content := join [NL] (text_buf st) in
      let st := append_block st
        (_make_block (heading st) (Some []) text_block (DataText content)
           (option_map PageNum (text_page st))) in
      set_text st [] None
  end.

Definition _flush_pending_table (st : state) : state :=
  match pending_table st with
  | None => st
  | Some pt =>
      let summary :=
        match pt_summary_row pt with
        | Some (_ :: _) => pt_summary_row pt
        | _ =>
            if str_truthy (pt_trailing pt) then
              match _parse_trailing_totals (pt_trailing pt) with
              | Some (label, values) => Some (map Some (label :: values))
              | None => pt_summary_row pt
              end
            else pt_summary_row pt
        end in
      let page :=
        match pt_page pt with
        | [p] => PageNum p
        | ps => PageList ps
        end in
      let data := DataTable (pt_headers pt) (pt_rows pt) summary in
      let st := append_block st
        (_make_block (pt_title pt) (pt_description pt) table_block data
           (Some page)) in
      set_pending_table st None
  end.

Definition _on_heading (st : state) (text : str) : state :=
  let st := _flush_text st in
  let st := _flush_pending_table st in
  set_heading st
    (Some (if has_char NL text then strip (last (split NL text) [])
           else text)).

Definition _on_text (st : state) (text : str) : state :=
  let p := match text_buf st with
           | [] => Some (pg st)
           | _ => text_page st
           end in
  set_text st (text_buf st ++ [text]) p.

(** The result is (headers, all_rows, tab), or [None] for the triple of
    [None]s; the table index moves on in the first case. *)
Definition _resolve_table_data (st : state) (box : layout_box)
  : result (state * option (row * list row * table)) :=
  match nth_error (page_tables st) (table_idx st) with
  | Some tab =>
      let st := set_table_idx st (table_idx st + 1) in
      headers <- mapM _clean_cell (header_names tab) ;;
      all_rows <- mapM (mapM _clean_cell) (cells tab) ;;
      Ok (st, Some (headers, all_rows, tab))
  | None =>
      match box_layout_table box with
      | Some lt =>
          all_rows <- mapM (mapM _clean_cell) (lt_cells lt) ;;
          let headers := match all_rows with
                         | r0 :: _ => r0
                         | [] => []
                         end in
          let tab := {| header_names := headers; cells := lt_cells lt;
                        col_count := lt_col_count lt;
                        row_count := lt_row_count lt;
                        trailing_text := None |} in
          Ok (st, Some (headers, all_rows, tab))
      | None => Ok (st, None)
      end
  end.

Definition _resolve_title_description (st : state)
  : state * (option str * option str) :=
  match text_buf st with
  | [] => (st, (heading st, None))
  | _ =>
      let td :=
        match text_buf st with
        | [t] =>
            if negb (str_truthy (heading st)) && (length t <? 80)
            then (Some t, None)
            else (heading st, Some (join [NL] (text_buf st)))
        | _ => (heading st, Some (join [NL] (text_buf st)))
        end in
      (set_text st [] None, td)
  end.

(** The classification loop shared by [_on_table] and [_try_merge_table]:
    a summary row replaces the stored one, any other row is appended. *)
Fixpoint classify_rows (rows_to_add : list row) (rows : list row)
  (summary : option row) : list row * option row :=
  match rows_to_add with
  | [] => (rows, summary)
  | r :: rest =>
      if _is_summary_row r then classify_rows rest rows (Some r)
      else classify_rows rest (rows ++ [r]) summary
  end.

(** [x in l] for page numbers. *)
Definition page_in (p : Z) (l : list Z) : bool := existsb (Z.eqb p) l.

(** The new state and the returned truth value. *)
Definition _try_merge_table (st : state) (headers : row)
  (data_rows all_rows : list row) (tab : table) : result (state * bool) :=
  match pending_table st with
  | None => Ok (st, false)
  | Some pt =>
      let prev_headers := pt_raw_headers pt in
      last_pg <- last_item (pt_page pt) ;;
      let '(can_merge, use_pending_headers) :=
        if _headers_match prev_headers headers then (true, false)
        else if (length prev_headers =? length headers)
                && (pg st <=? last_pg + 1)%Z
             then (true, true)
             else (false, false) in
      if negb can_merge then Ok (st, false)
      else
        let rows_to_add := if use_pending_headers then all_rows else data_rows in
        let (rows, summary) :=
          classify_rows rows_to_add (pt_rows pt) (pt_summary_row pt) in
        let page := if page_in (pg st) (pt_page pt) then pt_page pt
                    else pt_page pt ++ [pg st] in
        let trailing := if str_truthy (trailing_text tab)
                        then trailing_text tab else pt_trailing pt in
        let pt' := {| pt_page := page; pt_title := pt_title pt;
                      pt_description := pt_description pt;
                      pt_headers := pt_headers pt; pt_rows := rows;
                      pt_summary_row := summary;
                      pt_raw_headers := pt_raw_headers pt;
                      pt_trailing := trailing |} in
        Ok (set_pending_table st (Some pt'), true)
  end.

Definition _on_table (st : state) (box : layout_box) : result state :=
  let st := set_last_img_tbl_headers st None in
  '(st, resolved) <- _resolve_table_data st box ;;
  match resolved with
  | None => Ok st
  | Some (headers, all_rows, tab) =>
      let '(st, (title, description)) := _resolve_title_description st in
      kv <- _is_key_value_table all_rows ;;
      if kv then
        let st := _flush_pending_table st in
        key_value <- _extract_key_values all_rows ;;
        Ok (append_block st
              (_make_block title description table_block
                 (DataKeyValue key_value) (Some (PageNum (pg st)))))
      else
        let data_rows := filter (fun r => negb (row_eqb r headers)) all_rows in
        '(st, merged) <- _try_merge_table st headers data_rows all_rows tab ;;
        if merged then Ok st
        else
          let st := _flush_pending_table st in
          let (row_values, summary) := classify_rows data_rows [] None in
          Ok (set_pending_table st
                (Some {| pt_page := [pg st]; pt_title := title;
                         pt_description := description;
                         pt_headers := headers; pt_rows := row_values;
                         pt_summary_row := summary;
                         pt_raw_headers := headers;
                         pt_trailing := trailing_text tab |}))
  end.

(** [abs(a - b) < 30]. *)
Definition near (a b : Q) : bool :=
  negb (Qle_bool 30 (Qabs (a - b))).

Fixpoint match_images (box_rect : bbox) (imgs : list image) : str :=
  match imgs with
  | [] => []
  | img :: imgs' =>
      let img_rect := img_bbox img in
      if near (x0 img_rect) (x0 box_rect) && near (y0 img_rect) (y0 box_rect)
      then ocr_text img
      else match_images box_rect imgs'
  end.

Definition _match_ocr_text (st : state) (box : layout_box) : str :=
  match_images (box_bbox box) (page_images st).

Definition _on_picture (st : state) (box : layout_box) : result state :=
  let st := _flush_text st in
  let st := _flush_pending_table st in
  let pg := pg st in
  let ocr_text := _match_ocr_text st box in
  let img_headers := _detect_image_table ocr_text in
  match img_headers with
  | Some ((_ :: _) as img_headers) =>
      '(rows, summary) <- _parse_image_table ocr_text img_headers false ;;
      let description := match text_buf st with
                         | [] => []
                         | _ => join [NL] (text_buf st)
                         end in
      let st := set_text st [] None in
      let data := DataTable (map Some img_headers) rows summary in
      let st := append_block st
        (_make_block (heading st) (Some description) image_table data
           (Some (PageNum pg))) in
      Ok (set_last_img_tbl_headers st (Some img_headers))
  | _ =>
      match last_img_tbl_headers st, ocr_text with
      | Some ((_ :: _) as last_headers), _ :: _ =>
          '(rows, summary) <- _parse_image_table ocr_text last_headers true ;;
          match rows with
          | _ :: _ =>
              let data := DataTable (map Some last_headers) rows summary in
              Ok (append_block st
                    (_make_block (heading st) (Some []) image_table data
                       (Some (PageNum pg))))
          | [] =>
              Ok (append_block st
                    (_make_block (heading st) (Some []) image_text
                       (DataText ocr_text) (Some (PageNum pg))))
          end
      | _, _ =>
          Ok (append_block st
                (_make_block (heading st) (Some []) image_text
                   (DataText ocr_text) (Some (PageNum pg))))
      end
  end.

(** The body of the loop of [_process_page] on one layout box. *)
Definition process_box (st : state) (box : layout_box) : result state :=
  let cls := boxclass box in
  let text := strip (text box) in
  if str_eqb cls (py "section-header") || str_eqb cls (py "header")
  then Ok (_on_heading st text)
  else if str_eqb cls (py "table") then _on_table st box
  else if str_eqb cls (py "picture") then _on_picture st box
  else if (str_eqb cls (py "text") || str_eqb cls (py "list-item"))
          && nonempty text
  then Ok (_on_text st text)
  else Ok st.

Fixpoint process_boxes (st : state) (boxes : list layout_box) : result state :=
  match boxes with
  | [] => Ok st
  | box :: boxes' => st' <- process_box st box ;; process_boxes st' boxes'
  end.

Definition _process_page (st : state) (p : page_data) : result state :=
  process_boxes (set_page st p) (layout_boxes p).

Fixpoint process_pages (st : state) (ps : list page_data) : result state :=
  match ps with
  | [] => Ok st
  | p :: ps' => st' <- _process_page st p ;; process_pages st' ps'
  end.

(** The object built by [__init__]. *)
Definition init : state :=
  {| blocks := []; heading := None; text_buf := []; text_page := None;
     pending_table := None; last_img_tbl_headers := None;
     pg := 0%Z; page_tables := []; page_images := []; table_idx := 0 |}.

Definition _run (r : raw) : result schema :=
  st <- process_pages init (pages r) ;;
  let st := _flush_text st in
  let st := _flush_pending_table st in
  Ok {| out_filename := filename r; out_total_pages := total_pages r;
        out_blocks := blocks st |}.

Definition transform (r : raw) : result schema := _run r.

(* ================================================================== *)
(** * Query layer

    [src/data_extractor.py]: the class [Document] over the dictionary that
    [transform] returns.  A block is the [block] record of the transformer;
    a block without a title reads as one with the empty title. *)

Module Document.

(** The fields [__init__] sets. *)
Record document : Type := {
  filename : str;
  total_pages : Z;
  _blocks : list block
}.

Definition __init__ (data : schema) : document :=
  {| filename := out_filename data;
     total_pages := out_total_pages data;
     _blocks := out_blocks data |}.

(** What a method raises: the [KeyError] of [get], which names the id, or
    an exception of the list access. *)
Inductive raised : Type :=
| KeyError (block_id : Z)
| Other (e : exn).

(** [[(i, b.get("title") or "", b["type"]) for i, b in enumerate(...)]]. *)
Definition blocks (self : document) : list (nat * str * block_type) :=
  map (fun ib : nat * block =>
         (fst ib, or_empty (Some (title (snd ib))), type (snd ib)))
    (combine (seq 0 (length (_blocks self))) (_blocks self)).

Definition get (self : document) (block_id : Z) : block + raised :=
  if (block_id <? 0)%Z
     || (Z.of_nat (length (_blocks self)) <=? block_id)%Z
  then inr (KeyError block_id)
  else match getitem (_blocks self) (Z.to_nat block_id) with
       | Ok b => inl b
       | Raise e => inr (Other e)
       end.

Definition get_data (self : document) (block_id : Z) : block_data + raised :=
  match get self block_id with
  | inl b => inl (data b)
  | inr e => inr e
  end.

End Document.

(* ================================================================== *)
(** * Raw extractor

    [src/raw_extractor.py]: the methods of [RawExtractor] that work on what
    the PDF library has returned.  An object of the library is a record of
    the attributes the code reads; the calls into the library are not
    embedded. *)

Module RawExtractor.

(** An attribute that an object may lack, or hold with another type than
    the one the code asks for. *)
Inductive attribute (A : Type) : Type :=
| Absent
| Unfit
| Has (a : A).

Arguments Absent {A}.
Arguments Unfit {A}.
Arguments Has {A} a.

(** A text block as [page.get_text("blocks")] lists it: the tuple
    (x0, y0, x1, y1, text, block_no, block_type). *)
Record text_tuple : Type := {
  tt_x0 : Q; tt_y0 : Q; tt_x1 : Q; tt_y1 : Q;
  tt_text : str;
  tt_block_no : Z;
  tt_block_type : Z
}.

(** The dictionary [_tables_from_page] builds for a table: the entries the
    transformer reads are a [table], the others stand beside it. *)
Record page_table : Type := {
  ti_bbox : bbox;
  ti_header_external : bool;
  ti_table : table
}.

Definition set_trailing_text (table_info : page_table) (btext : str)
  : page_table :=
  {| ti_bbox := ti_bbox table_info;
     ti_header_external := ti_header_external table_info;
     ti_table :=
       {| header_names := header_names (ti_table table_info);
          cells := cells (ti_table table_info);
          col_count := col_count (ti_table table_info);
          row_count := row_count (ti_table table_info);
          trailing_text := Some btext |} |}.

(** [bottom - 30 <= by0 <= bottom + 30]. *)
Definition near_bottom (bottom by0 : Q) : bool :=
  Qle_bool (bottom - 30) by0 && Qle_bool by0 (bottom + 30).

(** The inner loop of [_attach_trailing_totals]: the text it assigns before
    its [break], if it comes to one. *)
Fixpoint trailing_block (bottom : Q) (text_blocks : list text_tuple)
  : option str :=
  match text_blocks with
  | [] => None
  | block :: rest =>
      if negb (tt_block_type block =? 0)%Z then trailing_block bottom rest
      else
        let by0 := tt_y0 block in
        let btext := strip (tt_text block) in
        if near_bottom bottom by0 then
          if existsb (fun kw => contains kw (lower btext))
               (map py ["total"; "totals"]%string)
          then Some btext
          else trailing_block bottom rest
        else trailing_block bottom rest
  end.

(** The tables after the method has run; [text_blocks] is what
    [page.get_text("blocks")] returns. *)
Definition _attach_trailing_totals (text_blocks : list text_tuple)
  (page_tables : list page_table) : list page_table :=
  map (fun table_info =>
         let bottom := y1 (ti_bbox table_info) in
         match trailing_block bottom text_blocks with
         | Some btext => set_trailing_text table_info btext
         | None => table_info
         end)
    page_tables.

(** A span of a text line; one without a [text] entry reads as one with
    the empty text.  A line without [spans] has no span. *)
Definition textline : Type := list str.

(** The [table] attribute of a box when it is a dictionary; an [extract]
    that is null reads as a missing one. *)
Record table_dict : Type := {
  td_extract : option (list row);
  td_col_count : option Z;
  td_row_count : option Z
}.

(** A box of the parsed layout. *)
Record layout_object : Type := {
  lo_boxclass : str;
  lo_x0 : Q; lo_y0 : Q; lo_x1 : Q; lo_y1 : Q;
  lo_textlines : attribute (list textline);
  lo_table : attribute table_dict
}.

Definition _box_text (box : layout_object) : str :=
  match lo_textlines box with
  | Has ((_ :: _) as textlines) =>
      join [NL]
        (flat_map (fun line => filter (fun span => nonempty (strip span)) line)
           textlines)
  | _ => []
  end.

(** [d.get(key, 0)]. *)
Definition get_or_zero (x : option Z) : Z :=
  match x with
  | Some v => v
  | None => 0%Z
  end.

Definition _layout_table_fallback (box : layout_object)
  : option layout_table :=
  if negb (str_eqb (lo_boxclass box) (py "table")) then None
  else
    match lo_table box with
    | Has tbl =>
        match td_extract tbl with
        | Some ((_ :: _) as extract) =>
            Some {| lt_col_count := get_or_zero (td_col_count tbl);
                    lt_row_count := get_or_zero (td_row_count tbl);
                    lt_cells := extract |}
        | _ => None
        end
    | _ => None
    end.

(** The entries are the layout boxes the transformer reads. *)
Definition _extract_layout_boxes (boxes : list layout_object)
  : list layout_box :=
  map (fun box =>
         {| boxclass := lo_boxclass box;
            box_bbox := {| x0 := lo_x0 box; y0 := lo_y0 box;
                           x1 := lo_x1 box; y1 := lo_y1 box |};
            text := _box_text box;
            box_layout_table := _layout_table_fallback box |})
    boxes.

End RawExtractor.

(* ================================================================== *)
(** * Properties *)

(** ** Characters and basic string facts *)

Ltac char_cases c :=
  destruct c as [[] [] [] [] [] [] [] []]; vm_compute; try reflexivity;
  try discriminate; auto.

Lemma space_not_digit : forall c, is_space c = true -> is_digit c = false.
Proof. intros c; char_cases c. Qed.

Lemma digit_not_space : forall c, is_digit c = true -> is_space c = false.
Proof. intros c; char_cases c. Qed.

Lemma str_eqb_eq : forall a b, str_eqb a b = true <-> a = b.
Proof.
  intros a b; unfold str_eqb.
  destruct (list_eq_dec ascii_dec a b); split; congruence.
Qed.

Lemma str_eqb_refl : forall a, str_eqb a a = true.
Proof. intros a; apply str_eqb_eq; reflexivity. Qed.

Lemma row_eqb_eq : forall a b, row_eqb a b = true <-> a = b.
Proof.
  intros a b; unfold row_eqb.
  destruct (row_eq_dec a b); split; congruence.
Qed.

Lemma startswith_app : forall p s,
  startswith p s = true <-> exists t, s = p ++ t.
Proof.
  induction p as [|a p IH]; intros s; simpl.
  - split; [intros _; exists s; reflexivity | reflexivity].
  - destruct s as [|b s].
    + split; [discriminate | intros [t H]; discriminate].
    + rewrite andb_true_iff, Ascii.eqb_eq, IH. split.
      * intros [-> [t ->]]. exists t; reflexivity.
      * intros [t H]. injection H as -> ->. split; [reflexivity | eauto].
Qed.

(** ** Row classifier: whole-word search *)

Definition last_error {A : Type} (l : list A) : option A := hd_error (rev l).

Lemma last_error_cons : forall (A : Type) (c : A) l,
  last_error (c :: l) = match last_error l with
                        | Some d => Some d
                        | None => Some c
                        end.
Proof.
  intros A c l; unfold last_error; simpl.
  destruct (rev l); reflexivity.
Qed.

(** The character [o], if there is one, is not a word character. *)
Definition not_word (o : option ascii) : Prop :=
  match o with
  | Some c => is_word c = false
  | None => True
  end.

(** [kw] occurs in [s] as a whole word: the characters next to the
    occurrence, where there are any, are not word characters. *)
Definition whole_word_in (kw s : str) : Prop :=
  exists pre post,
    s = pre ++ kw ++ post
    /\ not_word (last_error pre) /\ not_word (hd_error post).

(** A keyword that begins and ends with a word character. *)
Definition word_edges (kw : str) : bool :=
  match hd_error kw, last_error kw with
  | Some a, Some b => is_word a && is_word b
  | _, _ => false
  end.

Lemma word_boundary_left : forall prev a,
  is_word a = true ->
  (word_boundary prev (Some a) = true <-> not_word prev).
Proof.
  intros prev a Ha; unfold word_boundary, not_word.
  rewrite Ha. destruct prev as [c|]; simpl.
  - destruct (is_word c); simpl; split; congruence.
  - split; auto.
Qed.

Lemma word_boundary_right : forall next b,
  is_word b = true ->
  (word_boundary (Some b) next = true <-> not_word next).
Proof.
  intros next b Hb; unfold word_boundary, not_word.
  rewrite Hb. destruct next as [c|]; simpl.
  - destruct (is_word c); simpl; split; congruence.
  - split; auto.
Qed.

Lemma skipn_length_app : forall (A : Type) (l t : list A),
  skipn (length l) (l ++ t) = t.
Proof. induction l; simpl; auto. Qed.

Lemma search_word_from_spec : forall kw, word_edges kw = true ->
  forall s prev,
    search_word_from kw prev s = true <->
    exists pre post,
      s = pre ++ kw ++ post
      /\ not_word (match last_error pre with Some c => Some c | None => prev end)
      /\ not_word (hd_error post).
Proof.
  intros kw Hkw.
  assert (Hedges : exists a b, hd_error kw = Some a /\ last_error kw = Some b
                               /\ is_word a = true /\ is_word b = true).
  { unfold word_edges in Hkw.
    destruct (hd_error kw) as [a|]; [|discriminate].
    destruct (last_error kw) as [b|]; [|discriminate].
    apply andb_true_iff in Hkw. exists a, b; tauto. }
  destruct Hedges as (a & b & Hhd & Hlast & Ha & Hb).
  assert (Hhere : forall s prev,
    word_boundary prev (hd_error s) && startswith kw s
    && word_boundary (hd_error (rev kw)) (hd_error (skipn (length kw) s)) = true
    <-> exists post, s = kw ++ post /\ not_word prev /\ not_word (hd_error post)).
  { intros s prev. rewrite !andb_true_iff, startswith_app. split.
    - intros [[H1 [post ->]] H3]. exists post.
      rewrite skipn_length_app in H3.
      fold (last_error kw) in H3. rewrite Hlast in H3.
      destruct kw as [|k kw']; [discriminate|]. simpl in Hhd, H1.
      injection Hhd as ->.
      apply word_boundary_left in H1; auto.
      apply word_boundary_right in H3; auto.
    - intros (post & -> & H1 & H3). rewrite skipn_length_app.
      fold (last_error kw). rewrite Hlast.
      destruct kw as [|k kw']; [discriminate|]. simpl in Hhd |- *.
      injection Hhd as ->.
      repeat split; eauto.
      + apply word_boundary_left; auto.
      + apply word_boundary_right; auto. }
  induction s as [|c s IH]; intros prev.
  - cbn [search_word_from]. rewrite orb_false_r, Hhere. split.
    + intros (post & H & H1 & H2). exists [], post. simpl. auto.
    + intros (pre & post & H & H1 & H2).
      destruct pre; [|discriminate]. simpl in *. eauto.
  - cbn [search_word_from]. rewrite orb_true_iff, Hhere, IH. split.
    + intros [(post & H & H1 & H2) | (pre & post & H & H1 & H2)].
      * exists [], post. simpl. auto.
      * exists (c :: pre), post. rewrite last_error_cons.
        split; [simpl; congruence|]. split; auto.
        destruct (last_error pre); auto.
    + intros (pre & post & H & H1 & H2). destruct pre as [|d pre].
      * left. exists post. simpl in *. auto.
      * right. simpl in H. injection H as -> ->. exists pre, post.
        rewrite last_error_cons in H1. split; auto. split; auto.
        destruct (last_error pre); auto.
Qed.

Lemma search_word_spec : forall kw s, word_edges kw = true ->
  (search_word kw s = true <-> whole_word_in kw s).
Proof.
  intros kw s Hkw; unfold search_word, whole_word_in.
  rewrite search_word_from_spec by assumption.
  split; intros (pre & post & H & H1 & H2); exists pre, post;
    (split; [assumption|]); split; auto; destruct (last_error pre); auto.
Qed.

Lemma summary_keywords_edges :
  Forall (fun kw => word_edges kw = true) SUMMARY_KEYWORDS.
Proof. repeat constructor. Qed.

(** The test [_is_summary_row] makes on one cell, in the words of the
    specification: a non-empty cell of at most 60 characters after trimming
    that contains a keyword as a whole word, case-insensitively. *)
Definition summary_cell (c : cell) : Prop :=
  exists s, c = Some s /\ s <> []
    /\ length (strip s) <= 60
    /\ exists kw, In kw SUMMARY_KEYWORDS /\ whole_word_in kw (lower (strip s)).

Lemma length_lower : forall s, length (lower s) = length s.
Proof. intros; apply length_map. Qed.

Lemma summary_cell_test : forall s, s <> [] ->
  ((60 <? length (lower (strip s))) = false
   /\ existsb (fun kw => search_word kw (lower (strip s))) SUMMARY_KEYWORDS = true)
  <-> summary_cell (Some s).
Proof.
  intros s Hs. unfold summary_cell.
  rewrite Nat.ltb_ge, length_lower, existsb_exists. split.
  - intros [Hlen (kw & Hin & Hkw)]. exists s. repeat split; auto.
    exists kw; split; auto. apply search_word_spec; auto.
    pose proof summary_keywords_edges as H.
    rewrite Forall_forall in H; auto.
  - intros (s' & Heq & _ & Hlen & kw & Hin & Hkw). injection Heq as <-.
    split; auto. exists kw; split; auto. apply search_word_spec; auto.
    pose proof summary_keywords_edges as H.
    rewrite Forall_forall in H; auto.
Qed.

Lemma is_summary_row_spec : forall r,
  _is_summary_row r = true <-> exists c, In c r /\ summary_cell c.
Proof.
  induction r as [|c r IH]; cbn [_is_summary_row In].
  - split; [discriminate | intros (c & [] & _)].
  - assert (Hskip : ~ summary_cell c ->
      (_is_summary_row r = true <->
       exists c0, (c = c0 \/ In c0 r) /\ summary_cell c0)).
    { intros Hn. rewrite IH. split.
      - intros (c0 & Hin & Hc0). eauto.
      - intros (c0 & [<- | Hin] & Hc0); [contradiction | eauto]. }
    destruct c as [[|a s]|].
    + apply Hskip. intros (s & Heq & Hne & _). congruence.
    + pose proof (summary_cell_test (a :: s)) as Ht.
      destruct (60 <? length (lower (strip (a :: s)))) eqn:Hlen.
      * apply Hskip. intros Hc. apply Ht in Hc; [|discriminate].
        destruct Hc; discriminate.
      * destruct (existsb _ SUMMARY_KEYWORDS) eqn:Hex.
        -- split; auto. intros _. exists (Some (a :: s)). split; auto.
           apply Ht; [discriminate | auto].
        -- apply Hskip. intros Hc. apply Ht in Hc; [|discriminate].
           destruct Hc; discriminate.
    + apply Hskip. intros (s & Heq & _). discriminate.
Qed.


Lemma summary_cell_row : forall c r,
  _is_summary_row [c] = true -> In c r -> _is_summary_row r = true.
Proof.
  intros c r Hc Hin. apply is_summary_row_spec.
  apply is_summary_row_spec in Hc. destruct Hc as (c' & [<- | []] & Hs).
  exists c; auto.
Qed.



(** ** OCR header detection *)

Fixpoint take_while {A : Type} (p : A -> bool) (l : list A) : list A :=
  match l with
  | [] => []
  | x :: l' => if p x then x :: take_while p l' else []
  end.

(** A line that can be a header: shorter than 30 characters and occurring
    exactly once among all the lines. *)
Definition header_like (lines : list str) (line : str) : bool :=
  (length line <? 30) && (line_count lines line =? 1).

(** Header detection in the words of the specification.  [cap] bounds the
    number of lines scanned for headers, [None] for no bound. *)
Definition detect_spec (cap : option nat) (ocr_text : str)
  : option (list str) :=
  let lines := ocr_lines ocr_text in
  if length lines <? 5 then None
  else
    let body :=
      match lines with
      | first :: rest => if 30 <? length first then rest else lines
      | [] => []
      end in
    let scanned := match cap with
                   | Some n => firstn n body
                   | None => body
                   end in
    let headers := take_while (header_like lines) scanned in
    if (2 <=? length headers)
       && (2 * length headers <=? length body - length headers)
    then Some headers
    else None.

Lemma header_loop_take_while : forall lines n a acc,
  a + n <= length lines ->
  header_loop lines (seq a n) acc
  = acc ++ take_while (header_like lines) (firstn n (skipn a lines)).
Proof.
  intros lines; induction n as [|n IH]; intros a acc Hle; simpl.
  - rewrite app_nil_r; reflexivity.
  - destruct (skipn a lines) as [|x rest] eqn:Hskip.
    + apply (f_equal (@length _)) in Hskip. rewrite length_skipn in Hskip.
      simpl in Hskip. lia.
    + assert (Hnth : nth a lines [] = x).
      { rewrite <- (firstn_skipn a lines) at 1.
        rewrite app_nth2; rewrite length_firstn; [|lia].
        replace (a - Nat.min a (length lines)) with 0 by lia.
        rewrite Hskip; reflexivity. }
      rewrite Hnth. simpl. fold (header_like lines x).
      destruct (header_like lines x).
      * assert (Hs : skipn (S a) lines = rest).
        { replace (S a) with (1 + a) by lia.
          rewrite <- skipn_skipn, Hskip. reflexivity. }
        rewrite IH by lia. rewrite <- app_assoc, Hs. reflexivity.
      * rewrite app_nil_r; reflexivity.
Qed.

Lemma firstn_min_length : forall (A : Type) n (l : list A),
  firstn (Nat.min n (length l)) l = firstn n l.
Proof.
  intros A n l. destruct (Nat.le_ge_cases n (length l)).
  - rewrite Nat.min_l by assumption; reflexivity.
  - rewrite Nat.min_r by assumption.
    rewrite firstn_all, firstn_all2 by assumption; reflexivity.
Qed.

Lemma ocr_lines_empty : ocr_lines [] = [].
Proof. reflexivity. Qed.

Lemma detect_image_table_spec : forall ocr_text,
  _detect_image_table ocr_text = detect_spec (Some 6) ocr_text.
Proof.
  intros t. unfold _detect_image_table, detect_spec.
  destruct t as [|c t]; [reflexivity|].
  set (lines := ocr_lines (c :: t)).
  destruct (length lines <? 5) eqn:H5; [reflexivity|].
  apply Nat.ltb_ge in H5.
  destruct lines as [|first rest] eqn:Hl; [simpl in H5; lia|].
  rewrite <- Hl in *.
  assert (Hlen : length lines = S (length rest)) by (rewrite Hl; reflexivity).
  replace (nth 0 lines []) with first by (rewrite Hl; reflexivity).
  set (start := if 30 <? length first then 1 else 0).
  assert (Hbody : (if 30 <? length first then rest else lines)
                  = skipn start lines).
  { unfold start. destruct (30 <? length first); rewrite Hl; reflexivity. }
  rewrite Hbody.
  assert (Hstart : start <= 1).
  { unfold start; destruct (30 <? length first); lia. }
  rewrite header_loop_take_while by lia. simpl app.
  replace (Nat.min (start + 6) (length lines) - start)
    with (Nat.min 6 (length (skipn start lines)))
    by (rewrite length_skipn; lia).
  rewrite firstn_min_length.
  set (headers := take_while (header_like lines) (firstn 6 (skipn start lines))).
  rewrite length_skipn.
  destruct (length headers <? 2) eqn:H2.
  - apply Nat.ltb_lt in H2.
    replace (2 <=? length headers) with false
      by (symmetry; apply Nat.leb_gt; lia).
    reflexivity.
  - apply Nat.ltb_ge in H2.
    replace (2 <=? length headers) with true
      by (symmetry; apply Nat.leb_le; lia).
    replace (length headers * 2) with (2 * length headers) by lia.
    reflexivity.
Qed.

Definition eighteen_lines : str :=
  py "a
b
c
d
e
f
g
h
i
j
k
l
m
n
o
p
q
r".

(** C7, the claim as stated: the result would be the maximal run of
    header-like lines, here all eighteen lines, which leaves no line after
    the headers and so gives [None].  The loop looks at six lines only and
    returns the first six. *)
Lemma detect_image_table_counterexample :
  detect_spec None eighteen_lines = None
  /\ _detect_image_table eighteen_lines
     = Some (map py ["a"; "b"; "c"; "d"; "e"; "f"]%string).
Proof. split; vm_compute; reflexivity. Qed.

(** C7, amended: header detection splits the text into non-empty trimmed
    lines and returns [None] when there are fewer than 5; otherwise, after
    skipping a first line longer than 30 characters, it returns the longest
    run of header-like lines among the next six lines at most, provided the
    run has at least 2 lines and the lines after the skipped title and the
    headers are at least twice as many; in every other case it returns
    [None]. *)
Theorem detect_image_table_capped : forall ocr_text,
  _detect_image_table ocr_text = detect_spec (Some 6) ocr_text.
Proof. exact detect_image_table_spec. Qed.

(** ** End-to-end scenario *)

Definition scell (s : string) : cell := Some (py s).

(** The one-page document of the scenario: a header box "Summary", a text
    box "See below." and a table box, with one machine-detected table.
    Everything the scenario leaves open is a parameter. *)
Definition summary_document (fname : str) (npages : Z) (imgs : list image)
  (b1 b2 b3 : bbox) (table_text : str) (lt : option layout_table)
  (ncols nrows : Z) : raw :=
  {| filename := fname;
     total_pages := npages;
     pages :=
       [ {| page_number := 1;
            tables :=
              [ {| header_names := [scell "A"; scell "B"];
                   cells := [ [scell "A"; scell "B"];
                              [scell "x"; scell "1"];
                              [scell "Total"; scell "1"] ];
                   col_count := ncols; row_count := nrows;
                   trailing_text := None |} ];
            images := imgs;
            layout_boxes :=
              [ {| boxclass := py "header"; box_bbox := b1;
                   text := py "Summary"; box_layout_table := None |};
                {| boxclass := py "text"; box_bbox := b2;
                   text := py "See below."; box_layout_table := None |};
                {| boxclass := py "table"; box_bbox := b3;
                   text := table_text; box_layout_table := lt |} ] |} ] |}.

(** C1: on the scenario document [transform] returns exactly one block, a
    table block with title "Summary", description "See below.", headers
    [A, B], the single row [x, 1], summary row [Total, 1] and the scalar
    page 1. *)
Theorem transform_summary_scenario :
  forall fname npages imgs b1 b2 b3 table_text lt ncols nrows,
    transform (summary_document fname npages imgs b1 b2 b3 table_text lt
                 ncols nrows)
    = Ok {| out_filename := fname;
            out_total_pages := npages;
            out_blocks :=
              [ {| title := py "Summary";
                   description := py "See below.";
                   type := table_block;
                   data := DataTable [scell "A"; scell "B"]
                             [[scell "x"; scell "1"]]
                             (Some [scell "Total"; scell "1"]);
                   page := Some (PageNum 1) |} ] |}.
Proof. intros. vm_compute. reflexivity. Qed.

(** ** Table merge engine *)

Lemma headers_match_eq : forall h1 h2, _headers_match h1 h2 = true <-> h1 = h2.
Proof.
  intros h1 h2; unfold _headers_match.
  rewrite andb_true_iff, Nat.eqb_eq, row_eqb_eq.
  split; [tauto | intros ->; auto].
Qed.

(** The rows of [added] that are data rows, and the last one that is a
    summary row. *)
Definition data_rows_of (added : list row) : list row :=
  filter (fun r => negb (_is_summary_row r)) added.

Definition last_summary_of (added : list row) (old : option row)
  : option row :=
  match last_error (filter _is_summary_row added) with
  | Some r => Some r
  | None => old
  end.

Lemma classify_rows_spec : forall added rows summary,
  classify_rows added rows summary
  = (rows ++ data_rows_of added, last_summary_of added summary).
Proof.
  unfold data_rows_of, last_summary_of.
  induction added as [|r added IH]; intros rows summary; simpl.
  - rewrite app_nil_r; reflexivity.
  - destruct (_is_summary_row r) eqn:Hr; simpl; rewrite IH.
    + rewrite last_error_cons.
      destruct (last_error (filter _is_summary_row added)); reflexivity.
    + rewrite <- app_assoc; reflexivity.
Qed.

(** The accumulator [pt] after folding in the rows [rows_to_add] of the
    table [tab] met on page [pg st]: the data rows are appended, the last
    summary row replaces the stored one, the page is appended when it is
    new, and a non-empty trailing text replaces the stored one. *)
Definition merged_pending (st : state) (pt : pending)
  (rows_to_add : list row) (tab : table) : pending :=
  {| pt_page := if page_in (pg st) (pt_page pt) then pt_page pt
                else pt_page pt ++ [pg st];
     pt_title := pt_title pt;
     pt_description := pt_description pt;
     pt_headers := pt_headers pt;
     pt_rows := pt_rows pt ++ data_rows_of rows_to_add;
     pt_summary_row := last_summary_of rows_to_add (pt_summary_row pt);
     pt_raw_headers := pt_raw_headers pt;
     pt_trailing := if str_truthy (trailing_text tab) then trailing_text tab
                    else pt_trailing pt |}.

(** The rows of a resolved table that are not its header row. *)
Definition non_header_rows (headers : row) (all_rows : list row) : list row :=
  filter (fun r => negb (row_eqb r headers)) all_rows.

Section MergeEngine.

Variables (st : state) (pt : pending) (L : Z).
Variables (H : row) (all_rows : list row) (tab : table).

Hypothesis Hpending : pending_table st = Some pt.
Hypothesis Hlast : last_item (pt_page pt) = Ok L.

Let P := pt_raw_headers pt.
Let data_rows := non_header_rows H all_rows.

Lemma merge_exact_header :
  H = P ->
  _try_merge_table st H data_rows all_rows tab
  = Ok (set_pending_table st (Some (merged_pending st pt data_rows tab)), true).
Proof.
  intros Heq. unfold _try_merge_table. rewrite Hpending, Hlast. cbn [bind].
  replace (_headers_match (pt_raw_headers pt) H) with true
    by (symmetry; apply headers_match_eq; subst P; congruence).
  cbn [negb]. rewrite classify_rows_spec. reflexivity.
Qed.

Lemma merge_column_count :
  H <> P -> length H = length P -> (pg st <= L + 1)%Z ->
  _try_merge_table st H data_rows all_rows tab
  = Ok (set_pending_table st (Some (merged_pending st pt all_rows tab)), true).
Proof.
  intros Hne Hlen Hpg. unfold _try_merge_table.
  rewrite Hpending, Hlast. cbn [bind].
  destruct (_headers_match (pt_raw_headers pt) H) eqn:Hm.
  { apply headers_match_eq in Hm. subst P. congruence. }
  replace (length (pt_raw_headers pt) =? length H) with true
    by (symmetry; apply Nat.eqb_eq; subst P; congruence).
  replace (pg st <=? L + 1)%Z with true by (symmetry; apply Z.leb_le; lia).
  cbn [andb negb]. rewrite classify_rows_spec. reflexivity.
Qed.

Lemma merge_refused :
  H <> P -> ~ (length H = length P /\ (pg st <= L + 1)%Z) ->
  _try_merge_table st H data_rows all_rows tab = Ok (st, false).
Proof.
  intros Hne Hno. unfold _try_merge_table.
  rewrite Hpending, Hlast. cbn [bind].
  destruct (_headers_match (pt_raw_headers pt) H) eqn:Hm.
  { apply headers_match_eq in Hm. subst P. congruence. }
  destruct ((length (pt_raw_headers pt) =? length H)
            && (pg st <=? L + 1)%Z) eqn:Hc; [|reflexivity].
  apply andb_true_iff in Hc. destruct Hc as [Hc1 Hc2].
  apply Nat.eqb_eq in Hc1. apply Z.leb_le in Hc2.
  exfalso. apply Hno. subst P. split; [congruence | assumption].
Qed.

End MergeEngine.

(** The block a pending accumulator is flushed into. *)
Definition pending_block (pt : pending) : block :=
  let summary :=
    match pt_summary_row pt with
    | Some (_ :: _) => pt_summary_row pt
    | _ =>
        if str_truthy (pt_trailing pt) then
          match _parse_trailing_totals (pt_trailing pt) with
          | Some (label, values) => Some (map Some (label :: values))
          | None => pt_summary_row pt
          end
        else pt_summary_row pt
    end in
  _make_block (pt_title pt) (pt_description pt) table_block
    (DataTable (pt_headers pt) (pt_rows pt) summary)
    (Some (match pt_page pt with
           | [p] => PageNum p
           | ps => PageList ps
           end)).

Lemma flush_pending_some : forall st pt,
  pending_table st = Some pt ->
  _flush_pending_table st
  = set_pending_table (append_block st (pending_block pt)) None.
Proof. intros st pt Hp. unfold _flush_pending_table. rewrite Hp. reflexivity. Qed.

Lemma flush_pending_none : forall st,
  pending_table st = None -> _flush_pending_table st = st.
Proof. intros st Hp. unfold _flush_pending_table. rewrite Hp. reflexivity. Qed.

(** The accumulator [_on_table] starts from a table that did not merge. *)
Definition fresh_pending (page : Z) (title description : option str)
  (headers : row) (all_rows : list row) (tab : table) : pending :=
  {| pt_page := [page];
     pt_title := title;
     pt_description := description;
     pt_headers := headers;
     pt_rows := data_rows_of (non_header_rows headers all_rows);
     pt_summary_row := last_summary_of (non_header_rows headers all_rows) None;
     pt_raw_headers := headers;
     pt_trailing := trailing_text tab |}.

Lemma on_table_no_merge :
  forall st box st1 headers all_rows tab st2 title description,
    _resolve_table_data (set_last_img_tbl_headers st None) box
    = Ok (st1, Some (headers, all_rows, tab)) ->
    _resolve_title_description st1 = (st2, (title, description)) ->
    _is_key_value_table all_rows = Ok false ->
    _try_merge_table st2 headers (non_header_rows headers all_rows) all_rows tab
    = Ok (st2, false) ->
    _on_table st box
    = Ok (set_pending_table (_flush_pending_table st2)
            (Some (fresh_pending (pg st2) title description headers all_rows
                     tab))).
Proof.
  intros st box st1 headers all_rows tab st2 title description Hres Htd Hkv Hm.
  unfold _on_table. rewrite Hres. cbn [bind]. rewrite Htd, Hkv. cbn [bind].
  fold (non_header_rows headers all_rows). rewrite Hm. cbn [bind].
  rewrite classify_rows_spec. unfold fresh_pending. simpl app.
  replace (pg (_flush_pending_table st2)) with (pg st2); [reflexivity|].
  unfold _flush_pending_table. destruct (pending_table st2); reflexivity.
Qed.

Definition earlier_page_pending : pending :=
  {| pt_page := [5%Z]; pt_title := None; pt_description := None;
     pt_headers := [scell "A"; scell "B"]; pt_rows := [];
     pt_summary_row := None;
     pt_raw_headers := [scell "A"; scell "B"]; pt_trailing := None |}.

Definition earlier_page_state : state :=
  {| blocks := []; heading := None; text_buf := []; text_page := None;
     pending_table := Some earlier_page_pending;
     last_img_tbl_headers := None;
     pg := 3%Z; page_tables := []; page_images := []; table_idx := 1 |}.

Definition earlier_page_table : table :=
  {| header_names := [scell "X"; scell "Y"]; cells := [[scell "u"; scell "v"]];
     col_count := 2; row_count := 1; trailing_text := None |}.

(** Two pages that arrive as page 5 and then page 3, each with one table;
    the tables have different headers of the same length. *)
Definition out_of_order_document : raw :=
  let box := {| boxclass := py "table";
                box_bbox := {| x0 := 0; y0 := 0; x1 := 100; y1 := 50 |};
                text := []; box_layout_table := None |} in
  {| filename := py "report.pdf";
     total_pages := 2;
     pages :=
       [ {| page_number := 5;
            tables :=
              [ {| header_names := [scell "A"; scell "B"];
                   cells := [ [scell "A"; scell "B"]; [scell "x"; scell "1"] ];
                   col_count := 2; row_count := 2; trailing_text := None |} ];
            images := [];
            layout_boxes := [box] |};
         {| page_number := 3;
            tables := [ earlier_page_table ];
            images := [];
            layout_boxes := [box] |} ] |}.




(* ================================================================== *)
(** ** The languages of the regular expressions *)

(** [s] is empty or begins with a character outside the class [p]. *)
Definition hd_not (p : ascii -> bool) (s : str) : Prop :=
  match s with
  | c :: _ => p c = false
  | [] => True
  end.

Lemma span_spec : forall p s a b,
  span p s = (a, b) -> s = a ++ b /\ forallb p a = true /\ hd_not p b.
Proof.
  intros p; induction s as [|c s IH]; intros a b; simpl.
  - intros E; injection E as <- <-. simpl; auto.
  - destruct (p c) eqn:Hc.
    + destruct (span p s) as [a' b'] eqn:Hs. intros E; injection E as <- <-.
      destruct (IH a' b' eq_refl) as (-> & Ha & Hb).
      simpl. rewrite Hc. auto.
    + intros E; injection E as <- <-. simpl. auto.
Qed.

Lemma span_app : forall p a b,
  forallb p a = true -> hd_not p b -> span p (a ++ b) = (a, b).
Proof.
  intros p; induction a as [|c a IH]; intros b Ha Hb; simpl in *.
  - destruct b as [|d b]; [reflexivity|]. simpl in *. rewrite Hb. reflexivity.
  - apply andb_true_iff in Ha. destruct Ha as [Hc Ha].
    rewrite Hc, (IH b Ha Hb). reflexivity.
Qed.

Lemma skip_app : forall p a b,
  forallb p a = true -> hd_not p b -> skip p (a ++ b) = b.
Proof. intros; unfold skip; rewrite span_app; auto. Qed.

Lemma skip_spec : forall p s,
  exists a, s = a ++ skip p s /\ forallb p a = true /\ hd_not p (skip p s).
Proof.
  intros p s. unfold skip. destruct (span p s) as [a b] eqn:Hs.
  exists a. apply span_spec in Hs. simpl. exact Hs.
Qed.

Lemma skip_id : forall p s, hd_not p s -> skip p s = s.
Proof. intros p s Hs. apply (skip_app p [] s); auto. Qed.

Lemma expect_spec : forall c s r, expect c s = Some r <-> s = c :: r.
Proof.
  intros c s r; unfold expect. destruct s as [|d t].
  - split; discriminate.
  - destruct (Ascii.eqb d c) eqn:Hd.
    + apply Ascii.eqb_eq in Hd. subst d.
      split; intros E; injection E as E; subst; reflexivity.
    + apply Ascii.eqb_neq in Hd.
      split; [discriminate | intros E; injection E as E _; contradiction].
Qed.

Lemma expect_cons : forall c r, expect c (c :: r) = Some r.
Proof. intros; apply expect_spec; reflexivity. Qed.

Lemma expect_other : forall c d r, d <> c -> expect c (d :: r) = None.
Proof.
  intros c d r Hd. unfold expect.
  apply Ascii.eqb_neq in Hd. rewrite Hd. reflexivity.
Qed.

(** The two strings [$] accepts after the match. *)
Lemma at_end_spec : forall e, at_end e = true <-> e = [] \/ e = [NL].
Proof.
  intros [|c [|d e]]; simpl.
  - split; auto.
  - rewrite Ascii.eqb_eq. split.
    + intros ->; auto.
    + intros [H | H]; [discriminate | congruence].
  - split; [discriminate | intros [H | H]; discriminate].
Qed.

Lemma hd_not_app : forall (p q : ascii -> bool) a b,
  forallb q a = true -> (forall c, q c = true -> p c = false) ->
  hd_not p b -> hd_not p (a ++ b).
Proof.
  intros p q [|c a] b Ha Hq Hb; simpl in *; auto.
  apply andb_true_iff in Ha. apply Hq. tauto.
Qed.

Lemma hd_not_at_end : forall p e,
  at_end e = true -> p NL = false -> hd_not p e.
Proof.
  intros p e He Hp. apply at_end_spec in He.
  destruct He as [-> | ->]; simpl; auto.
Qed.

Lemma digits_hd_not_space : forall digits rest,
  forallb is_digit digits = true -> digits <> [] ->
  hd_not is_space (digits ++ rest).
Proof.
  intros [|d ds] rest Hds Hne; [congruence|]. simpl in *.
  apply andb_true_iff in Hds. apply digit_not_space. tauto.
Qed.

Lemma digits_expect_other : forall c digits rest,
  forallb is_digit digits = true -> digits <> [] -> is_digit c = false ->
  expect c (digits ++ rest) = None.
Proof.
  intros c [|d ds] rest Hds Hne Hc; [congruence|]. simpl app.
  apply expect_other. intros ->. simpl in Hds.
  apply andb_true_iff in Hds. destruct Hds; congruence.
Qed.

(** The language of [^(\()\$\s*(\d+)\s*(\))$], with group 2. *)
Definition paren_dollar_form (s digits : str) : Prop :=
  exists sp1 sp2 e,
    s = "(" :: "$" :: sp1 ++ digits ++ sp2 ++ ")" :: e
    /\ forallb is_space sp1 = true
    /\ forallb is_digit digits = true /\ digits <> []
    /\ forallb is_space sp2 = true
    /\ at_end e = true.

Lemma match_paren_dollar_spec : forall s digits,
  match_paren_dollar s = Some digits <-> paren_dollar_form s digits.
Proof.
  intros s digits. unfold match_paren_dollar, paren_dollar_form. split.
  - destruct (expect "(" s) as [r|] eqn:E1; [|discriminate].
    apply expect_spec in E1. subst s.
    destruct (expect "$" r) as [r0|] eqn:E2; [|discriminate].
    apply expect_spec in E2. subst r.
    destruct (skip_spec is_space r0) as (sp1 & E3 & Hsp1 & _).
    destruct (span is_digit (skip is_space r0)) as [ds r1] eqn:E4.
    apply span_spec in E4. destruct E4 as (E4 & Hds & _).
    destruct ds as [|d ds]; [discriminate|].
    destruct (skip_spec is_space r1) as (sp2 & E5 & Hsp2 & _).
    destruct (expect ")" (skip is_space r1)) as [r2|] eqn:E6; [|discriminate].
    apply expect_spec in E6.
    destruct (at_end r2) eqn:E7; [|discriminate].
    intros E; injection E as <-.
    exists sp1, sp2, r2. rewrite E3, E4, E5, E6.
    repeat split; auto; discriminate.
  - intros (sp1 & sp2 & e & -> & Hsp1 & Hds & Hne & Hsp2 & He).
    rewrite !expect_cons.
    rewrite skip_app; auto using digits_hd_not_space.
    rewrite span_app; auto.
    + rewrite skip_app; auto; [|reflexivity].
      rewrite expect_cons, He.
      destruct digits; [congruence | reflexivity].
    + apply (hd_not_app is_digit is_space); auto.
      * apply space_not_digit.
      * reflexivity.
Qed.

(** The language of [^\$\s*(-?)(\d+)$], with its groups. *)
Definition dollar_form (s : str) (minus : bool) (digits : str) : Prop :=
  exists sp e,
    s = "$" :: sp ++ (if minus then ["-"] else []) ++ digits ++ e
    /\ forallb is_space sp = true
    /\ forallb is_digit digits = true /\ digits <> []
    /\ at_end e = true.

Lemma match_dollar_spec : forall s minus digits,
  match_dollar s = Some (minus, digits) <-> dollar_form s minus digits.
Proof.
  intros s minus digits. unfold match_dollar, dollar_form. split.
  - destruct (expect "$" s) as [r|] eqn:E1; [|discriminate].
    apply expect_spec in E1. subst s.
    destruct (skip_spec is_space r) as (sp & E2 & Hsp & _).
    unfold opt_char.
    destruct (expect "-" (skip is_space r)) as [r1|] eqn:E3.
    + apply expect_spec in E3.
      destruct (span is_digit r1) as [ds r2] eqn:E4.
      apply span_spec in E4. destruct E4 as (E4 & Hds & _).
      destruct ds as [|d ds]; [discriminate|].
      destruct (at_end r2) eqn:E5; [|discriminate].
      intros E; injection E as <- <-.
      exists sp, r2. rewrite E2, E3, E4. repeat split; auto; discriminate.
    + destruct (span is_digit (skip is_space r)) as [ds r2] eqn:E4.
      apply span_spec in E4. destruct E4 as (E4 & Hds & _).
      destruct ds as [|d ds]; [discriminate|].
      destruct (at_end r2) eqn:E5; [|discriminate].
      intros E; injection E as <- <-.
      exists sp, r2. rewrite E2, E4. repeat split; auto; discriminate.
  - intros (sp & e & -> & Hsp & Hds & Hne & He).
    rewrite expect_cons.
    assert (Hend : hd_not is_digit e) by (apply hd_not_at_end; auto).
    destruct minus.
    + rewrite skip_app; auto; [|reflexivity].
      change (["-"] ++ digits ++ e) with ("-" :: digits ++ e).
      unfold opt_char. rewrite expect_cons. cbn [is_some].
      rewrite span_app, He; auto.
      destruct digits; [congruence | reflexivity].
    + change ([] ++ digits ++ e) with (digits ++ e).
      rewrite skip_app; auto using digits_hd_not_space.
      unfold opt_char. rewrite digits_expect_other; auto.
      cbn [is_some]. rewrite span_app, He; auto.
      destruct digits; [congruence | reflexivity].
Qed.

(** The language of [^(\d+)%$], with group 1. *)
Definition percent_form (s digits : str) : Prop :=
  exists e,
    s = digits ++ "%" :: e
    /\ forallb is_digit digits = true /\ digits <> []
    /\ at_end e = true.

Lemma match_percent_spec : forall s digits,
  match_percent s = Some digits <-> percent_form s digits.
Proof.
  intros s digits. unfold match_percent, percent_form. split.
  - destruct (span is_digit s) as [ds r] eqn:E1.
    apply span_spec in E1. destruct E1 as (E1 & Hds & _).
    destruct ds as [|d ds]; [discriminate|].
    destruct (expect "%" r) as [r1|] eqn:E2; [|discriminate].
    apply expect_spec in E2.
    destruct (at_end r1) eqn:E3; [|discriminate].
    intros E; injection E as <-.
    exists r1. rewrite E1, E2. repeat split; auto; discriminate.
  - intros (e & -> & Hds & Hne & He).
    rewrite span_app; auto; [|reflexivity].
    destruct digits as [|d ds]; [congruence|].
    rewrite expect_cons, He. reflexivity.
Qed.

Lemma opt_char_spec : forall c s,
  exists m, s = m ++ opt_char c s /\ (m = [] \/ m = [c]).
Proof.
  intros c s. unfold opt_char. destruct (expect c s) as [t|] eqn:E.
  - apply expect_spec in E. exists [c]. subst s. auto.
  - exists []. auto.
Qed.

Lemma opt_char_cons : forall c r, opt_char c (c :: r) = r.
Proof. intros; unfold opt_char; rewrite expect_cons; reflexivity. Qed.

Lemma opt_char_other : forall c d r, d <> c -> opt_char c (d :: r) = d :: r.
Proof. intros; unfold opt_char; rewrite expect_other; auto. Qed.

(** The language of [^\$\s*-?\s*0\s*\.?\s*00$]. *)
Definition zero_dollar_form (s : str) : Prop :=
  exists sp1 m sp2 sp3 d sp4 e,
    s = "$" :: sp1 ++ m ++ sp2 ++ "0" :: sp3 ++ d ++ sp4 ++ "0" :: "0" :: e
    /\ forallb is_space sp1 = true /\ (m = [] \/ m = ["-"])
    /\ forallb is_space sp2 = true
    /\ forallb is_space sp3 = true /\ (d = [] \/ d = ["."])
    /\ forallb is_space sp4 = true
    /\ at_end e = true.

(** Blanks, an optional [c], blanks, then a character [z] that is neither. *)
Lemma skip_opt_skip : forall c z sp1 m sp2 rest,
  forallb is_space sp1 = true -> (m = [] \/ m = [c]) ->
  forallb is_space sp2 = true ->
  is_space c = false -> is_space z = false -> z <> c ->
  skip is_space (opt_char c (skip is_space (sp1 ++ m ++ sp2 ++ z :: rest)))
  = z :: rest.
Proof.
  intros c z sp1 m sp2 rest H1 Hm H2 Hc Hz Hzc.
  destruct Hm as [-> | ->].
  - change ([] ++ sp2 ++ z :: rest) with (sp2 ++ z :: rest).
    rewrite app_assoc, skip_app; auto.
    + rewrite opt_char_other by assumption. apply skip_id. exact Hz.
    + rewrite forallb_app, H1, H2. reflexivity.
  - change ([c] ++ sp2 ++ z :: rest) with (c :: sp2 ++ z :: rest).
    rewrite skip_app; auto. rewrite opt_char_cons. apply skip_app; auto.
Qed.

Lemma match_zero_dollar_spec : forall s,
  match_zero_dollar s = true <-> zero_dollar_form s.
Proof.
  intros s. unfold match_zero_dollar, zero_dollar_form. split.
  - destruct (expect "$" s) as [r|] eqn:E1; [|discriminate].
    apply expect_spec in E1. subst s.
    destruct (skip_spec is_space r) as (sp1 & E2 & H1 & _).
    destruct (opt_char_spec "-" (skip is_space r)) as (m & E3 & Hm).
    destruct (skip_spec is_space (opt_char "-" (skip is_space r)))
      as (sp2 & E4 & H2 & _).
    destruct (expect "0" _) as [r1|] eqn:E5; [|discriminate].
    apply expect_spec in E5.
    destruct (skip_spec is_space r1) as (sp3 & E6 & H3 & _).
    destruct (opt_char_spec "." (skip is_space r1)) as (d & E7 & Hd).
    destruct (skip_spec is_space (opt_char "." (skip is_space r1)))
      as (sp4 & E8 & H4 & _).
    destruct (expect "0" (skip is_space (opt_char "." (skip is_space r1))))
      as [r2|] eqn:E9; [|discriminate].
    apply expect_spec in E9.
    destruct (expect "0" r2) as [r3|] eqn:E10; [|discriminate].
    apply expect_spec in E10. intros He.
    exists sp1, m, sp2, sp3, d, sp4, r3.
    repeat split; auto.
    rewrite E2 at 1. rewrite E3 at 1. rewrite E4 at 1. rewrite E5.
    rewrite E6 at 1. rewrite E7 at 1. rewrite E8 at 1. rewrite E9, E10.
    reflexivity.
  - intros (sp1 & m & sp2 & sp3 & d & sp4 & e & -> & H1 & Hm & H2 & H3 & Hd
            & H4 & He).
    rewrite expect_cons.
    rewrite (skip_opt_skip "-" "0" sp1 m sp2) by (auto; discriminate).
    rewrite expect_cons.
    rewrite (skip_opt_skip "." "0" sp3 d sp4) by (auto; discriminate).
    rewrite !expect_cons. exact He.
Qed.

(* ================================================================== *)
(** ** Trimming and whitespace *)

Lemma forallb_rev : forall (A : Type) (p : A -> bool) l,
  forallb p (rev l) = forallb p l.
Proof.
  intros A p l. destruct (forallb p l) eqn:H.
  - rewrite forallb_forall in *. intros x Hx. apply H, in_rev, Hx.
  - destruct (forallb p (rev l)) eqn:H'; [|reflexivity].
    rewrite <- H. symmetry. rewrite forallb_forall in *.
    intros x Hx. apply H'. rewrite <- in_rev. exact Hx.
Qed.

Lemma lstrip_skip : forall s, lstrip s = skip is_space s.
Proof.
  induction s as [|c s IH]; [reflexivity|].
  unfold skip in *. simpl. destruct (is_space c); [|reflexivity].
  rewrite IH. destruct (span is_space s); reflexivity.
Qed.

(** No blank at either end. *)
Definition trimmed (s : str) : Prop :=
  hd_not is_space s /\ hd_not is_space (rev s).

Lemma strip_spec : forall s,
  exists sp1 sp2,
    s = sp1 ++ strip s ++ sp2
    /\ forallb is_space sp1 = true /\ forallb is_space sp2 = true
    /\ trimmed (strip s).
Proof.
  intros s. unfold strip, rstrip. rewrite !lstrip_skip.
  destruct (skip_spec is_space s) as (sp1 & E1 & H1 & N1).
  set (t := skip is_space s) in *.
  destruct (skip_spec is_space (rev t)) as (sp2 & E2 & H2 & N2).
  set (u := skip is_space (rev t)) in *.
  assert (Et : t = rev u ++ rev sp2).
  { rewrite <- rev_app_distr, <- E2, rev_involutive. reflexivity. }
  exists sp1, (rev sp2). split; [|split; [|split]].
  - rewrite <- Et. exact E1.
  - exact H1.
  - rewrite forallb_rev. exact H2.
  - split; [|rewrite rev_involutive; exact N2].
    rewrite Et in N1. destruct (rev u); simpl in *; auto.
Qed.

Lemma strip_id : forall s, trimmed s -> strip s = s.
Proof.
  intros s [H1 H2]. unfold strip, rstrip. rewrite !lstrip_skip.
  rewrite (skip_id _ s H1), (skip_id _ (rev s) H2). apply rev_involutive.
Qed.

Lemma strip_trimmed : forall s, trimmed (strip s).
Proof. intros s. destruct (strip_spec s) as (? & ? & ? & ? & ? & H). exact H. Qed.

(** No blank at all. *)
Definition no_space (s : str) : bool := forallb (fun c => negb (is_space c)) s.

Lemma no_space_hd : forall s, no_space s = true -> hd_not is_space s.
Proof.
  intros [|c s] H; simpl in *; auto.
  apply andb_true_iff in H. destruct H as [H _].
  apply negb_true_iff in H. exact H.
Qed.

Lemma no_space_trimmed : forall s, no_space s = true -> trimmed s.
Proof.
  intros s H. split; apply no_space_hd; auto.
  unfold no_space. rewrite forallb_rev. exact H.
Qed.

Lemma trimmed_last : forall s c, is_space c = false ->
  hd_not is_space (rev (s ++ [c])).
Proof. intros s c Hc. rewrite rev_app_distr. simpl. exact Hc. Qed.

Lemma NL_is_space : is_space NL = true.
Proof. reflexivity. Qed.

Lemma no_space_no_NL : forall s, no_space s = true -> has_char NL s = false.
Proof.
  unfold no_space, has_char.
  induction s as [|c s IH]; cbn [forallb existsb]; auto.
  intros H. apply andb_true_iff in H. destruct H as [Hc Hs].
  rewrite (IH Hs), orb_false_r. apply Ascii.eqb_neq. intros <-.
  rewrite NL_is_space in Hc. discriminate.
Qed.

(** *** The trailing-noise substitution *)

Lemma tail_noise_chars : forall s,
  tail_noise s = true -> forallb (fun c => is_csd c || is_space c) s = true.
Proof.
  intros s H. unfold tail_noise in H.
  destruct (skip_spec is_csd s) as (a & E & Ha & _).
  rewrite E, forallb_app. apply andb_true_iff. split.
  - rewrite forallb_forall in *. intros c Hc. rewrite (Ha c Hc). reflexivity.
  - rewrite forallb_forall in *. intros c Hc. rewrite (H c Hc).
    apply orb_true_r.
Qed.

Lemma sub_trailing_no_NL : forall s,
  has_char NL s = false -> sub_trailing s = s.
Proof.
  unfold has_char. induction s as [|c s IH]; cbn [existsb sub_trailing]; auto.
  intros H. apply orb_false_iff in H. destruct H as [Hc Hs].
  rewrite Ascii.eqb_sym in Hc. rewrite Hc. cbn [andb]. rewrite IH; auto.
Qed.

(** A string that ends with a character outside the noise classes is left
    alone. *)
Lemma sub_trailing_solid_end : forall s c,
  is_csd c = false -> is_space c = false ->
  sub_trailing (s ++ [c]) = s ++ [c].
Proof.
  intros s c Hcsd Hsp.
  assert (Hn : forall t, tail_noise (t ++ [c]) = false).
  { intros t. destruct (tail_noise (t ++ [c])) eqn:H; [|reflexivity].
    apply tail_noise_chars in H. rewrite forallb_app in H.
    apply andb_true_iff in H. destruct H as [_ H]. simpl in H.
    rewrite Hcsd, Hsp in H. discriminate. }
  induction s as [|a s IH]; cbn [app sub_trailing].
  - replace (Ascii.eqb c NL) with false; [reflexivity|].
    symmetry. apply Ascii.eqb_neq. intros ->.
    rewrite NL_is_space in Hsp. discriminate.
  - rewrite Hn, andb_false_r, IH. reflexivity.
Qed.

(** *** Collapsing blanks *)

Lemma collapse_no_space : forall s, no_space s = true -> collapse s = s.
Proof.
  unfold no_space. induction s as [|c s IH]; simpl; auto.
  intros H. apply andb_true_iff in H. destruct H as [Hc Hs].
  apply negb_true_iff in Hc. rewrite Hc, IH; auto.
Qed.

Lemma collapse_cons_solid : forall c s,
  is_space c = false -> collapse (c :: s) = c :: collapse s.
Proof. intros c s Hc. simpl. rewrite Hc. reflexivity. Qed.

Lemma collapse_hd : forall s, hd_not is_space s -> hd_not is_space (collapse s).
Proof.
  intros [|c s] H; simpl in *; auto. rewrite H. simpl. exact H.
Qed.

Lemma collapse_idempotent : forall s, collapse (collapse s) = collapse s.
Proof.
  induction s as [|c s IH]; [reflexivity|].
  cbn [collapse]. destruct (is_space c) eqn:Hc.
  - destruct s as [|d s]; [reflexivity|].
    destruct (is_space d) eqn:Hd; [exact IH|].
    rewrite (collapse_cons_solid d s Hd) in *.
    change (collapse (" " :: d :: collapse s))
      with (if is_space d then collapse (d :: collapse s)
            else " " :: collapse (d :: collapse s)).
    rewrite Hd, IH. reflexivity.
  - rewrite collapse_cons_solid by assumption. rewrite IH. reflexivity.
Qed.

Lemma collapse_snoc_solid : forall s c,
  is_space c = false -> collapse (s ++ [c]) = collapse s ++ [c].
Proof.
  intros s c Hc. induction s as [|a s IH].
  - simpl. rewrite Hc. reflexivity.
  - cbn [app collapse]. destruct (is_space a) eqn:Ha.
    + destruct s as [|d s].
      * simpl. rewrite Hc. reflexivity.
      * cbn [app] in *. destruct (is_space d); rewrite IH; reflexivity.
    + rewrite IH. reflexivity.
Qed.

Lemma last_split : forall (s : str),
  s <> [] -> exists t c, s = t ++ [c].
Proof.
  intros s Hs. destruct (exists_last Hs) as (t & c & E). eauto.
Qed.

Lemma trimmed_snoc : forall s, s <> [] -> trimmed s ->
  exists t c, s = t ++ [c] /\ is_space c = false.
Proof.
  intros s Hs [_ H]. destruct (last_split s Hs) as (t & c & ->).
  exists t, c. split; auto. rewrite rev_app_distr in H. exact H.
Qed.

Lemma collapse_trimmed : forall s, trimmed s -> trimmed (collapse s).
Proof.
  intros s Ht. destruct s as [|a s]; [exact Ht|].
  destruct (trimmed_snoc (a :: s)) as (t & c & E & Hc); auto; [discriminate|].
  split.
  - apply collapse_hd. apply Ht.
  - rewrite E, collapse_snoc_solid by assumption. apply trimmed_last, Hc.
Qed.

Lemma collapse_nil : forall s, collapse s = [] -> s = [].
Proof.
  induction s as [|c s IH]; auto. cbn [collapse].
  destruct (is_space c).
  - destruct s as [|d s]; [discriminate|].
    destruct (is_space d); [|discriminate].
    intros H. apply IH in H. discriminate.
  - discriminate.
Qed.

Lemma collapse_no_NL : forall s, has_char NL (collapse s) = false.
Proof.
  unfold has_char. induction s as [|c s IH]; [reflexivity|].
  cbn [collapse]. destruct (is_space c) eqn:Hc.
  - destruct s as [|d s]; [reflexivity|].
    destruct (is_space d); [exact IH|].
    cbn [existsb]. cbn [existsb] in IH. rewrite IH. reflexivity.
  - cbn [existsb]. rewrite IH, orb_false_r.
    apply Ascii.eqb_neq. intros <-. rewrite NL_is_space in Hc. discriminate.
Qed.

(** *** The recognisers on a collapsed string *)

Lemma collapse_space_run : forall sp rest,
  forallb is_space sp = true -> sp <> [] -> hd_not is_space rest ->
  collapse (sp ++ rest) = " " :: collapse rest.
Proof.
  induction sp as [|a sp IH]; intros rest Hsp Hne Hrest; [congruence|].
  cbn [forallb] in Hsp. apply andb_true_iff in Hsp. destruct Hsp as [Ha Hsp].
  cbn [app collapse]. rewrite Ha.
  destruct sp as [|b sp].
  - cbn [app]. destruct rest as [|d rest]; [reflexivity|].
    simpl in Hrest. rewrite Hrest. reflexivity.
  - cbn [app]. cbn [forallb] in Hsp.
    pose proof Hsp as Hsp'. apply andb_true_iff in Hsp'.
    destruct Hsp' as [Hb _]. rewrite Hb.
    apply (IH rest); auto. discriminate.
Qed.

(** A string is a run of blanks followed by a string that does not begin
    with a blank; collapsing keeps the rest and at most one space of the
    run. *)
Lemma collapse_skip : forall s,
  collapse s = collapse (skip is_space s)
  \/ collapse s = " " :: collapse (skip is_space s).
Proof.
  intros s. destruct (skip_spec is_space s) as (sp & E & Hsp & Hn).
  destruct sp as [|a sp].
  - left. cbn [app] in E. rewrite <- E. reflexivity.
  - right. rewrite E at 1. apply collapse_space_run; auto. discriminate.
Qed.

Lemma skip_collapse : forall s,
  skip is_space (collapse s) = collapse (skip is_space s).
Proof.
  intros s.
  destruct (skip_spec is_space s) as (sp & E & Hsp & Hn).
  pose proof (collapse_hd _ Hn) as Hc.
  destruct (collapse_skip s) as [-> | ->].
  - apply skip_id; auto.
  - apply (skip_app is_space [" "]); auto.
Qed.

Lemma space_char_is_space : is_space " " = true.
Proof. reflexivity. Qed.

Lemma expect_collapse : forall c s, is_space c = false ->
  expect c (collapse s) = option_map collapse (expect c s).
Proof.
  intros c s Hc. destruct s as [|d t]; [reflexivity|].
  destruct (is_space d) eqn:Hd.
  - assert (Hdc : d <> c) by (intros ->; congruence).
    rewrite (expect_other c d t Hdc).
    destruct (skip_spec is_space (d :: t)) as (sp & E & Hsp & Hn).
    destruct sp as [|a sp].
    + cbn [app] in E. rewrite <- E in Hn. simpl in Hn. congruence.
    + rewrite E, collapse_space_run; auto; [|discriminate].
      apply expect_other. intros <-. rewrite space_char_is_space in Hc.
      discriminate.
  - rewrite collapse_cons_solid by assumption.
    unfold expect. destruct (Ascii.eqb d c); reflexivity.
Qed.

Lemma opt_char_collapse : forall c s, is_space c = false ->
  opt_char c (collapse s) = collapse (opt_char c s).
Proof.
  intros c s Hc. unfold opt_char. rewrite expect_collapse by assumption.
  destruct (expect c s); reflexivity.
Qed.

Lemma collapse_hd_not_digit : forall s,
  hd_not is_digit s -> hd_not is_digit (collapse s).
Proof.
  intros [|c s] H; [exact I|]. simpl in H.
  destruct (is_space c) eqn:Hc.
  - destruct (skip_spec is_space (c :: s)) as (sp & E & Hsp & Hn).
    destruct sp as [|a sp].
    + cbn [app] in E. rewrite <- E in Hn. simpl in Hn. congruence.
    + rewrite E, collapse_space_run; auto; [reflexivity | discriminate].
  - rewrite collapse_cons_solid by assumption. exact H.
Qed.

Lemma span_digit_collapse : forall s,
  span is_digit (collapse s)
  = (fst (span is_digit s), collapse (snd (span is_digit s))).
Proof.
  induction s as [|c s IH]; [reflexivity|].
  destruct (is_digit c) eqn:Hc.
  - rewrite collapse_cons_solid by (apply digit_not_space; assumption).
    cbn [span]. rewrite Hc, IH.
    destruct (span is_digit s); reflexivity.
  - cbn [span]. rewrite Hc. cbn [fst snd].
    apply (span_app is_digit []); [reflexivity|].
    apply collapse_hd_not_digit. exact Hc.
Qed.

Lemma at_end_collapse : forall s, at_end (collapse s) = true -> s = [].
Proof.
  intros s H. apply at_end_spec in H. destruct H as [H | H].
  - apply collapse_nil; assumption.
  - pose proof (collapse_no_NL s) as Hn. rewrite H in Hn.
    vm_compute in Hn. discriminate.
Qed.

Lemma match_paren_dollar_collapse : forall s,
  match_paren_dollar s = None -> match_paren_dollar (collapse s) = None.
Proof.
  intros s. unfold match_paren_dollar.
  rewrite expect_collapse by reflexivity.
  destruct (expect "(" s) as [r|]; [|reflexivity]. cbn [option_map].
  rewrite expect_collapse by reflexivity.
  destruct (expect "$" r) as [r0|]; [|reflexivity]. cbn [option_map].
  rewrite skip_collapse, span_digit_collapse.
  destruct (span is_digit (skip is_space r0)) as [ds r1]. cbn [fst snd].
  destruct ds as [|d ds]; [reflexivity|].
  rewrite skip_collapse, expect_collapse by reflexivity.
  destruct (expect ")" (skip is_space r1)) as [r2|]; [|reflexivity].
  cbn [option_map].
  destruct (at_end (collapse r2)) eqn:E; [|reflexivity].
  apply at_end_collapse in E. subst r2. discriminate.
Qed.

Lemma match_dollar_collapse : forall s,
  match_dollar s = None -> match_dollar (collapse s) = None.
Proof.
  intros s. unfold match_dollar.
  rewrite expect_collapse by reflexivity.
  destruct (expect "$" s) as [r|]; [|reflexivity]. cbn [option_map].
  rewrite skip_collapse, opt_char_collapse, span_digit_collapse
    by reflexivity.
  destruct (span is_digit (opt_char "-" (skip is_space r))) as [ds r1].
  cbn [fst snd].
  destruct ds as [|d ds]; [reflexivity|].
  destruct (at_end (collapse r1)) eqn:E; [|reflexivity].
  apply at_end_collapse in E. subst r1. discriminate.
Qed.

Lemma match_zero_dollar_collapse : forall s,
  match_zero_dollar s = false -> match_zero_dollar (collapse s) = false.
Proof.
  intros s. unfold match_zero_dollar.
  rewrite expect_collapse by reflexivity.
  destruct (expect "$" s) as [r|]; [|reflexivity]. cbn [option_map].
  rewrite skip_collapse, opt_char_collapse, skip_collapse, expect_collapse
    by reflexivity.
  destruct (expect "0" _) as [r1|]; [|reflexivity]. cbn [option_map].
  rewrite skip_collapse, opt_char_collapse, skip_collapse, expect_collapse
    by reflexivity.
  destruct (expect "0" (skip is_space (opt_char "." (skip is_space r1))))
    as [r2|]; [|reflexivity].
  cbn [option_map]. rewrite expect_collapse by reflexivity.
  destruct (expect "0" r2) as [r3|]; [|reflexivity]. cbn [option_map].
  destruct (at_end (collapse r3)) eqn:E; [|reflexivity].
  apply at_end_collapse in E. subst r3. discriminate.
Qed.

Lemma match_percent_collapse : forall s,
  match_percent s = None -> match_percent (collapse s) = None.
Proof.
  intros s. unfold match_percent. rewrite span_digit_collapse.
  destruct (span is_digit s) as [ds r]. cbn [fst snd].
  destruct ds as [|d ds]; [reflexivity|].
  rewrite expect_collapse by reflexivity.
  destruct (expect "%" r) as [r1|]; [|reflexivity]. cbn [option_map].
  destruct (at_end (collapse r1)) eqn:E; [|reflexivity].
  apply at_end_collapse in E. subst r1. discriminate.
Qed.

(* ================================================================== *)
(** ** Currency rendering *)

(** The number a string of decimal digits denotes. *)
Definition digits_value (s : str) : N :=
  fold_left (fun acc c => (acc * 10 + digit_val c)%N) s 0%N.

Definition digit_char (k : N) : ascii := ascii_of_N (48 + k).

(** An amount of [n] cents: the dollars with thousands separators, a point
    and two digits of cents. *)
Definition render_cents (n : N) : str :=
  format_commas (n / 100)
  ++ "." :: [digit_char (n mod 100 / 10); digit_char (n mod 10)].

(** A negative amount is written in parentheses. *)
Definition wrap_amount (negative : bool) (amount : str) : str :=
  if negative then py "($" ++ amount ++ py ")" else py "$" ++ amount.

Lemma digit_val_lt : forall c, is_digit c = true -> (digit_val c < 10)%N.
Proof. intros c; char_cases c. Qed.

Lemma digit_char_val : forall c, is_digit c = true -> digit_char (digit_val c) = c.
Proof. intros c; char_cases c. Qed.

Lemma digit_char_is_digit : forall k, (k < 10)%N -> is_digit (digit_char k) = true.
Proof.
  intros k Hk.
  assert (H : (k = 0 \/ k = 1 \/ k = 2 \/ k = 3 \/ k = 4 \/ k = 5 \/ k = 6
               \/ k = 7 \/ k = 8 \/ k = 9)%N) by lia.
  repeat (destruct H as [-> | H]; [reflexivity|]). subst; reflexivity.
Qed.

Lemma py_int_digits : forall s,
  forallb is_digit s = true -> s <> [] -> py_int s = Ok (digits_value s).
Proof.
  intros [|c s] Hs Hne; [congruence|]. unfold py_int. rewrite Hs. reflexivity.
Qed.

Lemma digits_value_snoc : forall s c,
  digits_value (s ++ [c]) = (digits_value s * 10 + digit_val c)%N.
Proof. intros s c. unfold digits_value. rewrite fold_left_app. reflexivity. Qed.

Lemma slice_index_neg : forall (A : Type) (l : list A) k,
  0 < k -> slice_index l (- Z.of_nat k) = length l - k.
Proof.
  intros A l k Hk. unfold slice_index. destruct (_ <? 0)%Z eqn:E; lia.
Qed.

Lemma slice_to_neg : forall (A : Type) (l : list A) k,
  0 < k -> slice_to l (- Z.of_nat k) = firstn (length l - k) l.
Proof. intros; unfold slice_to; rewrite slice_index_neg; auto. Qed.

Lemma slice_from_neg : forall (A : Type) (l : list A) k,
  0 < k -> slice_from l (- Z.of_nat k) = skipn (length l - k) l.
Proof. intros; unfold slice_from; rewrite slice_index_neg; auto. Qed.

(** A list of at least two elements, split before its last two. *)
Lemma split_last_two : forall (A : Type) (l : list A),
  2 <= length l ->
  exists a b, l = firstn (length l - 2) l ++ [a; b].
Proof.
  intros A l Hl.
  pose proof (firstn_skipn (length l - 2) l) as E.
  pose proof (length_skipn (length l - 2) l) as Hs.
  destruct (skipn (length l - 2) l) as [|a [|b [|c t]]] eqn:Hsk;
    simpl in Hs; try lia.
  exists a, b. symmetry. exact E.
Qed.

Lemma forallb_app_l : forall (A : Type) (p : A -> bool) a b,
  forallb p (a ++ b) = true -> forallb p a = true.
Proof. intros A p a b H. rewrite forallb_app in H. apply andb_true_iff in H. tauto. Qed.

Lemma forallb_app_r : forall (A : Type) (p : A -> bool) a b,
  forallb p (a ++ b) = true -> forallb p b = true.
Proof. intros A p a b H. rewrite forallb_app in H. apply andb_true_iff in H. tauto. Qed.

Lemma fix_dollar_cents : forall digits negative,
  forallb is_digit digits = true -> digits <> [] ->
  _fix_dollar digits negative
  = Ok (wrap_amount negative (render_cents (digits_value digits))).
Proof.
  intros ds neg Hds Hne. unfold _fix_dollar.
  destruct (length ds <=? 2) eqn:Hlen.
  - apply Nat.leb_le in Hlen. cbn [bind]. unfold wrap_amount. f_equal.
    destruct ds as [|a [|b [|c t]]]; [congruence | | | simpl in Hlen; lia].
    + cbn [forallb] in Hds. rewrite andb_true_r in Hds.
      pose proof (digit_val_lt a Hds) as Ha.
      assert (Hr : render_cents (digits_value [a]) = py "0." ++ zfill 2 [a]).
      { unfold render_cents, digits_value. cbn [fold_left].
        replace (0 * 10 + digit_val a)%N with (digit_val a) by lia.
        rewrite N.div_small, N.mod_small, N.div_small, N.mod_small by lia.
        rewrite digit_char_val by assumption. reflexivity. }
      rewrite Hr. reflexivity.
    + cbn [forallb] in Hds. rewrite andb_true_r in Hds.
      apply andb_true_iff in Hds. destruct Hds as [Ha Hb].
      pose proof (digit_val_lt a Ha) as Ha'.
      pose proof (digit_val_lt b Hb) as Hb'.
      assert (Hr : render_cents (digits_value [a; b])
                   = py "0." ++ zfill 2 [a; b]).
      { unfold render_cents, digits_value. cbn [fold_left].
        replace ((0 * 10 + digit_val a) * 10 + digit_val b)%N
          with (digit_val b + digit_val a * 10)%N by lia.
        rewrite (N.div_small _ 100), (N.mod_small _ 100) by lia.
        rewrite N.div_add, N.Div0.mod_add by lia.
        rewrite (N.div_small (digit_val b)), (N.mod_small (digit_val b)) by lia.
        cbn [N.add]. rewrite !digit_char_val by assumption. reflexivity. }
      rewrite Hr. reflexivity.
  - apply Nat.leb_gt in Hlen.
    change (-2)%Z with (- Z.of_nat 2)%Z.
    rewrite slice_to_neg, slice_from_neg by lia.
    destruct (split_last_two _ ds) as (a & b & E); [lia|].
    set (pre := firstn (length ds - 2) ds) in *.
    assert (Hpre : forallb is_digit pre = true).
    { rewrite E in Hds. apply forallb_app_l in Hds. exact Hds. }
    assert (Hab : forallb is_digit [a; b] = true).
    { rewrite E in Hds. apply forallb_app_r in Hds. exact Hds. }
    cbn [forallb] in Hab. rewrite andb_true_r in Hab.
    apply andb_true_iff in Hab. destruct Hab as [Ha Hb].
    pose proof (digit_val_lt a Ha) as Ha'.
    pose proof (digit_val_lt b Hb) as Hb'.
    assert (Hpne : pre <> []).
    { intros Hp. apply (f_equal (@length _)) in Hp. unfold pre in Hp.
      rewrite length_firstn in Hp. simpl in Hp. lia. }
    rewrite py_int_digits by assumption. cbn [bind].
    assert (Hsk : skipn (length ds - 2) ds = [a; b]).
    { rewrite E at 2. rewrite skipn_app.
      replace (length ds - 2 - length pre) with 0
        by (unfold pre; rewrite length_firstn; lia).
      rewrite skipn_all2 by (unfold pre; rewrite length_firstn; lia).
      reflexivity. }
    rewrite Hsk.
    assert (Hv : digits_value ds
                 = (digit_val b + digit_val a * 10 + digits_value pre * 100)%N).
    { rewrite E. change (pre ++ [a; b]) with (pre ++ [a] ++ [b]).
      rewrite app_assoc, !digits_value_snoc. lia. }
    unfold wrap_amount, render_cents. rewrite Hv.
    rewrite N.div_add, N.Div0.mod_add by lia.
    rewrite (N.div_small _ 100), (N.mod_small _ 100) by lia.
    replace (digit_val b + digit_val a * 10 + digits_value pre * 100)%N
      with (digit_val b + (digit_val a + digits_value pre * 10) * 10)%N by lia.
    rewrite N.div_add, N.Div0.mod_add by lia.
    rewrite (N.div_small (digit_val b)), (N.mod_small (digit_val b)) by lia.
    cbn [N.add]. rewrite !digit_char_val by assumption. reflexivity.
Qed.

(** *** The characters of a rendered amount *)

Definition amount_char (c : ascii) : bool :=
  is_digit c || Ascii.eqb c "," || Ascii.eqb c ".".

Definition wrapped_char (c : ascii) : bool :=
  amount_char c || Ascii.eqb c "$" || Ascii.eqb c "(" || Ascii.eqb c ")".

Lemma forallb_impl : forall (A : Type) (p q : A -> bool) l,
  (forall x, p x = true -> q x = true) ->
  forallb p l = true -> forallb q l = true.
Proof.
  intros A p q l Hpq H. rewrite forallb_forall in *. auto.
Qed.

Lemma uint_digits_digits : forall u, forallb is_digit (uint_digits u) = true.
Proof. induction u; simpl; auto. Qed.

Lemma group3_chars : forall p, p "," = true ->
  forall n r, length r <= n -> forallb p r = true ->
  forallb p (group3 r) = true.
Proof.
  intros p Hp. induction n as [|n IH]; intros r Hlen Hr.
  - destruct r; [reflexivity | simpl in Hlen; lia].
  - destruct r as [|a [|b [|c [|d t]]]]; try exact Hr.
    change (group3 (a :: b :: c :: d :: t))
      with (a :: b :: c :: "," :: group3 (d :: t)).
    cbn [forallb] in Hr.
    apply andb_true_iff in Hr; destruct Hr as [Ha Hr].
    apply andb_true_iff in Hr; destruct Hr as [Hb Hr].
    apply andb_true_iff in Hr; destruct Hr as [Hc Hr].
    cbn [forallb]. rewrite Ha, Hb, Hc, Hp. cbn [andb].
    apply IH; [simpl in *; lia | exact Hr].
Qed.

Lemma format_commas_chars : forall n,
  forallb amount_char (format_commas n) = true.
Proof.
  intros n. unfold format_commas. rewrite forallb_rev.
  apply (group3_chars amount_char eq_refl (length (rev (decimal n))));
    [lia|].
  rewrite forallb_rev. unfold decimal.
  apply (forallb_impl _ is_digit); [|apply uint_digits_digits].
  intros c Hc. unfold amount_char. rewrite Hc. reflexivity.
Qed.

Lemma render_cents_chars : forall n,
  forallb amount_char (render_cents n) = true.
Proof.
  intros n. unfold render_cents. rewrite forallb_app, format_commas_chars.
  cbn [forallb andb]. unfold amount_char at 2 3.
  rewrite !digit_char_is_digit; [reflexivity | |].
  - apply N.mod_lt. lia.
  - apply N.Div0.div_lt_upper_bound. apply N.mod_lt. lia.
Qed.

Lemma render_cents_point : forall n, In "." (render_cents n).
Proof. intros n. unfold render_cents. apply in_or_app. right. left. reflexivity. Qed.

Lemma wrap_amount_chars : forall negative amount,
  forallb amount_char amount = true ->
  forallb wrapped_char (wrap_amount negative amount) = true.
Proof.
  intros neg amt H.
  assert (Hw : forallb wrapped_char amt = true).
  { apply (forallb_impl _ amount_char); auto.
    intros c Hc. unfold wrapped_char. rewrite Hc. reflexivity. }
  unfold wrap_amount. destruct neg.
  - change (py "($" ++ amt ++ py ")") with ("(" :: "$" :: amt ++ [")"]).
    cbn [forallb]. rewrite forallb_app, Hw. reflexivity.
  - change (py "$" ++ amt) with ("$" :: amt).
    cbn [forallb]. rewrite Hw. reflexivity.
Qed.

Lemma wrapped_char_solid : forall c, wrapped_char c = true -> is_space c = false.
Proof. intros c; char_cases c. Qed.

Lemma wrapped_no_space : forall s,
  forallb wrapped_char s = true -> no_space s = true.
Proof.
  intros s. apply forallb_impl. intros c Hc.
  rewrite (wrapped_char_solid c Hc). reflexivity.
Qed.

(** The characters of the strings of each language. *)
Definition paren_dollar_char (c : ascii) : bool :=
  is_space c || is_digit c
  || Ascii.eqb c "(" || Ascii.eqb c "$" || Ascii.eqb c ")".

Definition dollar_char (c : ascii) : bool :=
  is_space c || is_digit c || Ascii.eqb c "$" || Ascii.eqb c "-".

Lemma at_end_chars : forall (p : ascii -> bool) e,
  at_end e = true -> p NL = true -> forallb p e = true.
Proof.
  intros p e He Hp. apply at_end_spec in He.
  destruct He as [-> | ->]; simpl; [reflexivity | rewrite Hp; reflexivity].
Qed.

Lemma paren_dollar_chars : forall s digits,
  paren_dollar_form s digits -> forallb paren_dollar_char s = true.
Proof.
  intros s ds (sp1 & sp2 & e & -> & H1 & Hd & _ & H2 & He).
  cbn [forallb]. rewrite !forallb_app. cbn [forallb].
  rewrite (forallb_impl _ is_space paren_dollar_char sp1),
          (forallb_impl _ is_digit paren_dollar_char ds),
          (forallb_impl _ is_space paren_dollar_char sp2),
          (at_end_chars paren_dollar_char e); auto;
    intros c Hc; unfold paren_dollar_char; rewrite Hc;
    rewrite ?orb_true_r; reflexivity.
Qed.

Lemma dollar_chars : forall s minus digits,
  dollar_form s minus digits -> forallb dollar_char s = true.
Proof.
  intros s m ds (sp & e & -> & H1 & Hd & _ & He).
  cbn [forallb]. rewrite !forallb_app.
  rewrite (forallb_impl _ is_space dollar_char sp),
          (forallb_impl _ is_digit dollar_char ds),
          (at_end_chars dollar_char e); auto;
    try (destruct m; reflexivity);
    intros c Hc; unfold dollar_char; rewrite Hc;
    rewrite ?orb_true_r; reflexivity.
Qed.

Lemma forallb_In_false : forall (p : ascii -> bool) c s,
  forallb p s = true -> p c = false -> ~ In c s.
Proof.
  intros p c s H Hc Hin. rewrite forallb_forall in H.
  rewrite (H c Hin) in Hc. discriminate.
Qed.

(** A string of the zero-dollar language without any blank is one of four
    strings. *)
Lemma zero_dollar_plain : forall s,
  zero_dollar_form s -> no_space s = true ->
  s = py "$0.00" \/ s = py "$000" \/ s = py "$-0.00" \/ s = py "$-000".
Proof.
  intros s (sp1 & m & sp2 & sp3 & d & sp4 & e & -> & H1 & Hm & H2 & H3 & Hd
            & H4 & He) Hn.
  assert (Hnil : forall sp, forallb is_space sp = true ->
                            (forall c, In c sp -> In c
     ("$" :: sp1 ++ m ++ sp2 ++ "0" :: sp3 ++ d ++ sp4 ++ "0" :: "0" :: e)) ->
                            sp = []).
  { intros [|c sp] Hsp Hin; [reflexivity|]. exfalso.
    cbn [forallb] in Hsp. apply andb_true_iff in Hsp. destruct Hsp as [Hc _].
    unfold no_space in Hn. rewrite forallb_forall in Hn.
    specialize (Hn c (Hin c (or_introl eq_refl))).
    rewrite Hc in Hn. discriminate. }
  assert (E1 : sp1 = []).
  { apply Hnil; auto. intros c Hc. right. apply in_or_app. auto. }
  assert (E2 : sp2 = []).
  { apply Hnil; auto. intros c Hc. right.
    apply in_or_app; right. apply in_or_app; right. apply in_or_app. auto. }
  assert (E3 : sp3 = []).
  { apply Hnil; auto. intros c Hc. right.
    apply in_or_app; right. apply in_or_app; right. apply in_or_app; right.
    right. apply in_or_app. auto. }
  assert (E4 : sp4 = []).
  { apply Hnil; auto. intros c Hc. right.
    apply in_or_app; right. apply in_or_app; right. apply in_or_app; right.
    right. apply in_or_app; right. apply in_or_app; right.
    apply in_or_app. auto. }
  assert (E5 : e = []).
  { apply Hnil.
    - apply at_end_chars; auto.
    - intros c Hc. right.
      apply in_or_app; right. apply in_or_app; right. apply in_or_app; right.
      right. apply in_or_app; right. apply in_or_app; right.
      apply in_or_app; right. right. right. exact Hc. }
  subst. destruct Hm as [-> | ->], Hd as [-> | ->]; cbn; auto.
Qed.

(* ================================================================== *)
(** ** The results of the cell normalizer *)

(** A string the normalizer leaves as it is. *)
Lemma clean_cell_fixed : forall r,
  r <> [] -> trimmed r -> has_char NL r = false -> collapse r = r ->
  match_paren_dollar r = None -> match_dollar r = None ->
  (match_zero_dollar r = true -> r = py "$0.00") ->
  _clean_cell (Some r) = Ok (Some r).
Proof.
  intros r Hne Ht Hnl Hc H1 H2 H3. unfold _clean_cell.
  rewrite (sub_trailing_no_NL r Hnl), (strip_id r Ht), H1, H2.
  destruct (match_zero_dollar r) eqn:E3.
  - rewrite (H3 eq_refl). reflexivity.
  - destruct (match_percent r) as [ds|] eqn:E4.
    + rewrite Hnl. cbn [andb].
      apply match_percent_spec in E4. destruct E4 as (e & E & _ & _ & He).
      apply at_end_spec in He. destruct He as [-> | ->].
      * rewrite E. reflexivity.
      * exfalso. rewrite E in Hnl. unfold has_char in Hnl.
        rewrite existsb_app in Hnl. cbn in Hnl.
        rewrite orb_true_r in Hnl. discriminate.
    + rewrite Hc. destruct r; [congruence | reflexivity].
Qed.

(** The shapes of a normalized cell. *)
Inductive normal_cell : str -> Prop :=
| NF_amount : forall negative n,
    normal_cell (wrap_amount negative (render_cents n))
| NF_zero : normal_cell (py "$0.00")
| NF_percent : forall digits,
    forallb is_digit digits = true -> digits <> [] ->
    normal_cell (digits ++ py "%")
| NF_decimal_percent : forall digits d,
    forallb is_digit digits = true -> digits <> [] -> is_digit d = true ->
    normal_cell (digits ++ py "." ++ [d] ++ py "%")
| NF_text : forall s,
    s <> [] -> trimmed s ->
    match_paren_dollar s = None -> match_dollar s = None ->
    match_zero_dollar s = false -> match_percent s = None ->
    normal_cell (collapse s).

Lemma split_last_item : forall (A : Type) (l : list A),
  l <> [] ->
  exists pre x, l = pre ++ [x] /\ last_item l = Ok x
                /\ slice_to l (-1) = pre.
Proof.
  intros A l Hl. destruct (exists_last Hl) as (pre & x & E). exists pre, x.
  split; [exact E|]. split.
  - unfold last_item. rewrite E, rev_app_distr. reflexivity.
  - change (-1)%Z with (- Z.of_nat 1)%Z. rewrite slice_to_neg by lia.
    rewrite E, length_app. simpl length.
    replace (length pre + 1 - 1) with (length pre + 0) by lia.
    rewrite firstn_app_2. simpl. apply app_nil_r.
Qed.

Lemma clean_cell_cases : forall val,
  exists c, _clean_cell (Some val) = Ok c
            /\ (c = None \/ exists r, c = Some r /\ normal_cell r).
Proof.
  intros val. unfold _clean_cell.
  set (stripped := strip (sub_trailing val)).
  destruct (match_paren_dollar stripped) as [ds|] eqn:E1.
  { apply match_paren_dollar_spec in E1.
    destruct E1 as (_ & _ & _ & _ & _ & Hds & Hne & _).
    rewrite fix_dollar_cents by assumption. cbn [bind].
    eexists. split; [reflexivity|]. right. eexists. split; [reflexivity|].
    constructor. }
  destruct (match_dollar stripped) as [[m ds]|] eqn:E2.
  { apply match_dollar_spec in E2.
    destruct E2 as (_ & _ & _ & _ & Hds & Hne & _).
    rewrite fix_dollar_cents by assumption. cbn [bind].
    eexists. split; [reflexivity|]. right. eexists. split; [reflexivity|].
    constructor. }
  destruct (match_zero_dollar stripped) eqn:E3.
  { eexists. split; [reflexivity|]. right. eexists. split; [reflexivity|].
    constructor. }
  destruct (match_percent stripped) as [ds|] eqn:E4.
  { apply match_percent_spec in E4. destruct E4 as (_ & _ & Hds & Hne & _).
    destruct (has_char NL val && (2 <=? length ds)) eqn:Hb.
    - apply andb_true_iff in Hb. destruct Hb as [_ Hlen].
      apply Nat.leb_le in Hlen.
      destruct (split_last_item _ ds Hne) as (pre & d & E & Hl & Hs).
      rewrite Hl, Hs. cbn [bind].
      eexists. split; [reflexivity|]. right. eexists. split; [reflexivity|].
      rewrite E in Hds. rewrite forallb_app in Hds.
      apply andb_true_iff in Hds. destruct Hds as [Hpre Hd].
      cbn [forallb] in Hd. rewrite andb_true_r in Hd.
      apply NF_decimal_percent; auto.
      intros ->. rewrite E in Hlen. simpl in Hlen. lia.
    - eexists. split; [reflexivity|]. right. eexists. split; [reflexivity|].
      apply NF_percent; auto. }
  destruct (collapse stripped) as [|c r] eqn:E5.
  - eexists. split; [reflexivity|]. left. reflexivity.
  - eexists. split; [reflexivity|]. right. eexists. split; [reflexivity|].
    rewrite <- E5. apply NF_text; auto.
    + intros Hs. rewrite Hs in E5. discriminate.
    + apply strip_trimmed.
Qed.

Lemma digits_no_space : forall digits,
  forallb is_digit digits = true -> no_space digits = true.
Proof.
  intros ds. apply forallb_impl. intros c Hc.
  rewrite (digit_not_space c Hc). reflexivity.
Qed.

Lemma no_space_app : forall a b,
  no_space (a ++ b) = no_space a && no_space b.
Proof. intros; apply forallb_app. Qed.

(** A string that begins with a digit matches none of the dollar
    patterns. *)
Lemma digit_first_no_dollar : forall d s, is_digit d = true ->
  match_paren_dollar (d :: s) = None /\ match_dollar (d :: s) = None
  /\ match_zero_dollar (d :: s) = false.
Proof.
  intros d s Hd.
  unfold match_paren_dollar, match_dollar, match_zero_dollar.
  rewrite !expect_other; auto; intros ->; discriminate.
Qed.

Lemma no_space_fixed : forall r,
  r <> [] -> no_space r = true ->
  match_paren_dollar r = None -> match_dollar r = None ->
  (match_zero_dollar r = true -> r = py "$0.00") ->
  _clean_cell (Some r) = Ok (Some r).
Proof.
  intros r Hne Hn H1 H2 H3. apply clean_cell_fixed; auto.
  - apply no_space_trimmed; assumption.
  - apply no_space_no_NL; assumption.
  - apply collapse_no_space; assumption.
Qed.

Lemma amount_fixed : forall negative n,
  _clean_cell (Some (wrap_amount negative (render_cents n)))
  = Ok (Some (wrap_amount negative (render_cents n))).
Proof.
  intros neg n. set (r := wrap_amount neg (render_cents n)).
  assert (Hw : forallb wrapped_char r = true)
    by (apply wrap_amount_chars, render_cents_chars).
  assert (Hpt : In "." r).
  { unfold r, wrap_amount. pose proof (render_cents_point n).
    destruct neg; apply in_or_app; right; [apply in_or_app; left|]; auto. }
  apply no_space_fixed.
  - unfold r, wrap_amount. destruct neg; discriminate.
  - apply wrapped_no_space; assumption.
  - destruct (match_paren_dollar r) as [ds|] eqn:E; [|reflexivity].
    apply match_paren_dollar_spec, paren_dollar_chars in E.
    exfalso. revert Hpt. apply (forallb_In_false paren_dollar_char); auto.
  - destruct (match_dollar r) as [[m ds]|] eqn:E; [|reflexivity].
    apply match_dollar_spec, dollar_chars in E.
    exfalso. revert Hpt. apply (forallb_In_false dollar_char); auto.
  - intros E. apply match_zero_dollar_spec in E.
    apply zero_dollar_plain in E; [|apply wrapped_no_space; assumption].
    destruct E as [E | [E | [E | E]]]; auto; exfalso.
    + rewrite E in Hpt. cbn in Hpt.
      repeat (destruct Hpt as [Hpt | Hpt]; [discriminate|]). exact Hpt.
    + rewrite E in Hw. vm_compute in Hw. discriminate.
    + rewrite E in Hw. vm_compute in Hw. discriminate.
Qed.

Lemma normal_cell_fixed : forall r,
  normal_cell r -> _clean_cell (Some r) = Ok (Some r).
Proof.
  intros r H. destruct H as [neg n | | ds Hds Hne | ds d Hds Hne Hd
                             | s Hne Ht H1 H2 H3 H4].
  - apply amount_fixed.
  - vm_compute. reflexivity.
  - destruct ds as [|a ds]; [congruence|].
    assert (Ha : is_digit a = true).
    { cbn [forallb] in Hds. apply andb_true_iff in Hds. tauto. }
    destruct (digit_first_no_dollar a (ds ++ py "%") Ha) as (P1 & P2 & P3).
    apply no_space_fixed.
    + discriminate.
    + rewrite no_space_app, digits_no_space by assumption. reflexivity.
    + exact P1.
    + exact P2.
    + intros E. exfalso. revert E. cbn [app]. cbn [app] in P3.
      rewrite P3. discriminate.
  - destruct ds as [|a ds]; [congruence|].
    assert (Ha : is_digit a = true).
    { cbn [forallb] in Hds. apply andb_true_iff in Hds. tauto. }
    destruct (digit_first_no_dollar a (ds ++ py "." ++ [d] ++ py "%") Ha)
      as (P1 & P2 & P3).
    apply no_space_fixed.
    + discriminate.
    + rewrite !no_space_app, digits_no_space by assumption.
      cbn. rewrite (digit_not_space d Hd). reflexivity.
    + exact P1.
    + exact P2.
    + intros E. exfalso. revert E. cbn [app]. cbn [app] in P3.
      rewrite P3. discriminate.
  - apply clean_cell_fixed.
    + intros E. apply collapse_nil in E. contradiction.
    + apply collapse_trimmed; assumption.
    + apply collapse_no_NL.
    + apply collapse_idempotent.
    + apply match_paren_dollar_collapse; assumption.
    + apply match_dollar_collapse; assumption.
    + intros E. rewrite match_zero_dollar_collapse in E by assumption.
      discriminate.
Qed.


(* ================================================================== *)
(** ** Currency and percentage cells *)

(** A string between two characters that are neither blanks nor trailing
    noise survives the first step of the normalizer unchanged. *)
Lemma stripped_solid : forall a t c,
  is_space a = false -> is_csd c = false -> is_space c = false ->
  strip (sub_trailing (a :: t ++ [c])) = a :: t ++ [c].
Proof.
  intros a t c Ha Hc1 Hc2.
  change (a :: t ++ [c]) with ((a :: t) ++ [c]).
  rewrite sub_trailing_solid_end by assumption.
  apply strip_id. split; [exact Ha | apply trimmed_last; exact Hc2].
Qed.

Lemma digit_solid : forall c, is_digit c = true -> is_csd c = false /\ is_space c = false.
Proof. intros c; char_cases c. Qed.

Lemma digits_snoc : forall digits,
  forallb is_digit digits = true -> digits <> [] ->
  exists pre d, digits = pre ++ [d] /\ is_digit d = true.
Proof.
  intros ds Hds Hne. destruct (exists_last Hne) as (pre & d & E).
  exists pre, d. split; auto. rewrite E in Hds.
  apply forallb_app_r in Hds. cbn [forallb] in Hds.
  rewrite andb_true_r in Hds. exact Hds.
Qed.

Lemma clean_paren_dollar : forall sp1 sp2 digits,
  forallb is_space sp1 = true -> forallb is_space sp2 = true ->
  forallb is_digit digits = true -> digits <> [] ->
  _clean_cell (Some (py "($" ++ sp1 ++ digits ++ sp2 ++ py ")"))
  = Ok (Some (py "($" ++ render_cents (digits_value digits) ++ py ")")).
Proof.
  intros sp1 sp2 ds H1 H2 Hds Hne.
  set (val := py "($" ++ sp1 ++ ds ++ sp2 ++ py ")").
  assert (Hs : strip (sub_trailing val) = val).
  { unfold val.
    replace (py "($" ++ sp1 ++ ds ++ sp2 ++ py ")")
      with ("(" :: ("$" :: sp1 ++ ds ++ sp2) ++ [")"])
      by (cbn [py list_ascii_of_string app]; rewrite <- !app_assoc;
          reflexivity).
    apply stripped_solid; reflexivity. }
  assert (Hm : match_paren_dollar val = Some ds).
  { apply match_paren_dollar_spec. exists sp1, sp2, [].
    repeat split; auto. }
  unfold _clean_cell. fold val. rewrite Hs, Hm.
  rewrite fix_dollar_cents by assumption. reflexivity.
Qed.

Lemma clean_dollar : forall sp (minus : bool) digits,
  forallb is_space sp = true ->
  forallb is_digit digits = true -> digits <> [] ->
  _clean_cell (Some (py "$" ++ sp ++ (if minus then py "-" else []) ++ digits))
  = Ok (Some (wrap_amount minus (render_cents (digits_value digits)))).
Proof.
  intros sp m ds H1 Hds Hne.
  set (val := py "$" ++ sp ++ (if m then py "-" else []) ++ ds).
  destruct (digits_snoc ds Hds Hne) as (pre & d & E & Hd).
  destruct (digit_solid d Hd) as [Hd1 Hd2].
  assert (Hs : strip (sub_trailing val) = val).
  { unfold val. rewrite E.
    replace (py "$" ++ sp ++ (if m then py "-" else []) ++ pre ++ [d])
      with ("$" :: (sp ++ (if m then py "-" else []) ++ pre) ++ [d])
      by (cbn [py list_ascii_of_string app]; rewrite <- !app_assoc;
          reflexivity).
    apply stripped_solid; auto. }
  assert (Hp : match_paren_dollar val = None).
  { unfold match_paren_dollar, val.
    change (py "$" ++ sp ++ (if m then py "-" else []) ++ ds)
      with ("$" :: sp ++ (if m then py "-" else []) ++ ds).
    rewrite expect_other; [reflexivity | discriminate]. }
  assert (Hm : match_dollar val = Some (m, ds)).
  { apply match_dollar_spec. exists sp, [].
    rewrite app_nil_r. repeat split; auto. }
  unfold _clean_cell. fold val. rewrite Hs, Hp, Hm.
  rewrite fix_dollar_cents by assumption. reflexivity.
Qed.

(** A zero-dollar form as the specification writes it: "$0.00" with an
    optional minus sign and blanks (newlines among them) between its
    parts. *)
Definition zero_dollar_literal (sp1 : str) (minus : bool) (sp2 sp3 sp4 : str)
  : str :=
  py "$" ++ sp1 ++ (if minus then py "-" else []) ++ sp2
  ++ py "0" ++ sp3 ++ py "." ++ sp4 ++ py "00".

Lemma clean_zero_dollar : forall sp1 minus sp2 sp3 sp4,
  forallb is_space sp1 = true -> forallb is_space sp2 = true ->
  forallb is_space sp3 = true -> forallb is_space sp4 = true ->
  _clean_cell (Some (zero_dollar_literal sp1 minus sp2 sp3 sp4))
  = Ok (Some (py "$0.00")).
Proof.
  intros sp1 m sp2 sp3 sp4 H1 H2 H3 H4.
  set (val := zero_dollar_literal sp1 m sp2 sp3 sp4).
  assert (Hval : val = "$" :: sp1 ++ (if m then ["-"] else []) ++ sp2
                       ++ "0" :: sp3 ++ ["."] ++ sp4 ++ "0" :: "0" :: []).
  { unfold val, zero_dollar_literal. destruct m; reflexivity. }
  assert (Hs : strip (sub_trailing val) = val).
  { rewrite Hval.
    replace ("$" :: sp1 ++ (if m then ["-"] else []) ++ sp2
              ++ "0" :: sp3 ++ ["."] ++ sp4 ++ "0" :: "0" :: [])
      with ("$" :: (sp1 ++ (if m then ["-"] else []) ++ sp2
                    ++ "0" :: sp3 ++ ["."] ++ sp4 ++ ["0"]) ++ ["0"]).
    - apply stripped_solid; reflexivity.
    - f_equal. rewrite <- !app_assoc. cbn [app].
      repeat (f_equal; try (rewrite <- !app_assoc; cbn [app])). }
  assert (Hp : match_paren_dollar val = None).
  { rewrite Hval. unfold match_paren_dollar.
    rewrite expect_other; [reflexivity | discriminate]. }
  assert (Hz : match_zero_dollar val = true).
  { apply match_zero_dollar_spec.
    exists sp1, (if m then ["-"] else []), sp2, sp3, ["."], sp4, [].
    rewrite Hval. repeat split; auto. destruct m; auto. }
  assert (Hd : match_dollar val = None).
  { destruct (match_dollar val) as [[m' ds]|] eqn:E; [|reflexivity].
    apply match_dollar_spec, dollar_chars in E. exfalso.
    apply (forallb_In_false dollar_char "." val E eq_refl).
    rewrite Hval. right. apply in_or_app; right. apply in_or_app; right.
    apply in_or_app; right. right. apply in_or_app; right. left.
    reflexivity. }
  unfold _clean_cell. fold val. rewrite Hs, Hp, Hd, Hz. reflexivity.
Qed.

(** The rendered amount in terms of the digits: with fewer than three
    digits the dollars are 0 and the cents are the run padded to two digits;
    otherwise the cents are the last two digits and the dollars are the
    number the other digits denote. *)
Lemma render_cents_digits : forall digits,
  forallb is_digit digits = true -> digits <> [] ->
  render_cents (digits_value digits)
  = if length digits <? 3 then py "0." ++ zfill 2 digits
    else format_commas (digits_value (firstn (length digits - 2) digits))
         ++ py "." ++ skipn (length digits - 2) digits.
Proof.
  intros ds Hds Hne.
  pose proof (fix_dollar_cents ds false Hds Hne) as E.
  unfold _fix_dollar, wrap_amount in E.
  destruct (length ds <=? 2) eqn:Hlen.
  - apply Nat.leb_le in Hlen.
    replace (length ds <? 3) with true by (symmetry; apply Nat.ltb_lt; lia).
    cbn [bind] in E. injection E as E. symmetry. exact E.
  - apply Nat.leb_gt in Hlen.
    replace (length ds <? 3) with false by (symmetry; apply Nat.ltb_ge; lia).
    change (-2)%Z with (- Z.of_nat 2)%Z in E.
    rewrite slice_to_neg, slice_from_neg in E by lia.
    rewrite py_int_digits in E.
    + cbn [bind] in E. injection E as E. symmetry. exact E.
    + apply (forallb_app_l _ _ _ (skipn (length ds - 2) ds)).
      rewrite firstn_skipn. exact Hds.
    + intros Hp. apply (f_equal (@length _)) in Hp.
      rewrite length_firstn in Hp. simpl in Hp. lia.
Qed.



(** C4, the claim as stated: [_clean_cell("8\n5%")] would be "8.5%".  The
    newline sits between the digits, so the stripped string is not a digit
    run followed by "%"; the blanks are collapsed and the result is
    "8 5%". *)
Lemma clean_cell_split_percent_counterexample :
  _clean_cell (scell "8
5%") = Ok (scell "8 5%")
  /\ _clean_cell (scell "8
5%") <> Ok (scell "8.5%").
Proof. split; [vm_compute; reflexivity | vm_compute; discriminate]. Qed.

Lemma clean_percent : forall val digits,
  strip (sub_trailing val) = digits ++ py "%" ->
  forallb is_digit digits = true -> digits <> [] ->
  _clean_cell (Some val)
  = Ok (Some (if has_char NL val && (2 <=? length digits)
              then removelast digits ++ py "." ++ [last digits "0"] ++ py "%"
              else digits ++ py "%")).
Proof.
  intros val ds Hs Hds Hne. unfold _clean_cell. rewrite Hs.
  assert (Hm : match_percent (ds ++ py "%") = Some ds).
  { apply match_percent_spec. exists []. repeat split; auto. }
  destruct ds as [|a ds']; [congruence|].
  assert (Ha : is_digit a = true).
  { cbn [forallb] in Hds. apply andb_true_iff in Hds. tauto. }
  destruct (digit_first_no_dollar a (ds' ++ py "%") Ha) as (P1 & P2 & P3).
  change ((a :: ds') ++ py "%") with (a :: ds' ++ py "%") in *.
  rewrite P1, P2, P3, Hm.
  destruct (has_char NL val && (2 <=? length (a :: ds'))); [|reflexivity].
  destruct (split_last_item _ (a :: ds') Hne) as (pre & d & E & Hl & Hsl).
  rewrite Hl, Hsl. cbn [bind]. rewrite E, removelast_last, last_last.
  reflexivity.
Qed.

(** C4, amended: for every cell whose stripped form is a digit run followed
    by "%", if the original string contained a newline and the run has at
    least 2 digits, the result is all but the last digit, ".", the last digit
    and "%", and otherwise it is the digits and "%"; so "85%" stays "85%" and
    "85%" followed by a newline becomes "8.5%", while "8\n5%", whose newline
    is between the digits, is not such a cell and becomes "8 5%". *)
Theorem clean_cell_percent :
  (forall val digits,
     strip (sub_trailing val) = digits ++ py "%" ->
     forallb is_digit digits = true -> digits <> [] ->
     _clean_cell (Some val)
     = Ok (Some (if has_char NL val && (2 <=? length digits)
                 then removelast digits ++ py "." ++ [last digits "0"]
                      ++ py "%"
                 else digits ++ py "%")))
  /\ _clean_cell (scell "85%") = Ok (scell "85%")
  /\ _clean_cell (scell "85%
") = Ok (scell "8.5%")
  /\ _clean_cell (scell "8
5%") = Ok (scell "8 5%").
Proof.
  split; [exact clean_percent|].
  repeat split; vm_compute; reflexivity.
Qed.

Lemma clean_cell_percent_witness :
  _clean_cell (scell "
123%
, .") = Ok (scell "12.3%").
Proof.
  exact (proj1 clean_cell_percent (py "
123%
, .") (py "123") eq_refl eq_refl ltac:(discriminate)).
Defined.

(* ================================================================== *)
(** ** Key-value tables *)

(** A cell the normalizer has produced. *)
Definition cleaned (c : cell) : Prop := exists v, _clean_cell v = Ok c.

Lemma normal_cell_trimmed : forall r, normal_cell r -> trimmed r.
Proof.
  intros r H. destruct H as [neg n | | ds Hds Hne | ds d Hds Hne Hd
                             | s Hne Ht H1 H2 H3 H4].
  - apply no_space_trimmed, wrapped_no_space, wrap_amount_chars,
      render_cents_chars.
  - apply no_space_trimmed. reflexivity.
  - apply no_space_trimmed.
    rewrite no_space_app, digits_no_space by assumption. reflexivity.
  - apply no_space_trimmed.
    rewrite !no_space_app, digits_no_space by assumption.
    cbn. rewrite (digit_not_space d Hd). reflexivity.
  - apply collapse_trimmed; assumption.
Qed.

Lemma cleaned_normal : forall s, cleaned (Some s) -> normal_cell s.
Proof.
  intros s [[val|] Hv]; [|discriminate].
  destruct (clean_cell_cases val) as (c & Hc & [-> | (r & -> & Hr)]);
    rewrite Hc in Hv; [discriminate|].
  injection Hv as <-. exact Hr.
Qed.

Lemma rstrip_trimmed : forall s, trimmed s -> rstrip s = s.
Proof.
  intros s [_ H]. unfold rstrip. rewrite lstrip_skip, skip_id by assumption.
  apply rev_involutive.
Qed.

(** A non-empty cell ending with ":". *)
Definition colon_ended (c : cell) : bool :=
  match c with
  | Some ((_ :: _) as s) => endswith s (py ":")
  | _ => false
  end.

Lemma colon_cell_cleaned : forall c, cleaned c -> colon_cell c = colon_ended c.
Proof.
  intros [[|a s]|] Hc; try reflexivity. unfold colon_cell, colon_ended.
  rewrite rstrip_trimmed; [reflexivity|].
  apply normal_cell_trimmed, cleaned_normal, Hc.
Qed.

(** The column [k] of a table. *)
Definition column (cells : list row) (k : nat) : list cell :=
  map (fun r => nth k r (None : cell)) cells.

(** The number of columns: the length of the first row. *)
Definition ncols_of (cells : list row) : nat := length (hd [] cells).

(** Every row has as many cells as the first one. *)
Definition rectangular (cells : list row) : Prop :=
  Forall (fun r => length r = ncols_of cells) cells.

(** The test of the specification: at least 2 rows and 2 columns, and in
    every even-indexed column at least half the rows hold a non-empty cell
    ending with ":". *)
Definition key_value_table (cells : list row) : Prop :=
  2 <= length cells
  /\ 2 <= ncols_of cells
  /\ forall k, k < ncols_of cells -> Nat.even k = true ->
               length cells <= 2 * length (filter colon_ended (column cells k)).

Lemma getitem_nth : forall (A : Type) (l : list A) i d,
  i < length l -> getitem l i = Ok (nth i l d).
Proof.
  intros A l i d Hi. unfold getitem.
  rewrite (nth_error_nth' l d Hi). reflexivity.
Qed.

Lemma colon_count_column : forall cells k,
  Forall (fun r => k < length r) cells ->
  colon_count cells k = Ok (length (filter colon_cell (column cells k))).
Proof.
  intros cells0. induction cells0 as [|r cells0 IH]; intros k H; [reflexivity|].
  inversion H as [|? ? Hr Hrest]; subst.
  cbn [colon_count]. unfold column. cbn [map filter].
  rewrite (getitem_nth _ r k (None : cell) Hr). cbn [bind].
  rewrite (IH k Hrest). cbn [bind]. fold (column cells0 k).
  destruct (colon_cell (nth k r None)); reflexivity.
Qed.

Lemma kv_columns_forallb : forall cells cols,
  Forall (fun k => Forall (fun r => k < length r) cells) cols ->
  kv_columns cells cols
  = Ok (forallb (fun k => length cells
                          <=? 2 * length (filter colon_cell (column cells k)))
          cols).
Proof.
  intros cells. induction cols as [|k cols IH]; intros H; [reflexivity|].
  inversion H as [|? ? Hk Hrest]; subst.
  cbn [kv_columns forallb]. rewrite (colon_count_column cells k Hk).
  cbn [bind]. rewrite (IH Hrest).
  match goal with |- context [if ?b then _ else _] => destruct b eqn:E end;
    unfold row in *.
  - apply Nat.ltb_lt in E.
    replace (length cells <=? _) with false
      by (symmetry; apply Nat.leb_gt; lia).
    reflexivity.
  - apply Nat.ltb_ge in E.
    replace (length cells <=? _) with true
      by (symmetry; apply Nat.leb_le; lia).
    reflexivity.
Qed.

Lemma range2_S : forall n,
  range2 (S n) = range2 n ++ (if Nat.even n then [n] else []).
Proof.
  intros n. unfold range2.
  pose proof (Nat.div2_odd n) as Hn.
  pose proof (Nat.div2_odd (S n)) as HSn.
  assert (H2 : Nat.div2 (S (S n)) = S (Nat.div2 n)) by reflexivity.
  rewrite Nat.odd_succ in HSn. rewrite <- Nat.negb_even in Hn.
  replace (S n + 1) with (S (S n)) by lia.
  replace (n + 1) with (S n) by lia. rewrite H2.
  destruct (Nat.even n) eqn:E; cbn [negb Nat.b2n] in *.
  - replace (Nat.div2 (S n)) with (Nat.div2 n) by lia.
    rewrite seq_S, map_app. cbn [map]. do 3 f_equal. lia.
  - rewrite app_nil_r. do 2 f_equal. lia.
Qed.

(** [range(0, n, 2)] lists the even numbers below [n]. *)
Lemma range2_even : forall n, range2 n = filter Nat.even (seq 0 n).
Proof.
  induction n as [|n IH]; [reflexivity|].
  rewrite range2_S, seq_S, filter_app, IH. cbn [filter plus].
  destruct (Nat.even n); reflexivity.
Qed.

Lemma in_range2 : forall n k, In k (range2 n) <-> k < n /\ Nat.even k = true.
Proof.
  intros n k. rewrite range2_even, filter_In, in_seq. intuition lia.
Qed.

(** The key a key cell is stored under: the cell without its trailing
    colons, trimmed. *)
Definition kv_key (s : str) : str := strip (rstrip_char ":" s).

(** The (key cell, value cell) pairs of a table in the order extraction
    visits them: row by row, and in each row the even column indices up to
    the second-to-last column. *)
Definition kv_visits (cells : list row) : list (cell * cell) :=
  flat_map
    (fun r =>
       map (fun k => (nth k r (None : cell), nth (k + 1) r (None : cell)))
         (filter Nat.even (seq 0 (ncols_of cells - 1))))
    cells.

(** One write of the extraction loop. *)
Definition kv_write (kv : dict) (visit : cell * cell) : dict :=
  match fst visit with
  | Some ((_ :: _) as s) => dict_set kv (kv_key s) (snd visit)
  | _ => kv
  end.

(** The value the last visit with key [k] wrote, if there was one. *)
Definition last_write (k : str) (visits : list (cell * cell)) : option cell :=
  fold_left
    (fun acc visit =>
       match fst visit with
       | Some ((_ :: _) as s) =>
           if str_eqb (kv_key s) k then Some (snd visit) else acc
       | _ => acc
       end)
    visits None.

Lemma dict_get_set : forall d k' v k,
  dict_get (dict_set d k' v) k
  = if str_eqb k' k then Some v else dict_get d k.
Proof.
  induction d as [|[k0 v0] d IH]; intros k' v k; cbn [dict_set dict_get].
  - reflexivity.
  - destruct (str_eqb k0 k') eqn:E0; cbn [dict_get].
    + apply str_eqb_eq in E0. subst k0.
      destruct (str_eqb k' k); reflexivity.
    + rewrite IH. destruct (str_eqb k0 k) eqn:E1; [|reflexivity].
      apply str_eqb_eq in E1. subst k0.
      destruct (str_eqb k' k) eqn:E2; [|reflexivity].
      apply str_eqb_eq in E2. subst k'. rewrite str_eqb_refl in E0.
      discriminate.
Qed.

Lemma kv_row_fold : forall r cols kv,
  Forall (fun k => k + 1 < length r) cols ->
  kv_row r cols kv
  = Ok (fold_left kv_write
          (map (fun k => (nth k r (None : cell), nth (k + 1) r (None : cell)))
             cols) kv).
Proof.
  intros r. induction cols as [|k cols IH]; intros kv H; [reflexivity|].
  inversion H as [|? ? Hk Hrest]; subst.
  cbn [kv_row map fold_left].
  rewrite (getitem_nth _ r k (None : cell)) by lia.
  rewrite (getitem_nth _ r (k + 1) (None : cell)) by lia.
  cbn [bind]. rewrite (IH _ Hrest). reflexivity.
Qed.

Lemma kv_rows_fold : forall rows cols kv,
  Forall (fun r => Forall (fun k => k + 1 < length r) cols) rows ->
  kv_rows rows cols kv
  = Ok (fold_left kv_write
          (flat_map
             (fun r => map (fun k => (nth k r (None : cell),
                                      nth (k + 1) r (None : cell))) cols)
             rows) kv).
Proof.
  induction rows as [|r rows IH]; intros cols kv H; [reflexivity|].
  inversion H as [|? ? Hr Hrest]; subst.
  cbn [kv_rows flat_map]. rewrite (kv_row_fold r cols kv Hr). cbn [bind].
  rewrite (IH cols _ Hrest), fold_left_app. reflexivity.
Qed.

Lemma fold_write_get : forall k visits kv,
  dict_get (fold_left kv_write visits kv) k
  = fold_left
      (fun acc visit =>
         match fst visit with
         | Some ((_ :: _) as s) =>
             if str_eqb (kv_key s) k then Some (snd visit) else acc
         | _ => acc
         end)
      visits (dict_get kv k).
Proof.
  intros k. induction visits as [|[key val] visits IH]; intros kv;
    [reflexivity|].
  cbn [fold_left]. rewrite IH. f_equal.
  unfold kv_write. cbn [fst snd].
  destruct key as [[|a s]|]; try reflexivity. apply dict_get_set.
Qed.

Lemma extract_key_values_spec : forall cells0,
  cells0 <> [] -> rectangular cells0 ->
  exists kv, _extract_key_values cells0 = Ok kv
             /\ forall k, dict_get kv k = last_write k (kv_visits cells0).
Proof.
  intros cells0 Hne Hrect. unfold _extract_key_values.
  destruct cells0 as [|r0 rest]; [congruence|].
  change (getitem (r0 :: rest) 0) with (Ok r0).
  cbn [bind]. rewrite range2_even, kv_rows_fold.
  - eexists. split; [reflexivity|]. intros k.
    rewrite fold_write_get. reflexivity.
  - unfold rectangular, ncols_of in Hrect. cbn [hd] in Hrect.
    eapply Forall_impl; [|exact Hrect].
    intros r Hr. simpl in Hr. rewrite Forall_forall. intros k Hk.
    apply filter_In in Hk. destruct Hk as [Hk _]. apply in_seq in Hk. lia.
Qed.

(** *** Whenever the functions return *)

Lemma getitem_ok : forall (A : Type) (l : list A) i x d,
  getitem l i = Ok x -> nth i l d = x.
Proof.
  intros A l i x d. unfold getitem.
  destruct (nth_error l i) as [y|] eqn:E; [|discriminate].
  intros H. injection H as <-. apply nth_error_nth. exact E.
Qed.

Lemma colon_count_ok : forall rows k n,
  colon_count rows k = Ok n ->
  n = length (filter colon_cell (column rows k)).
Proof.
  induction rows as [|r rows IH]; intros k n; cbn [colon_count].
  - intros E. injection E as <-. reflexivity.
  - destruct (getitem r k) as [c|x] eqn:Hc; [|discriminate]. cbn [bind].
    destruct (colon_count rows k) as [m|x] eqn:Hm; [|discriminate].
    cbn [bind]. intros E. injection E as <-.
    apply (getitem_ok _ r k c (None : cell)) in Hc.
    unfold column. cbn [map filter]. rewrite Hc. fold (column rows k).
    rewrite (IH k m Hm). destruct (colon_cell c); reflexivity.
Qed.

Lemma kv_columns_ok : forall rows cols b,
  kv_columns rows cols = Ok b ->
  (b = true <->
   forall k, In k cols ->
             length rows <= 2 * length (filter colon_cell (column rows k))).
Proof.
  intros rows. induction cols as [|k cols IH]; intros b; cbn [kv_columns].
  - intros E. injection E as <-. split; [intros _ k [] | reflexivity].
  - destruct (colon_count rows k) as [n|x] eqn:Hn; [|discriminate].
    cbn [bind]. apply colon_count_ok in Hn. unfold row in *.
    destruct (2 * n <? length rows) eqn:Hlt.
    + intros E. injection E as <-. apply Nat.ltb_lt in Hlt.
      split; [discriminate|]. intros H.
      specialize (H k (or_introl eq_refl)). lia.
    + intros E. apply Nat.ltb_ge in Hlt. rewrite (IH b E). split.
      * intros H k' [<- | Hin]; [lia | auto].
      * intros H k' Hin. apply H. right. exact Hin.
Qed.

Lemma filter_colon_cleaned : forall rows k,
  Forall (Forall cleaned) rows ->
  filter colon_cell (column rows k) = filter colon_ended (column rows k).
Proof.
  intros rows k Hclean. apply filter_ext_in. intros c Hin.
  apply colon_cell_cleaned.
  unfold column in Hin. apply in_map_iff in Hin.
  destruct Hin as (r & <- & Hr).
  rewrite Forall_forall in Hclean. specialize (Hclean r Hr).
  destruct (Nat.lt_ge_cases k (length r)) as [Hlt | Hge].
  - rewrite Forall_forall in Hclean. apply Hclean, nth_In, Hlt.
  - rewrite nth_overflow by assumption. exists None. reflexivity.
Qed.

Lemma is_key_value_table_ok : forall rows b,
  Forall (Forall cleaned) rows ->
  _is_key_value_table rows = Ok b ->
  (b = true <-> key_value_table rows).
Proof.
  intros rows b Hclean. unfold _is_key_value_table, key_value_table.
  destruct rows as [|r0 rest] eqn:Hc.
  { intros E. injection E as <-. simpl. split; [discriminate | lia]. }
  rewrite <- Hc in *.
  assert (Hn : ncols_of rows = length r0) by (rewrite Hc; reflexivity).
  rewrite Hn.
  match goal with
  | |- (if ?c then _ else _) = _ -> _ => destruct c eqn:Hsmall
  end.
  { intros E. injection E as <-. split; [discriminate|].
    intros (H1 & H2 & _). apply orb_true_iff in Hsmall.
    destruct Hsmall as [H | H]; apply Nat.ltb_lt in H; lia. }
  apply orb_false_iff in Hsmall. destruct Hsmall as [H1 H2].
  apply Nat.ltb_ge in H1, H2.
  intros E. rewrite (kv_columns_ok _ _ _ E). split.
  - intros H. split; [assumption|]. split; [assumption|].
    intros k Hk Hev. rewrite <- filter_colon_cleaned by assumption.
    apply H, in_range2. auto.
  - intros (_ & _ & H) k Hin. apply in_range2 in Hin.
    rewrite filter_colon_cleaned by assumption. apply H; tauto.
Qed.

Lemma is_key_value_table_returns : forall rows,
  rectangular rows -> exists b, _is_key_value_table rows = Ok b.
Proof.
  intros rows Hrect. unfold _is_key_value_table.
  destruct rows as [|r0 rest] eqn:Hc; [eauto|]. rewrite <- Hc in *.
  match goal with
  | |- exists _, (if ?c then _ else _) = _ => destruct c
  end; [eauto|].
  rewrite kv_columns_forallb; [eauto|].
  rewrite Forall_forall. intros k Hin. apply in_range2 in Hin.
  unfold rectangular in Hrect.
  replace (ncols_of rows) with (length r0) in Hrect
    by (rewrite Hc; reflexivity).
  eapply Forall_impl; [|exact Hrect]. intros r Hr. simpl in Hr. lia.
Qed.

Lemma kv_row_ok : forall r cols kv kv',
  kv_row r cols kv = Ok kv' ->
  kv' = fold_left kv_write
          (map (fun k => (nth k r (None : cell), nth (k + 1) r (None : cell)))
             cols) kv.
Proof.
  intros r. induction cols as [|k cols IH]; intros kv kv'; cbn [kv_row].
  - intros E. injection E as <-. reflexivity.
  - destruct (getitem r k) as [key|x] eqn:Hk; [|discriminate]. cbn [bind].
    destruct (getitem r (k + 1)) as [val|x] eqn:Hv; [|discriminate].
    cbn [bind]. intros E. apply IH in E. rewrite E.
    apply (getitem_ok _ r k key (None : cell)) in Hk.
    apply (getitem_ok _ r (k + 1) val (None : cell)) in Hv.
    cbn [map fold_left]. rewrite Hk, Hv. reflexivity.
Qed.

Lemma kv_rows_ok : forall rows cols kv kv',
  kv_rows rows cols kv = Ok kv' ->
  kv' = fold_left kv_write
          (flat_map
             (fun r => map (fun k => (nth k r (None : cell),
                                      nth (k + 1) r (None : cell))) cols)
             rows) kv.
Proof.
  induction rows as [|r rows IH]; intros cols kv kv'; cbn [kv_rows].
  - intros E. injection E as <-. reflexivity.
  - destruct (kv_row r cols kv) as [kv1|x] eqn:Hr; [|discriminate].
    cbn [bind]. intros E. apply IH in E. apply kv_row_ok in Hr.
    cbn [flat_map]. rewrite fold_left_app, <- Hr. exact E.
Qed.

Lemma extract_key_values_ok : forall rows kv,
  _extract_key_values rows = Ok kv ->
  forall k, dict_get kv k = last_write k (kv_visits rows).
Proof.
  intros rows kv. unfold _extract_key_values.
  destruct rows as [|r0 rest]; [discriminate|].
  change (getitem (r0 :: rest) 0) with (Ok r0). cbn [bind].
  rewrite range2_even. intros E k. apply kv_rows_ok in E. rewrite E.
  rewrite fold_write_get. reflexivity.
Qed.

Lemma extract_key_values_returns : forall rows,
  rows <> [] -> rectangular rows ->
  exists kv, _extract_key_values rows = Ok kv.
Proof.
  intros rows Hne Hrect.
  destruct (extract_key_values_spec rows Hne Hrect) as (kv & E & _). eauto.
Qed.

Definition name_date_rows : list row :=
  [ [scell "Name:"; scell "Acme"]; [scell "Date:"; scell "2024-01-01"] ].

(** C6: on the full row set of a table, with the cells as the normalizer
    leaves them, whenever [_is_key_value_table] returns it returns True
    exactly when there are at least 2 rows and 2 columns and in every
    even-indexed column at least half the rows hold a non-empty cell ending
    with ":", and it does return when every row is as long as the first;
    [_extract_key_values] visits every row and every even column index up to
    the second-to-last column and maps the key cell, without trailing ":" and
    blanks, to the next cell, the last write winning, and it returns on a
    non-empty table whose rows are as long as the first; on the Name/Date
    rows it yields Name -> Acme and Date -> 2024-01-01. *)
Theorem key_value_tables :
  (forall rows b,
     Forall (Forall cleaned) rows ->
     _is_key_value_table rows = Ok b ->
     (b = true <-> key_value_table rows))
  /\ (forall rows,
        rectangular rows -> exists b, _is_key_value_table rows = Ok b)
  /\ (forall rows kv,
        _extract_key_values rows = Ok kv ->
        forall k, dict_get kv k = last_write k (kv_visits rows))
  /\ (forall rows,
        rows <> [] -> rectangular rows ->
        exists kv, _extract_key_values rows = Ok kv)
  /\ _is_key_value_table name_date_rows = Ok true
  /\ _extract_key_values name_date_rows
     = Ok [ (py "Name", scell "Acme"); (py "Date", scell "2024-01-01") ].
Proof.
  split; [exact is_key_value_table_ok|].
  split; [exact is_key_value_table_returns|].
  split; [exact extract_key_values_ok|].
  split; [exact extract_key_values_returns|].
  split; vm_compute; reflexivity.
Qed.

Lemma name_date_rows_cleaned : Forall (Forall cleaned) name_date_rows.
Proof.
  repeat constructor;
    match goal with
    | |- cleaned ?c => exists c; vm_compute; reflexivity
    end.
Defined.

Lemma key_value_tables_witness :
  (true = true <-> key_value_table name_date_rows)
  /\ (exists b, _is_key_value_table name_date_rows = Ok b)
  /\ (forall k, dict_get [ (py "Name", scell "Acme");
                           (py "Date", scell "2024-01-01") ] k
                = last_write k (kv_visits name_date_rows))
  /\ (exists kv, _extract_key_values name_date_rows = Ok kv).
Proof.
  split; [|split; [|split]].
  - apply (proj1 key_value_tables name_date_rows true).
    + exact name_date_rows_cleaned.
    + vm_compute. reflexivity.
  - apply (proj1 (proj2 key_value_tables)). repeat constructor.
  - apply (proj1 (proj2 (proj2 key_value_tables)) name_date_rows).
    vm_compute. reflexivity.
  - apply (proj1 (proj2 (proj2 (proj2 key_value_tables)))).
    + discriminate.
    + repeat constructor.
Defined.

(* ================================================================== *)
(** ** The state machine as a run over events *)

(** What [_run] and [_process_page] do one after the other: open a page, or
    process one layout box. *)
Inductive event : Type :=
| PageStart (p : page_data)
| BoxEvent (box : layout_box).

Definition step (st : state) (e : event) : result state :=
  match e with
  | PageStart p => Ok (set_page st p)
  | BoxEvent box => process_box st box
  end.

Fixpoint run (st : state) (evs : list event) : result state :=
  match evs with
  | [] => Ok st
  | e :: evs' => st' <- step st e ;; run st' evs'
  end.

Definition events_of_page (p : page_data) : list event :=
  PageStart p :: map BoxEvent (layout_boxes p).

Definition events_of (ps : list page_data) : list event :=
  flat_map events_of_page ps.

Lemma run_app : forall evs1 evs2 st,
  run st (evs1 ++ evs2) = (st' <- run st evs1 ;; run st' evs2).
Proof.
  induction evs1 as [|e evs1 IH]; intros evs2 st; [reflexivity|].
  cbn [app run]. destruct (step st e) as [st'|x]; cbn [bind]; auto.
Qed.

Lemma process_boxes_run : forall boxes st,
  process_boxes st boxes = run st (map BoxEvent boxes).
Proof.
  induction boxes as [|b boxes IH]; intros st; [reflexivity|].
  cbn [process_boxes map run step].
  destruct (process_box st b); cbn [bind]; auto.
Qed.

Lemma process_pages_run : forall ps st,
  process_pages st ps = run st (events_of ps).
Proof.
  induction ps as [|p ps IH]; intros st; [reflexivity|].
  cbn [process_pages events_of flat_map]. unfold events_of_page.
  cbn [app run step bind]. rewrite run_app.
  unfold _process_page. rewrite process_boxes_run.
  destruct (run (set_page st p) (map BoxEvent (layout_boxes p)));
    cbn [bind]; [apply IH | reflexivity].
Qed.

(** [transform] in terms of the run. *)
Lemma transform_run : forall r out,
  transform r = Ok out ->
  exists st, run init (events_of (pages r)) = Ok st
             /\ out_blocks out
                = blocks (_flush_pending_table (_flush_text st)).
Proof.
  intros r out. unfold transform, _run. rewrite process_pages_run.
  destruct (run init (events_of (pages r))) as [st|x]; [|discriminate].
  cbn [bind]. intros E. injection E as <-. exists st. split; reflexivity.
Qed.

(** *** The cases of the table handlers *)

Lemma try_merge_cases : forall st H d a tab st' m,
  _try_merge_table st H d a tab = Ok (st', m) ->
  (m = false /\ st' = st)
  \/ (m = true /\ exists pt L,
        pending_table st = Some pt /\ last_item (pt_page pt) = Ok L
        /\ ((pt_raw_headers pt = H
             /\ st' = set_pending_table st (Some (merged_pending st pt d tab)))
            \/ (pt_raw_headers pt <> H
                /\ length (pt_raw_headers pt) = length H
                /\ (pg st <= L + 1)%Z
                /\ st' = set_pending_table st
                           (Some (merged_pending st pt a tab))))).
Proof.
  intros st H d a tab st' m. unfold _try_merge_table.
  destruct (pending_table st) as [pt|] eqn:Hp.
  2:{ intros E. injection E as <- <-. left. auto. }
  destruct (last_item (pt_page pt)) as [L|x] eqn:Hl; [|discriminate].
  cbn [bind].
  destruct (_headers_match (pt_raw_headers pt) H) eqn:Hm.
  - cbn [negb]. rewrite classify_rows_spec. intros E. injection E as <- <-.
    right. split; [reflexivity|]. exists pt, L. split; [reflexivity|].
    split; [assumption|]. left. apply headers_match_eq in Hm. auto.
  - destruct ((length (pt_raw_headers pt) =? length H)
              && (pg st <=? L + 1)%Z) eqn:Hc.
    + cbn [negb]. rewrite classify_rows_spec. intros E. injection E as <- <-.
      apply andb_true_iff in Hc. destruct Hc as [Hc1 Hc2].
      apply Nat.eqb_eq in Hc1. apply Z.leb_le in Hc2.
      right. split; [reflexivity|]. exists pt, L. split; [reflexivity|].
      split; [assumption|]. right. repeat split; auto.
      intros Heq. apply headers_match_eq in Heq. congruence.
    + cbn [negb]. intros E. injection E as <- <-. left. auto.
Qed.

(** The outcome of [_on_table] after the table data [headers], [all_rows],
    [tab] was resolved in state [st1]. *)
Inductive table_outcome (st1 : state) (headers : row) (all_rows : list row)
  (tab : table) (st' : state) : Prop :=
| Outcome_key_value : forall st2 title description key_value,
    _resolve_title_description st1 = (st2, (title, description)) ->
    _is_key_value_table all_rows = Ok true ->
    _extract_key_values all_rows = Ok key_value ->
    st' = append_block (_flush_pending_table st2)
            (_make_block title description table_block
               (DataKeyValue key_value) (Some (PageNum (pg st2)))) ->
    table_outcome st1 headers all_rows tab st'
| Outcome_exact_merge : forall st2 td pt,
    _resolve_title_description st1 = (st2, td) ->
    _is_key_value_table all_rows = Ok false ->
    pending_table st2 = Some pt ->
    pt_raw_headers pt = headers ->
    st' = set_pending_table st2
            (Some (merged_pending st2 pt
                     (non_header_rows headers all_rows) tab)) ->
    table_outcome st1 headers all_rows tab st'
| Outcome_column_merge : forall st2 td pt L,
    _resolve_title_description st1 = (st2, td) ->
    _is_key_value_table all_rows = Ok false ->
    pending_table st2 = Some pt ->
    last_item (pt_page pt) = Ok L ->
    pt_raw_headers pt <> headers ->
    length (pt_raw_headers pt) = length headers ->
    (pg st2 <= L + 1)%Z ->
    st' = set_pending_table st2 (Some (merged_pending st2 pt all_rows tab)) ->
    table_outcome st1 headers all_rows tab st'
| Outcome_fresh : forall st2 title description,
    _resolve_title_description st1 = (st2, (title, description)) ->
    _is_key_value_table all_rows = Ok false ->
    st' = set_pending_table (_flush_pending_table st2)
            (Some (fresh_pending (pg st2) title description headers all_rows
                     tab)) ->
    table_outcome st1 headers all_rows tab st'.

Lemma pg_flush_pending : forall st, pg (_flush_pending_table st) = pg st.
Proof.
  intros st. unfold _flush_pending_table.
  destruct (pending_table st); reflexivity.
Qed.

Lemma on_table_cases : forall st box st',
  _on_table st box = Ok st' ->
  exists st1 resolved,
    _resolve_table_data (set_last_img_tbl_headers st None) box
    = Ok (st1, resolved)
    /\ match resolved with
       | None => st' = st1
       | Some (headers, all_rows, tab) =>
           table_outcome st1 headers all_rows tab st'
       end.
Proof.
  intros st box st'. unfold _on_table.
  destruct (_resolve_table_data (set_last_img_tbl_headers st None) box)
    as [[st1 resolved]|x] eqn:Hres; [|discriminate].
  cbn [bind]. intros E. exists st1, resolved. split; [reflexivity|].
  destruct resolved as [[[headers all_rows] tab]|].
  2:{ injection E as <-. reflexivity. }
  destruct (_resolve_title_description st1) as [st2 [title description]]
    eqn:Htd.
  destruct (_is_key_value_table all_rows) as [[|]|x] eqn:Hkv; [| |discriminate].
  - cbn [bind] in E.
    destruct (_extract_key_values all_rows) as [kvd|x] eqn:Hex;
      [|discriminate].
    cbn [bind] in E. injection E as <-.
    eapply Outcome_key_value; eauto.
    rewrite pg_flush_pending. reflexivity.
  - cbn [bind] in E. fold (non_header_rows headers all_rows) in E.
    destruct (_try_merge_table st2 headers (non_header_rows headers all_rows)
                all_rows tab) as [[st3 m]|x] eqn:Hm; [|discriminate].
    cbn [bind] in E.
    apply try_merge_cases in Hm.
    destruct Hm as [[-> ->] | [-> (pt & L & Hp & Hl & Hcase)]].
    + rewrite classify_rows_spec in E. injection E as <-.
      eapply Outcome_fresh; eauto.
      rewrite pg_flush_pending. reflexivity.
    + injection E as <-.
      destruct Hcase as [[Heq ->] | (Hne & Hlen & Hpg & ->)].
      * eapply Outcome_exact_merge; eauto.
      * eapply Outcome_column_merge; eauto.
Qed.

(* ================================================================== *)
(** ** Image-table continuation headers *)

(** What a handler leaves alone. *)
Record same_context (st st' : state) : Prop := {
  same_last_img : last_img_tbl_headers st' = last_img_tbl_headers st;
  same_images : page_images st' = page_images st;
  same_pg : pg st' = pg st
}.

Lemma same_context_refl : forall st, same_context st st.
Proof. intros; split; reflexivity. Qed.

Lemma same_context_trans : forall a b c,
  same_context a b -> same_context b c -> same_context a c.
Proof. intros a b c [] []; split; congruence. Qed.

Lemma flush_text_context : forall st, same_context st (_flush_text st).
Proof.
  intros st. unfold _flush_text. destruct (text_buf st); split; reflexivity.
Qed.

Lemma flush_pending_context : forall st,
  same_context st (_flush_pending_table st).
Proof.
  intros st. unfold _flush_pending_table.
  destruct (pending_table st); split; reflexivity.
Qed.

Lemma on_heading_context : forall st t, same_context st (_on_heading st t).
Proof.
  intros st t. unfold _on_heading.
  eapply same_context_trans; [apply flush_text_context|].
  eapply same_context_trans; [apply flush_pending_context|].
  split; reflexivity.
Qed.

Lemma on_text_context : forall st t, same_context st (_on_text st t).
Proof. intros; split; reflexivity. Qed.

Lemma resolve_table_data_context : forall st box st1 resolved,
  _resolve_table_data st box = Ok (st1, resolved) ->
  same_context st st1 /\ blocks st1 = blocks st
  /\ pending_table st1 = pending_table st.
Proof.
  intros st box st1 resolved. unfold _resolve_table_data.
  destruct (nth_error (page_tables st) (table_idx st)) as [tab|].
  - destruct (mapM _clean_cell (header_names tab)); [|discriminate].
    destruct (mapM (mapM _clean_cell) (cells tab)); [|discriminate].
    cbn [bind]. intros E. injection E as <- <-.
    repeat split; reflexivity.
  - destruct (box_layout_table box) as [lt|].
    + destruct (mapM (mapM _clean_cell) (lt_cells lt)); [|discriminate].
      cbn [bind]. intros E. injection E as <- <-. repeat split; reflexivity.
    + intros E. injection E as <- <-. repeat split; reflexivity.
Qed.

Lemma resolve_title_context : forall st st2 td,
  _resolve_title_description st = (st2, td) ->
  same_context st st2 /\ blocks st2 = blocks st
  /\ pending_table st2 = pending_table st.
Proof.
  intros st st2 td. unfold _resolve_title_description.
  destruct (text_buf st); intros E; injection E as <- <-;
    repeat split; reflexivity.
Qed.

Lemma table_outcome_context : forall st1 headers all_rows tab st',
  table_outcome st1 headers all_rows tab st' -> same_context st1 st'.
Proof.
  intros st1 headers all_rows tab st' H.
  destruct H as [st2 ti de kvd Htd _ _ -> | st2 td pt Htd _ _ _ ->
                 | st2 td pt L Htd _ _ _ _ _ _ -> | st2 ti de Htd _ ->];
    apply resolve_title_context in Htd; destruct Htd as [Hc _];
    (eapply same_context_trans; [exact Hc|]).
  - eapply same_context_trans; [apply flush_pending_context|].
    split; reflexivity.
  - split; reflexivity.
  - split; reflexivity.
  - eapply same_context_trans; [apply flush_pending_context|].
    split; reflexivity.
Qed.

Lemma on_table_clears : forall st box st',
  _on_table st box = Ok st' ->
  last_img_tbl_headers st' = None /\ page_images st' = page_images st.
Proof.
  intros st box st' H. apply on_table_cases in H.
  destruct H as (st1 & resolved & Hres & Hout).
  apply resolve_table_data_context in Hres. destruct Hres as [[H1 H2 _] _].
  cbn in H1, H2.
  destruct resolved as [[[headers all_rows] tab]|].
  - apply table_outcome_context in Hout. destruct Hout as [H3 H4 _].
    split; congruence.
  - subst st'. split; congruence.
Qed.

Lemma on_table_no_data : forall st box,
  nth_error (page_tables st) (table_idx st) = None ->
  box_layout_table box = None ->
  _on_table st box = Ok (set_last_img_tbl_headers st None).
Proof.
  intros st box Hn Hl. unfold _on_table, _resolve_table_data.
  cbn [page_tables table_idx set_last_img_tbl_headers].
  rewrite Hn, Hl. reflexivity.
Qed.

(** The block a picture without table-like text emits. *)
Definition image_text_block (st : state) (box : layout_box) : block :=
  _make_block (heading st) (Some []) image_text
    (DataText (_match_ocr_text st box)) (Some (PageNum (pg st))).

Lemma heading_flushes : forall st,
  heading (_flush_pending_table (_flush_text st)) = heading st.
Proof.
  intros st. unfold _flush_pending_table, _flush_text.
  destruct (text_buf st); cbn;
    destruct (pending_table st); reflexivity.
Qed.

Lemma on_picture_image_text : forall st box,
  last_img_tbl_headers st = None ->
  _detect_image_table (_match_ocr_text st box) = None ->
  _on_picture st box
  = Ok (append_block (_flush_pending_table (_flush_text st))
          (image_text_block st box)).
Proof.
  intros st box Hlast Hdet. unfold _on_picture.
  set (st2 := _flush_pending_table (_flush_text st)).
  assert (Hc : same_context st st2).
  { eapply same_context_trans;
      [apply flush_text_context | apply flush_pending_context]. }
  destruct Hc as [H1 H2 H3].
  assert (Hocr : _match_ocr_text st2 box = _match_ocr_text st box).
  { unfold _match_ocr_text. rewrite H2. reflexivity. }
  rewrite Hocr, Hdet, H1, Hlast, H3.
  unfold image_text_block, st2. rewrite heading_flushes. reflexivity.
Qed.

(** No picture box among the events detects a table in its own OCR text;
    [imgs] are the images of the page the first event lies on. *)
Fixpoint quiet (imgs : list image) (evs : list event) : bool :=
  match evs with
  | [] => true
  | PageStart p :: evs' => quiet (images p) evs'
  | BoxEvent box :: evs' =>
      (negb (str_eqb (boxclass box) (py "picture"))
       || negb (is_some (_detect_image_table
                           (match_images (box_bbox box) imgs))))
      && quiet imgs evs'
  end.

Lemma process_box_picture : forall st box,
  boxclass box = py "picture" -> process_box st box = _on_picture st box.
Proof. intros st box H. unfold process_box. rewrite H. reflexivity. Qed.

Lemma process_box_table : forall st box,
  boxclass box = py "table" -> process_box st box = _on_table st box.
Proof. intros st box H. unfold process_box. rewrite H. reflexivity. Qed.

Lemma quiet_step : forall st e st',
  last_img_tbl_headers st = None ->
  quiet (page_images st) [e] = true ->
  step st e = Ok st' ->
  last_img_tbl_headers st' = None
  /\ page_images st' = match e with
                       | PageStart p => images p
                       | BoxEvent _ => page_images st
                       end.
Proof.
  intros st e st' Hlast Hq Hstep. destruct e as [p|box].
  - cbn in Hstep. injection Hstep as <-. split; [exact Hlast | reflexivity].
  - cbn [quiet] in Hq. rewrite andb_true_r in Hq.
    cbn [step] in Hstep. unfold process_box in Hstep.
    destruct (str_eqb (boxclass box) (py "section-header")
              || str_eqb (boxclass box) (py "header")).
    { injection Hstep as <-.
      destruct (on_heading_context st (strip (text box))) as [H1 H2 _].
      split; congruence. }
    destruct (str_eqb (boxclass box) (py "table")).
    { apply on_table_clears in Hstep. exact Hstep. }
    destruct (str_eqb (boxclass box) (py "picture")).
    { cbn [negb orb] in Hq. apply negb_true_iff in Hq.
      fold (_match_ocr_text st box) in Hq.
      destruct (_detect_image_table (_match_ocr_text st box)) eqn:Hdet;
        [discriminate|].
      rewrite on_picture_image_text in Hstep by assumption.
      injection Hstep as <-.
      destruct (flush_text_context st) as [A1 A2 _].
      destruct (flush_pending_context (_flush_text st)) as [B1 B2 _].
      split; cbn; congruence. }
    destruct ((str_eqb (boxclass box) (py "text")
               || str_eqb (boxclass box) (py "list-item"))
              && nonempty (strip (text box)));
      injection Hstep as <-; split; auto.
Qed.

Lemma quiet_run : forall evs st st',
  last_img_tbl_headers st = None ->
  quiet (page_images st) evs = true ->
  run st evs = Ok st' ->
  last_img_tbl_headers st' = None.
Proof.
  induction evs as [|e evs IH]; intros st st' Hlast Hq Hrun.
  - injection Hrun as <-. exact Hlast.
  - cbn [run] in Hrun. destruct (step st e) as [st1|x] eqn:Hstep;
      [|discriminate].
    cbn [bind] in Hrun.
    assert (Hq1 : quiet (page_images st) [e] = true
                  /\ quiet (match e with
                            | PageStart p => images p
                            | BoxEvent _ => page_images st
                            end) evs = true).
    { destruct e as [p|box]; cbn [quiet] in *; [auto|].
      apply andb_true_iff in Hq. destruct Hq as [Ha Hb].
      rewrite Ha, Hb. auto. }
    destruct Hq1 as [Hq1 Hq2].
    destruct (quiet_step st e st1 Hlast Hq1 Hstep) as [H1 H2].
    apply (IH st1 st'); auto. rewrite H2. exact Hq2.
Qed.


Definition continuation_state : state :=
  {| blocks := []; heading := Some (py "Stock"); text_buf := [];
     text_page := None; pending_table := None;
     last_img_tbl_headers := Some [py "Item"; py "Qty"];
     pg := 2%Z; page_tables := [];
     page_images := [ {| img_bbox := {| x0 := 10; y0 := 20; x1 := 110; y1 := 220 |};
                         ocr_text := py "Apple
3" |} ];
     table_idx := 0 |}.

Definition empty_table_box : layout_box :=
  {| boxclass := py "table";
     box_bbox := {| x0 := 0; y0 := 300; x1 := 100; y1 := 400 |};
     text := []; box_layout_table := None |}.

Definition note_box : layout_box :=
  {| boxclass := py "text";
     box_bbox := {| x0 := 0; y0 := 410; x1 := 100; y1 := 420 |};
     text := py "see the picture"; box_layout_table := None |}.

Definition apple_picture : layout_box :=
  {| boxclass := py "picture";
     box_bbox := {| x0 := 12; y0 := 18; x1 := 112; y1 := 218 |};
     text := []; box_layout_table := None |}.


(* ================================================================== *)
(** ** Rows of the emitted tables *)

(** The rows of a tabular block hold no row the classifier takes for a
    summary row. *)
Definition summary_free (b : block) : Prop :=
  match data b with
  | DataTable _ rows _ => Forall (fun r => _is_summary_row r = false) rows
  | _ => True
  end.

(** The rows of a tabular block hold no row equal to its headers. *)
Definition header_free (b : block) : Prop :=
  match data b with
  | DataTable headers rows _ => ~ In headers rows
  | _ => True
  end.

Lemma data_rows_of_no_summary : forall added,
  Forall (fun r => _is_summary_row r = false) (data_rows_of added).
Proof.
  intros added. rewrite Forall_forall. intros r Hr.
  apply filter_In in Hr. destruct Hr as [_ Hr].
  apply negb_true_iff in Hr. exact Hr.
Qed.

Lemma classify_groups_rows : forall ncols groups rows summary,
  classify_groups ncols groups rows summary
  = classify_rows (map (pad_group ncols) groups) rows summary.
Proof.
  intros ncols. induction groups as [|g groups IH]; intros rows summary;
    [reflexivity|].
  cbn [classify_groups map classify_rows].
  destruct (_is_summary_row (pad_group ncols g)); apply IH.
Qed.

(** The groups [_parse_image_table] forms from the lines [data_lines]. *)
Definition row_groups_of (data_lines : list str) : list (list str) :=
  let (row_groups, current) := group_loop data_lines [] [] in
  if nonempty current then row_groups ++ [current] else row_groups.

(** The lines [_parse_image_table] reads rows from. *)
Definition data_lines_of (ocr : str) (headers : list str) (skip_header : bool)
  : result (list str) :=
  let lines := ocr_lines ocr in
  if skip_header then Ok lines
  else last <- last_item headers ;;
       header_last <- index_of lines last ;;
       Ok (skipn (header_last + 1) lines).

Lemma parse_image_table_rows : forall ocr headers skip_header rows summary,
  _parse_image_table ocr headers skip_header = Ok (rows, summary) ->
  exists data_lines,
    data_lines_of ocr headers skip_header = Ok data_lines
    /\ rows = data_rows_of (map (pad_group (length headers))
                              (row_groups_of data_lines)).
Proof.
  intros ocr headers skip rows summary.
  unfold _parse_image_table, data_lines_of, row_groups_of.
  match goal with
  | |- bind ?m _ = _ -> _ => destruct m as [data_lines|x]; [|discriminate]
  end.
  cbn [bind].
  destruct (group_loop data_lines [] []) as [groups current] eqn:Hg.
  rewrite classify_groups_rows, classify_rows_spec.
  intros E. injection E as <- _. exists data_lines.
  rewrite Hg. split; reflexivity.
Qed.

(** Does the picture [box], met in state [st], continue the image table of
    an earlier picture: its own text is not detected as a table, and there
    are stored headers and some OCR text? *)
Definition continuation_picture (st : state) (box : layout_box) : bool :=
  let ocr := _match_ocr_text st box in
  match _detect_image_table ocr with
  | Some (_ :: _) => false
  | _ =>
      match last_img_tbl_headers st, ocr with
      | Some (_ :: _), _ :: _ => true
      | _, _ => false
      end
  end.

(** The block a picture box emits. *)
Inductive picture_block (st : state) (box : layout_box) (b : block) : Prop :=
| Picture_table : forall headers rows summary,
    _detect_image_table (_match_ocr_text st box) = Some headers ->
    _parse_image_table (_match_ocr_text st box) headers false
    = Ok (rows, summary) ->
    data b = DataTable (map Some headers) rows summary ->
    picture_block st box b
| Picture_continuation : forall headers rows summary,
    continuation_picture st box = true ->
    last_img_tbl_headers st = Some headers ->
    _parse_image_table (_match_ocr_text st box) headers true
    = Ok (rows, summary) ->
    data b = DataTable (map Some headers) rows summary ->
    picture_block st box b
| Picture_text :
    data b = DataText (_match_ocr_text st box) ->
    picture_block st box b.

Lemma on_picture_cases : forall st box st',
  _on_picture st box = Ok st' ->
  exists b,
    blocks st' = blocks (_flush_pending_table (_flush_text st)) ++ [b]
    /\ pending_table st' = pending_table (_flush_pending_table (_flush_text st))
    /\ picture_block st box b.
Proof.
  intros st box st'. unfold _on_picture.
  set (st2 := _flush_pending_table (_flush_text st)).
  assert (Hc : same_context st st2).
  { eapply same_context_trans;
      [apply flush_text_context | apply flush_pending_context]. }
  destruct Hc as [H1 H2 H3].
  assert (Hocr : _match_ocr_text st2 box = _match_ocr_text st box).
  { unfold _match_ocr_text. rewrite H2. reflexivity. }
  rewrite Hocr, H1.
  assert (Htext : forall b,
            data b = DataText (_match_ocr_text st box) ->
            exists b0, blocks (append_block st2 b) = blocks st2 ++ [b0]
                       /\ pending_table (append_block st2 b)
                          = pending_table st2
                       /\ picture_block st box b0).
  { intros b Hb. exists b. split; [reflexivity|]. split; [reflexivity|].
    apply Picture_text. exact Hb. }
  assert (Hcont : forall l ls,
            continuation_picture st box = true ->
            last_img_tbl_headers st = Some (l :: ls) ->
            ('(rows, summary) <-
               _parse_image_table (_match_ocr_text st box) (l :: ls) true ;;
             match rows with
             | [] =>
                 Ok (append_block st2
                       (_make_block (heading st2) (Some []) image_text
                          (DataText (_match_ocr_text st box))
                          (Some (PageNum (pg st2)))))
             | _ :: _ =>
                 Ok (append_block st2
                       (_make_block (heading st2) (Some []) image_table
                          (DataTable (map Some (l :: ls)) rows summary)
                          (Some (PageNum (pg st2)))))
             end) = Ok st' ->
            exists b, blocks st' = blocks st2 ++ [b]
                      /\ pending_table st' = pending_table st2
                      /\ picture_block st box b).
  { intros l ls Hflag Hlast.
    destruct (_parse_image_table (_match_ocr_text st box) (l :: ls) true)
      as [[rows summary]|x] eqn:Hp; [|discriminate].
    cbn [bind]. destruct rows as [|r rows]; intros E; injection E as <-.
    - apply Htext. reflexivity.
    - eexists. split; [reflexivity|]. split; [reflexivity|].
      eapply Picture_continuation;
        [exact Hflag | exact Hlast | exact Hp | reflexivity]. }
  destruct (_detect_image_table (_match_ocr_text st box))
    as [[|h hs]|] eqn:Hdet.
  - destruct (last_img_tbl_headers st) as [[|l ls]|] eqn:Hlast.
    + intros E. injection E as <-. apply Htext. reflexivity.
    + destruct (_match_ocr_text st box) as [|c o] eqn:Ho.
      * intros E. injection E as <-. apply Htext. reflexivity.
      * apply Hcont; [|reflexivity].
        unfold continuation_picture. rewrite Ho, Hdet, Hlast. reflexivity.
    + intros E. injection E as <-. apply Htext. reflexivity.
  - destruct (_parse_image_table (_match_ocr_text st box) (h :: hs) false)
      as [[rows summary]|x] eqn:Hp; [|discriminate].
    cbn [bind]. intros E. injection E as <-.
    eexists. split; [reflexivity|]. split; [reflexivity|].
    eapply Picture_table; [exact Hdet | exact Hp | reflexivity].
  - destruct (last_img_tbl_headers st) as [[|l ls]|] eqn:Hlast.
    + intros E. injection E as <-. apply Htext. reflexivity.
    + destruct (_match_ocr_text st box) as [|c o] eqn:Ho.
      * intros E. injection E as <-. apply Htext. reflexivity.
      * apply Hcont; [|reflexivity].
        unfold continuation_picture. rewrite Ho, Hdet, Hlast. reflexivity.
    + intros E. injection E as <-. apply Htext. reflexivity.
Qed.

(** *** Invariants of the run *)

Section RunInvariant.

(** A property [ok] of the emitted blocks and a property [pok] of the
    pending accumulator, kept by every event that is [allowed]. *)
Variable ok : block -> Prop.
Variable pok : pending -> Prop.
Variable allowed : state -> event -> Prop.

Hypothesis ok_text : forall b s, data b = DataText s -> ok b.
Hypothesis ok_key_value : forall b d, data b = DataKeyValue d -> ok b.
Hypothesis ok_pending : forall pt, pok pt -> ok (pending_block pt).
Hypothesis pok_fresh : forall p ti de headers all_rows tab,
  pok (fresh_pending p ti de headers all_rows tab).
Hypothesis pok_exact : forall st pt headers all_rows tab,
  pok pt -> pt_raw_headers pt = headers ->
  pok (merged_pending st pt (non_header_rows headers all_rows) tab).
Hypothesis pok_column :
  forall st box st1 headers all_rows tab st2 td pt L,
    allowed st (BoxEvent box) ->
    boxclass box = py "table" ->
    _resolve_table_data (set_last_img_tbl_headers st None) box
    = Ok (st1, Some (headers, all_rows, tab)) ->
    _resolve_title_description st1 = (st2, td) ->
    _is_key_value_table all_rows = Ok false ->
    pending_table st2 = Some pt ->
    last_item (pt_page pt) = Ok L ->
    pt_raw_headers pt <> headers ->
    length (pt_raw_headers pt) = length headers ->
    (pg st2 <= L + 1)%Z ->
    pok pt ->
    pok (merged_pending st2 pt all_rows tab).
Hypothesis ok_picture : forall st box b,
  allowed st (BoxEvent box) -> boxclass box = py "picture" ->
  picture_block st box b -> ok b.

Definition inv (st : state) : Prop :=
  Forall ok (blocks st)
  /\ forall pt, pending_table st = Some pt -> pok pt.

Lemma inv_same : forall st st',
  blocks st' = blocks st -> pending_table st' = pending_table st ->
  inv st -> inv st'.
Proof. intros st st' Hb Hp [H1 H2]. split; rewrite ?Hb, ?Hp; auto. Qed.

Lemma inv_append : forall st b, inv st -> ok b -> inv (append_block st b).
Proof.
  intros st b [H1 H2] Hb. split; [|exact H2].
  cbn. apply Forall_app. split; [exact H1 | repeat constructor; exact Hb].
Qed.

Lemma inv_set_pending : forall st pt,
  inv st -> pok pt -> inv (set_pending_table st (Some pt)).
Proof.
  intros st pt [H1 H2] Hpt. split; [exact H1|].
  cbn. intros pt' E. injection E as <-. exact Hpt.
Qed.

Lemma inv_flush_text : forall st, inv st -> inv (_flush_text st).
Proof.
  intros st H. unfold _flush_text. destruct (text_buf st); [exact H|].
  eapply (inv_same (append_block st _)); [reflexivity | reflexivity |].
  apply inv_append; [exact H|]. eapply ok_text. reflexivity.
Qed.

Lemma inv_flush_pending : forall st, inv st -> inv (_flush_pending_table st).
Proof.
  intros st H. destruct (pending_table st) as [pt|] eqn:Hp.
  - rewrite (flush_pending_some st pt Hp).
    destruct (inv_append st (pending_block pt) H) as [H1 _].
    { apply ok_pending. destruct H as [_ H]. auto. }
    split; [exact H1|]. cbn. discriminate.
  - rewrite flush_pending_none by assumption. exact H.
Qed.

Lemma inv_step : forall st e st',
  inv st -> allowed st e -> step st e = Ok st' -> inv st'.
Proof.
  intros st e st' Hinv Hall Hstep. destruct e as [p|box].
  - cbn in Hstep. injection Hstep as <-.
    apply (inv_same st); auto.
  - cbn [step] in Hstep. unfold process_box in Hstep.
    destruct (str_eqb (boxclass box) (py "section-header")
              || str_eqb (boxclass box) (py "header")).
    { injection Hstep as <-. unfold _on_heading.
      apply (inv_same (_flush_pending_table (_flush_text st)));
        [reflexivity | reflexivity |].
      apply inv_flush_pending, inv_flush_text, Hinv. }
    destruct (str_eqb (boxclass box) (py "table")) eqn:Hcls.
    { apply str_eqb_eq in Hcls.
      apply on_table_cases in Hstep.
      destruct Hstep as (st1 & resolved & Hres & Hout).
      pose proof (resolve_table_data_context _ _ _ _ Hres) as (_ & Hb1 & Hp1).
      assert (Hinv1 : inv st1).
      { apply (inv_same st); auto. }
      destruct resolved as [[[headers all_rows] tab]|];
        [|subst st'; exact Hinv1].
      destruct Hout as [st2 ti de kvd Htd _ _ ->
                       | st2 td pt Htd _ Hpt Hraw ->
                       | st2 td pt L Htd Hkv Hpt Hl Hne Hlen Hpg ->
                       | st2 ti de Htd _ ->];
        pose proof (resolve_title_context _ _ _ Htd) as (_ & Hb2 & Hp2);
        assert (Hinv2 : inv st2) by (apply (inv_same st1); auto).
      - apply inv_append; [apply inv_flush_pending, Hinv2|].
        eapply ok_key_value. reflexivity.
      - apply inv_set_pending; [exact Hinv2|].
        apply pok_exact; [|exact Hraw]. destruct Hinv2 as [_ H]. auto.
      - apply inv_set_pending; [exact Hinv2|].
        eapply (pok_column st box st1 headers all_rows tab st2 td pt L);
          eauto.
        destruct Hinv2 as [_ H]. auto.
      - apply inv_set_pending; [apply inv_flush_pending, Hinv2|].
        apply pok_fresh. }
    destruct (str_eqb (boxclass box) (py "picture")) eqn:Hpic.
    { apply str_eqb_eq in Hpic. apply on_picture_cases in Hstep.
      destruct Hstep as (b & Hb & Hp & Hblock).
      pose proof (inv_flush_pending _ (inv_flush_text _ Hinv)) as [H1 H2].
      split.
      - rewrite Hb. apply Forall_app. split; [exact H1|].
        repeat constructor. apply (ok_picture st box); auto.
      - rewrite Hp. exact H2. }
    destruct ((str_eqb (boxclass box) (py "text")
               || str_eqb (boxclass box) (py "list-item"))
              && nonempty (strip (text box)));
      injection Hstep as <-; [|exact Hinv].
    apply (inv_same st); auto.
Qed.

(** Every event of the run is allowed in the state it meets. *)
Fixpoint all_allowed (st : state) (evs : list event) : Prop :=
  match evs with
  | [] => True
  | e :: evs' =>
      allowed st e
      /\ forall st', step st e = Ok st' -> all_allowed st' evs'
  end.

Lemma inv_run : forall evs st st',
  inv st -> all_allowed st evs -> run st evs = Ok st' -> inv st'.
Proof.
  induction evs as [|e evs IH]; intros st st' Hinv Hall Hrun.
  - injection Hrun as <-. exact Hinv.
  - cbn [run] in Hrun. destruct (step st e) as [st1|x] eqn:Hstep;
      [|discriminate].
    cbn [bind] in Hrun. destruct Hall as [Ha Hrest].
    apply (IH st1 st'); auto. apply (inv_step st e st1); auto.
Qed.

Lemma inv_init : inv init.
Proof. split; [constructor | discriminate]. Qed.

(** The blocks [transform] returns satisfy [ok]. *)
Lemma inv_transform : forall r out,
  all_allowed init (events_of (pages r)) ->
  transform r = Ok out -> Forall ok (out_blocks out).
Proof.
  intros r out Hall Ht. apply transform_run in Ht.
  destruct Ht as (st & Hrun & ->).
  apply (inv_flush_pending (_flush_text st)), inv_flush_text.
  apply (inv_run _ init st inv_init Hall Hrun).
Qed.

End RunInvariant.

(** *** No summary row among the rows *)

Definition rows_summary_free (pt : pending) : Prop :=
  Forall (fun r => _is_summary_row r = false) (pt_rows pt).

Lemma merged_summary_free : forall st pt added tab,
  rows_summary_free pt -> rows_summary_free (merged_pending st pt added tab).
Proof.
  intros st pt added tab H. unfold rows_summary_free. cbn.
  apply Forall_app. split; [exact H | apply data_rows_of_no_summary].
Qed.

Lemma picture_summary_free : forall st box b,
  picture_block st box b -> summary_free b.
Proof.
  intros st box b H. unfold summary_free.
  destruct H as [hs rows s _ Hp -> | hs rows s _ _ Hp -> | ->]; auto;
    apply parse_image_table_rows in Hp; destruct Hp as (dl & _ & ->);
    apply data_rows_of_no_summary.
Qed.

Lemma all_allowed_true : forall evs st,
  all_allowed (fun _ _ => True) st evs.
Proof. induction evs; intros st; cbn; auto. Qed.

Lemma transform_summary_free : forall r out,
  transform r = Ok out -> Forall summary_free (out_blocks out).
Proof.
  intros r out. apply (inv_transform summary_free rows_summary_free
                         (fun _ _ => True)).
  - intros b s H. unfold summary_free. rewrite H. exact I.
  - intros b d H. unfold summary_free. rewrite H. exact I.
  - intros pt H. exact H.
  - intros. apply data_rows_of_no_summary.
  - intros. apply merged_summary_free. assumption.
  - intros. apply merged_summary_free. assumption.
  - intros st box b _ _ H. apply (picture_summary_free st box b H).
  - apply all_allowed_true.
Qed.

(** *** The header row among the rows *)

(** Does the table box [box], met in state [st], merge into the pending
    table by column count only, its headers differing from the pending
    ones? *)
Definition column_count_merge (st : state) (box : layout_box) : bool :=
  match _resolve_table_data (set_last_img_tbl_headers st None) box with
  | Ok (st1, Some (headers, all_rows, tab)) =>
      match _is_key_value_table all_rows, pending_table st1 with
      | Ok false, Some pt =>
          match last_item (pt_page pt) with
          | Ok L =>
              negb (_headers_match (pt_raw_headers pt) headers)
              && (length (pt_raw_headers pt) =? length headers)
              && (pg st1 <=? L + 1)%Z
          | Raise _ => false
          end
      | _, _ => false
      end
  | _ => false
  end.

(** An event that folds rows in under headers that are not its own. *)
Definition is_continuation (st : state) (e : event) : bool :=
  match e with
  | PageStart _ => false
  | BoxEvent box =>
      if str_eqb (boxclass box) (py "table") then column_count_merge st box
      else if str_eqb (boxclass box) (py "picture")
           then continuation_picture st box
           else false
  end.

(** No event of the run is such a continuation. *)
Fixpoint no_continuation (st : state) (evs : list event) : bool :=
  match evs with
  | [] => true
  | e :: evs' =>
      negb (is_continuation st e)
      && match step st e with
         | Ok st' => no_continuation st' evs'
         | Raise _ => true
         end
  end.

Lemma no_continuation_allowed : forall evs st,
  no_continuation st evs = true ->
  all_allowed (fun st e => is_continuation st e = false) st evs.
Proof.
  induction evs as [|e evs IH]; intros st H; cbn [all_allowed]; [exact I|].
  cbn [no_continuation] in H. apply andb_true_iff in H.
  destruct H as [H1 H2]. apply negb_true_iff in H1. split; [exact H1|].
  intros st' Hstep. rewrite Hstep in H2. apply IH. exact H2.
Qed.

Definition rows_header_free (pt : pending) : Prop :=
  pt_raw_headers pt = pt_headers pt /\ ~ In (pt_headers pt) (pt_rows pt).

Lemma non_header_not_in : forall headers all_rows,
  ~ In headers (data_rows_of (non_header_rows headers all_rows)).
Proof.
  intros headers all_rows H. unfold data_rows_of, non_header_rows in H.
  apply filter_In in H. destruct H as [H _].
  apply filter_In in H. destruct H as [_ H].
  apply negb_true_iff in H.
  assert (E : row_eqb headers headers = true) by (apply row_eqb_eq; reflexivity).
  congruence.
Qed.

(** *** Image tables: the header lines are not among the data lines *)

Lemma count_unique_split : forall (l a b : list str) x,
  l = a ++ x :: b -> line_count l x = 1 -> ~ In x a /\ ~ In x b.
Proof.
  intros l a b x -> H. unfold line_count in H.
  rewrite count_occ_app, count_occ_cons_eq in H by reflexivity.
  split; apply (count_occ_not_In str_eq_dec); lia.
Qed.

Lemma find_index_first : forall (a b : list str) x,
  ~ In x a -> find_index (str_eqb x) (a ++ x :: b) = Some (length a).
Proof.
  induction a as [|y a IH]; intros b x Hn; cbn [app find_index length].
  - rewrite str_eqb_refl. reflexivity.
  - destruct (str_eqb x y) eqn:E.
    + apply str_eqb_eq in E. subst y. exfalso. apply Hn. left. reflexivity.
    + rewrite IH; [reflexivity|]. intros Hin. apply Hn. right. exact Hin.
Qed.

Lemma take_while_prefix : forall (A : Type) (p : A -> bool) l,
  exists rest, l = take_while p l ++ rest.
Proof.
  intros A p. induction l as [|x l [rest IH]]; [exists []; reflexivity|].
  cbn [take_while]. destruct (p x).
  - exists rest. cbn [app]. f_equal. exact IH.
  - exists (x :: l). reflexivity.
Qed.

Lemma take_while_all : forall (A : Type) (p : A -> bool) l,
  forallb p (take_while p l) = true.
Proof.
  intros A p. induction l as [|x l IH]; [reflexivity|].
  cbn [take_while]. destruct (p x) eqn:E; [|reflexivity].
  cbn [forallb]. rewrite E, IH. reflexivity.
Qed.

(** What detection tells about the lines: the headers follow an optional
    title line, and each occurs once among all the lines. *)
Lemma detect_headers_position : forall ocr headers,
  _detect_image_table ocr = Some headers ->
  exists pre rest,
    ocr_lines ocr = pre ++ headers ++ rest
    /\ 2 <= length headers
    /\ forallb (header_like (ocr_lines ocr)) headers = true.
Proof.
  intros ocr headers. rewrite detect_image_table_spec. unfold detect_spec.
  set (lines := ocr_lines ocr).
  destruct (length lines <? 5); [discriminate|].
  set (body := match lines with
               | [] => []
               | first :: rest => if 30 <? length first then rest else lines
               end).
  set (hs := take_while (header_like lines) (firstn 6 body)).
  destruct ((2 <=? length hs) && _) eqn:Hc; [|discriminate].
  intros E. injection E as <-.
  apply andb_true_iff in Hc. destruct Hc as [H2 _]. apply Nat.leb_le in H2.
  destruct (take_while_prefix _ (header_like lines) (firstn 6 body))
    as [rest1 E1].
  fold hs in E1.
  assert (Ebody : exists pre, lines = pre ++ body).
  { unfold body. destruct lines as [|first rest]; [exists []; reflexivity|].
    destruct (30 <? length first);
      [exists [first] | exists []]; reflexivity. }
  destruct Ebody as [pre Epre].
  exists pre, (rest1 ++ skipn 6 body). split; [|split].
  - rewrite Epre at 1. f_equal. rewrite app_assoc, <- E1.
    symmetry. apply firstn_skipn.
  - exact H2.
  - apply take_while_all.
Qed.

Lemma skipn_app_length : forall (A : Type) (a b : list A) n,
  n = length a -> skipn n (a ++ b) = b.
Proof. intros A a b n ->. apply skipn_length_app. Qed.

(** With detected headers the data lines are the lines after the headers,
    and the first header is not among them. *)
Lemma detected_data_lines : forall ocr headers data_lines,
  _detect_image_table ocr = Some headers ->
  data_lines_of ocr headers false = Ok data_lines ->
  exists h0 hs, headers = h0 :: hs /\ ~ In h0 data_lines.
Proof.
  intros ocr headers data_lines Hdet Hdl.
  destruct (detect_headers_position ocr headers Hdet)
    as (pre & rest & Elines & Hlen & Hlike).
  destruct headers as [|h0 hs]; [simpl in Hlen; lia|].
  exists h0, hs. split; [reflexivity|].
  assert (Hhs : hs <> []) by (intros ->; simpl in Hlen; lia).
  destruct (exists_last Hhs) as (mid & hl & Ehs).
  unfold data_lines_of in Hdl. cbn [bind] in Hdl.
  assert (Hlast : last_item (h0 :: hs) = Ok hl).
  { unfold last_item. rewrite Ehs. cbn [rev].
    rewrite rev_app_distr. reflexivity. }
  rewrite Hlast in Hdl. cbn [bind] in Hdl.
  rewrite forallb_forall in Hlike.
  assert (Hh0 : line_count (ocr_lines ocr) h0 = 1).
  { specialize (Hlike h0 (or_introl eq_refl)). unfold header_like in Hlike.
    apply andb_true_iff in Hlike. destruct Hlike as [_ H].
    apply Nat.eqb_eq in H. exact H. }
  assert (Hhl : line_count (ocr_lines ocr) hl = 1).
  { assert (Hin : In hl (h0 :: hs)).
    { right. rewrite Ehs. apply in_or_app. right. left. reflexivity. }
    specialize (Hlike hl Hin). unfold header_like in Hlike.
    apply andb_true_iff in Hlike. destruct Hlike as [_ H].
    apply Nat.eqb_eq in H. exact H. }
  assert (E1 : ocr_lines ocr = (pre ++ h0 :: mid) ++ hl :: rest).
  { rewrite Elines, Ehs. cbn [app]. rewrite <- !app_assoc. reflexivity. }
  assert (E2 : ocr_lines ocr = pre ++ h0 :: (mid ++ hl :: rest)).
  { rewrite E1. rewrite <- app_assoc. reflexivity. }
  destruct (count_unique_split _ _ _ _ E1 Hhl) as [Hn1 _].
  destruct (count_unique_split _ _ _ _ E2 Hh0) as [_ Hn2].
  unfold index_of in Hdl. rewrite E1 in Hdl at 1.
  rewrite find_index_first in Hdl by assumption. cbn [bind] in Hdl.
  rewrite E1 in Hdl.
  replace ((pre ++ h0 :: mid) ++ hl :: rest)
    with (((pre ++ h0 :: mid) ++ [hl]) ++ rest) in Hdl
    by (rewrite <- app_assoc; reflexivity).
  rewrite skipn_app_length in Hdl
    by (rewrite (length_app (pre ++ h0 :: mid) [hl]); reflexivity).
  injection Hdl as <-. intros Hin. apply Hn2.
  apply in_or_app. right. right. exact Hin.
Qed.

(** The groups are not empty and are made of data lines. *)
Definition groups_within (L : list str) (groups : list (list str)) : Prop :=
  Forall (fun g => g <> [] /\ forall x, In x g -> In x L) groups.

Lemma group_loop_within : forall L data_lines groups current,
  (forall x, In x data_lines -> In x L) ->
  groups_within L groups -> (forall x, In x current -> In x L) ->
  groups_within L (fst (group_loop data_lines groups current))
  /\ (forall x, In x (snd (group_loop data_lines groups current)) -> In x L).
Proof.
  intros L. induction data_lines as [|line rest IH];
    intros groups current Hd Hg Hc; [split; assumption|].
  cbn [group_loop].
  assert (Hline : In line L) by (apply Hd; left; reflexivity).
  assert (Hrest : forall x, In x rest -> In x L)
    by (intros x Hx; apply Hd; right; exact Hx).
  destruct (is_row_start line && nonempty current) eqn:E.
  - apply IH; auto.
    + apply Forall_app. split; [exact Hg|]. repeat constructor; auto.
      apply andb_true_iff in E. destruct E as [_ E].
      destruct current; [discriminate | discriminate].
    + intros x [<- | []]. exact Hline.
  - apply IH; auto. intros x Hx. apply in_app_or in Hx.
    destruct Hx as [Hx | [<- | []]]; auto.
Qed.

Lemma row_groups_within : forall data_lines,
  groups_within data_lines (row_groups_of data_lines).
Proof.
  intros dl. unfold row_groups_of.
  destruct (group_loop_within dl dl [] []) as [H1 H2]; auto;
    [constructor | intros x []|].
  destruct (group_loop dl [] []) as [groups current]. cbn [fst snd] in *.
  destruct current as [|c current]; [exact H1|].
  cbn [nonempty]. apply Forall_app. split; [exact H1|].
  repeat constructor; [discriminate | exact H2].
Qed.

Lemma pad_group_head : forall ncols g0 g,
  2 <= ncols -> hd_error (pad_group ncols (g0 :: g)) = Some (Some g0).
Proof.
  intros n g0 g Hn. unfold pad_group.
  destruct (n <=? length (g0 :: g)) eqn:E; [|reflexivity].
  unfold slice_to, slice_index.
  replace (Z.of_nat n - 1 <? 0)%Z with false by (symmetry; apply Z.ltb_ge; lia).
  apply Nat.leb_le in E.
  replace (Z.to_nat (Z.min (Z.of_nat (length (g0 :: g))) (Z.of_nat n - 1)))
    with (S (n - 2)) by lia.
  reflexivity.
Qed.

Lemma picture_table_header_free : forall ocr headers rows summary,
  _detect_image_table ocr = Some headers ->
  _parse_image_table ocr headers false = Ok (rows, summary) ->
  ~ In (map Some headers) rows.
Proof.
  intros ocr headers rows summary Hdet Hp Hin.
  apply parse_image_table_rows in Hp. destruct Hp as (dl & Hdl & ->).
  destruct (detected_data_lines ocr headers dl Hdet Hdl)
    as (h0 & hs & -> & Hn).
  destruct (detect_headers_position ocr (h0 :: hs) Hdet) as (_ & _ & _ & Hlen & _).
  unfold data_rows_of in Hin. apply filter_In in Hin. destruct Hin as [Hin _].
  apply in_map_iff in Hin. destruct Hin as (g & Hg & Hgin).
  pose proof (row_groups_within dl) as Hw. unfold groups_within in Hw.
  rewrite Forall_forall in Hw. destruct (Hw g Hgin) as [Hne Hsub].
  destruct g as [|g0 g]; [congruence|].
  pose proof (pad_group_head (length (h0 :: hs)) g0 g Hlen) as Hhd.
  rewrite Hg in Hhd. cbn in Hhd. injection Hhd as <-.
  apply Hn, Hsub. left. reflexivity.
Qed.

Lemma merged_header_free : forall st pt headers all_rows tab,
  rows_header_free pt -> pt_raw_headers pt = headers ->
  rows_header_free
    (merged_pending st pt (non_header_rows headers all_rows) tab).
Proof.
  intros st pt headers all_rows tab [Hraw Hn] Heq. split; [exact Hraw|].
  cbn. intros Hin. apply in_app_or in Hin. destruct Hin as [Hin | Hin].
  - exact (Hn Hin).
  - rewrite <- Hraw, Heq in Hin. exact (non_header_not_in _ _ Hin).
Qed.

Lemma column_merge_flagged :
  forall st box st1 headers all_rows tab st2 td pt L,
    _resolve_table_data (set_last_img_tbl_headers st None) box
    = Ok (st1, Some (headers, all_rows, tab)) ->
    _resolve_title_description st1 = (st2, td) ->
    _is_key_value_table all_rows = Ok false ->
    pending_table st2 = Some pt ->
    last_item (pt_page pt) = Ok L ->
    pt_raw_headers pt <> headers ->
    length (pt_raw_headers pt) = length headers ->
    (pg st2 <= L + 1)%Z ->
    column_count_merge st box = true.
Proof.
  intros st box st1 headers all_rows tab st2 td pt L Hres Htd Hkv Hpt Hl Hne
    Hlen Hpg.
  apply resolve_title_context in Htd. destruct Htd as ([_ _ Hpg2] & _ & Hp2).
  unfold column_count_merge. rewrite Hres, Hkv, <- Hp2, Hpt, Hl, <- Hpg2.
  destruct (_headers_match (pt_raw_headers pt) headers) eqn:Hm.
  { apply headers_match_eq in Hm. contradiction. }
  cbn [negb andb]. apply andb_true_iff. split.
  - apply Nat.eqb_eq. exact Hlen.
  - apply Z.leb_le. exact Hpg.
Qed.

Lemma transform_header_free : forall r out,
  no_continuation init (events_of (pages r)) = true ->
  transform r = Ok out -> Forall header_free (out_blocks out).
Proof.
  intros r out Hno.
  apply (inv_transform header_free rows_header_free
           (fun st e => is_continuation st e = false)).
  - intros b s H. unfold header_free. rewrite H. exact I.
  - intros b d H. unfold header_free. rewrite H. exact I.
  - intros pt [_ H]. exact H.
  - intros. split; [reflexivity | apply non_header_not_in].
  - intros. apply merged_header_free; assumption.
  - intros st box st1 headers all_rows tab st2 td pt L Hall Hcls Hres Htd Hkv
      Hpt Hl Hne Hlen Hpg _.
    exfalso. cbn [is_continuation] in Hall. rewrite Hcls in Hall.
    change (str_eqb (py "table") (py "table")) with true in Hall.
    cbn iota in Hall.
    rewrite (column_merge_flagged st box st1 headers all_rows tab st2 td pt L)
      in Hall; auto.
    discriminate.
  - intros st box b Hall Hcls Hb. cbn [is_continuation] in Hall.
    rewrite Hcls in Hall.
    change (str_eqb (py "picture") (py "table")) with false in Hall.
    change (str_eqb (py "picture") (py "picture")) with true in Hall.
    cbn iota in Hall. unfold header_free.
    destruct Hb as [hs rows s Hdet Hp -> | hs rows s Hflag _ _ _ | ->];
      [|congruence|exact I].
    apply (picture_table_header_free _ _ _ _ Hdet Hp).
  - apply no_continuation_allowed. exact Hno.
Qed.

(** Two table boxes on one page; the second table has other headers of the
    same length and one row, which equals the headers of the first. *)
Definition repeated_header_document : raw :=
  {| filename := py "report.pdf";
     total_pages := 1;
     pages :=
       [ {| page_number := 1;
            tables :=
              [ {| header_names := [scell "A"; scell "B"];
                   cells := [ [scell "A"; scell "B"]; [scell "x"; scell "1"] ];
                   col_count := 2; row_count := 2; trailing_text := None |};
                {| header_names := [scell "C"; scell "D"];
                   cells := [ [scell "A"; scell "B"] ];
                   col_count := 2; row_count := 1; trailing_text := None |} ];
            images := [];
            layout_boxes :=
              [ {| boxclass := py "table";
                   box_bbox := {| x0 := 0; y0 := 0; x1 := 100; y1 := 50 |};
                   text := []; box_layout_table := None |};
                {| boxclass := py "table";
                   box_bbox := {| x0 := 0; y0 := 60; x1 := 100; y1 := 90 |};
                   text := []; box_layout_table := None |} ] |} ] |}.



Definition plain_summary_document : raw :=
  summary_document (py "report.pdf") 1 []
    {| x0 := 0; y0 := 0; x1 := 100; y1 := 10 |}
    {| x0 := 0; y0 := 12; x1 := 100; y1 := 20 |}
    {| x0 := 0; y0 := 22; x1 := 100; y1 := 80 |}
    [] None 2 3.

(* ================================================================== *)
(** * Further properties of the transformer *)

(** ** The moves of the state machine

    What the handlers do to the emitted blocks, the text buffer and the
    pending accumulator, one move at a time. *)

(** A change that leaves all of them, and the tables of the page, alone. *)
Record frame (st st' : state) : Prop := {
  frame_blocks : blocks st' = blocks st;
  frame_text_buf : text_buf st' = text_buf st;
  frame_text_page : text_page st' = text_page st;
  frame_pending : pending_table st' = pending_table st;
  frame_tables : page_tables st' = page_tables st
}.

(** A block appended where it is met: a key-value table or the block of a
    picture. *)
Definition direct_block (b : block) : Prop :=
  (exists p, page b = Some (PageNum p))
  /\ ((type b = table_block /\ exists kv, data b = DataKeyValue kv)
      \/ (type b = image_table /\ description b = []
          /\ exists h r s, data b = DataTable h r s)
      \/ (type b = image_text /\ description b = []
          /\ exists s, data b = DataText s)).

(** The moves; the number is 1 for the moves that add to what the output
    will hold (a buffered text, a block appended where it is met, a new
    accumulator) and 0 for the others. *)
Inductive move : nat -> state -> state -> Prop :=
| Move_frame : forall st st', frame st st' -> move 0 st st'
| Move_flush_text : forall st,
    text_buf st <> [] -> move 0 st (_flush_text st)
| Move_flush_pending : forall st pt,
    pending_table st = Some pt -> move 0 st (_flush_pending_table st)
| Move_drop_text : forall st, move 0 st (set_text st [] None)
| Move_text : forall st t, move 1 st (_on_text st t)
| Move_emit : forall st b, direct_block b -> move 1 st (append_block st b)
| Move_fresh : forall st p ti de headers all_rows tab,
    pending_table st = None ->
    move 1 st (set_pending_table st
                 (Some (fresh_pending p ti de headers all_rows tab)))
| Move_merge : forall st pt added tab,
    pending_table st = Some pt ->
    move 0 st (set_pending_table st (Some (merged_pending st pt added tab))).

(** A sequence of moves whose numbers add up to at most [n]. *)
Inductive moves : nat -> state -> state -> Prop :=
| Moves_nil : forall n st, moves n st st
| Moves_cons : forall c n m st st1 st2,
    move c st st1 -> moves n st1 st2 -> c + n <= m -> moves m st st2.

Lemma moves_one : forall c st st', move c st st' -> moves c st st'.
Proof.
  intros c st st' H. apply (Moves_cons c 0 c st st' st'); [exact H | | lia].
  apply Moves_nil.
Qed.

Lemma moves_trans : forall n m st1 st2 st3,
  moves n st1 st2 -> moves m st2 st3 -> moves (n + m) st1 st3.
Proof.
  intros n m st1 st2 st3 H. revert m st3.
  induction H as [n st | c n k st st1 st2 Hm Hms IH Hle]; intros m st3 H3.
  - clear - H3. induction H3 as [k st | c k j st st1 st2 Hm Hms IH Hle].
    + apply Moves_nil.
    + apply (Moves_cons c k (n + j) st st1 st2); [assumption | assumption | lia].
  - apply (Moves_cons c (n + m) (k + m) st st1 st3);
      [exact Hm | apply IH; exact H3 | lia].
Qed.

Lemma moves_weaken : forall n m st st',
  moves n st st' -> n <= m -> moves m st st'.
Proof.
  intros n m st st' H Hle. destruct H as [n st | c n k st st1 st2 Hm Hms Hc].
  - apply Moves_nil.
  - apply (Moves_cons c n m st st1 st2); [assumption | assumption | lia].
Qed.

Lemma moves_frame : forall st st', frame st st' -> moves 0 st st'.
Proof. intros st st' H. apply moves_one, Move_frame, H. Qed.

Lemma flush_text_moves : forall st, moves 0 st (_flush_text st).
Proof.
  intros st. destruct (text_buf st) as [|t buf] eqn:Hb.
  - unfold _flush_text. rewrite Hb. apply Moves_nil.
  - apply moves_one, Move_flush_text. rewrite Hb. discriminate.
Qed.

Lemma flush_pending_moves : forall st, moves 0 st (_flush_pending_table st).
Proof.
  intros st. destruct (pending_table st) as [pt|] eqn:Hp.
  - apply moves_one. apply (Move_flush_pending st pt Hp).
  - rewrite flush_pending_none by assumption. apply Moves_nil.
Qed.

Lemma flushes_moves : forall st,
  moves 0 st (_flush_pending_table (_flush_text st)).
Proof.
  intros st.
  apply (moves_trans 0 0 st (_flush_text st));
    [apply flush_text_moves | apply flush_pending_moves].
Qed.

Lemma on_heading_moves : forall st t, moves 0 st (_on_heading st t).
Proof.
  intros st t. unfold _on_heading.
  apply (moves_trans 0 0 st (_flush_pending_table (_flush_text st)));
    [apply flushes_moves|].
  apply moves_frame. split; reflexivity.
Qed.

Lemma resolve_table_data_frame : forall st box st1 resolved,
  _resolve_table_data st box = Ok (st1, resolved) -> frame st st1.
Proof.
  intros st box st1 resolved. unfold _resolve_table_data.
  destruct (nth_error (page_tables st) (table_idx st)) as [tab|].
  - destruct (mapM _clean_cell (header_names tab)); [|discriminate].
    destruct (mapM (mapM _clean_cell) (cells tab)); [|discriminate].
    cbn [bind]. intros E. injection E as <- <-. split; reflexivity.
  - destruct (box_layout_table box) as [lt|].
    + destruct (mapM (mapM _clean_cell) (lt_cells lt)); [|discriminate].
      cbn [bind]. intros E. injection E as <- <-. split; reflexivity.
    + intros E. injection E as <- <-. split; reflexivity.
Qed.

Lemma resolve_title_moves : forall st st2 td,
  _resolve_title_description st = (st2, td) -> moves 0 st st2.
Proof.
  intros st st2 td. unfold _resolve_title_description.
  destruct (text_buf st); intros E; injection E as <- _.
  - apply Moves_nil.
  - apply moves_one, Move_drop_text.
Qed.

Lemma pending_flushed : forall st,
  pending_table (_flush_pending_table st) = None.
Proof.
  intros st. unfold _flush_pending_table.
  destruct (pending_table st) eqn:Hp; [reflexivity | exact Hp].
Qed.

Lemma text_flushed : forall st, text_buf (_flush_text st) = [].
Proof.
  intros st. unfold _flush_text.
  destruct (text_buf st) eqn:Hb; [exact Hb | reflexivity].
Qed.

Lemma text_buf_flush_pending : forall st,
  text_buf (_flush_pending_table st) = text_buf st.
Proof.
  intros st. unfold _flush_pending_table.
  destruct (pending_table st); reflexivity.
Qed.

Lemma on_table_moves : forall st box st',
  _on_table st box = Ok st' -> moves 1 st st'.
Proof.
  intros st box st' H. apply on_table_cases in H.
  destruct H as (st1 & resolved & Hres & Hout).
  apply resolve_table_data_frame in Hres.
  assert (H1 : moves 0 st st1).
  { apply moves_frame. destruct Hres as [A B C D E]. split; assumption. }
  destruct resolved as [[[headers all_rows] tab]|].
  2:{ subst st'. apply (moves_weaken 0); [exact H1 | lia]. }
  apply (moves_trans 0 1 st st1); [exact H1|].
  destruct Hout as [st2 ti de kvd Htd _ _ ->
                   | st2 td pt Htd _ Hpt _ ->
                   | st2 td pt L Htd _ Hpt _ _ _ _ ->
                   | st2 ti de Htd _ ->];
    apply resolve_title_moves in Htd;
    (apply (moves_trans 0 1 st1 st2); [exact Htd|]).
  - apply (moves_trans 0 1 st2 (_flush_pending_table st2));
      [apply flush_pending_moves|].
    apply moves_one, Move_emit. split; [eexists; reflexivity|].
    left. split; [reflexivity | eexists; reflexivity].
  - apply (moves_weaken 0); [|lia].
    apply moves_one. apply (Move_merge st2 pt _ tab Hpt).
  - apply (moves_weaken 0); [|lia].
    apply moves_one. apply (Move_merge st2 pt _ tab Hpt).
  - apply (moves_trans 0 1 st2 (_flush_pending_table st2));
      [apply flush_pending_moves|].
    apply moves_one, Move_fresh, pending_flushed.
Qed.

Lemma on_picture_moves : forall st box st',
  _on_picture st box = Ok st' -> moves 1 st st'.
Proof.
  intros st box st'. unfold _on_picture.
  set (st2 := _flush_pending_table (_flush_text st)).
  assert (H2 : moves 0 st st2) by apply flushes_moves.
  assert (Hbuf : text_buf st2 = []).
  { unfold st2. rewrite text_buf_flush_pending. apply text_flushed. }
  assert (Htext : forall s,
            moves 1 st
              (append_block st2
                 (_make_block (heading st2) (Some []) image_text (DataText s)
                    (Some (PageNum (pg st2)))))).
  { intros s. apply (moves_trans 0 1 st st2); [exact H2|].
    apply moves_one, Move_emit. split; [eexists; reflexivity|].
    right. right. split; [reflexivity|]. split; [reflexivity|].
    eexists; reflexivity. }
  assert (Htable : forall h r s,
            moves 1 st
              (append_block st2
                 (_make_block (heading st2) (Some []) image_table
                    (DataTable h r s) (Some (PageNum (pg st2)))))).
  { intros h r s. apply (moves_trans 0 1 st st2); [exact H2|].
    apply moves_one, Move_emit. split; [eexists; reflexivity|].
    right. left. split; [reflexivity|]. split; [reflexivity|].
    do 3 eexists; reflexivity. }
  assert (Hcont : forall l ls,
            ('(rows, summary) <-
               _parse_image_table (_match_ocr_text st2 box) (l :: ls) true ;;
             match rows with
             | [] =>
                 Ok (append_block st2
                       (_make_block (heading st2) (Some []) image_text
                          (DataText (_match_ocr_text st2 box))
                          (Some (PageNum (pg st2)))))
             | _ :: _ =>
                 Ok (append_block st2
                       (_make_block (heading st2) (Some []) image_table
                          (DataTable (map Some (l :: ls)) rows summary)
                          (Some (PageNum (pg st2)))))
             end) = Ok st' ->
            moves 1 st st').
  { intros l ls.
    destruct (_parse_image_table (_match_ocr_text st2 box) (l :: ls) true)
      as [[rows summary]|x]; [|discriminate].
    cbn [bind]. destruct rows; intros E; injection E as <-;
      [apply Htext | apply Htable]. }
  destruct (_detect_image_table (_match_ocr_text st2 box)) as [[|h hs]|].
  - destruct (last_img_tbl_headers st2) as [[|l ls]|].
    + intros E. injection E as <-. apply Htext.
    + destruct (_match_ocr_text st2 box) as [|c o] eqn:Ho.
      * intros E. injection E as <-. apply Htext.
      * apply Hcont.
    + intros E. injection E as <-. apply Htext.
  - destruct (_parse_image_table (_match_ocr_text st2 box) (h :: hs) false)
      as [[rows summary]|x]; [|discriminate].
    cbn [bind]. rewrite Hbuf. intros E. injection E as <-.
    apply (moves_trans 0 1 st st2); [exact H2|].
    apply (moves_trans 0 1 st2 (set_text st2 [] None));
      [apply moves_one, Move_drop_text|].
    set (b := _make_block (heading (set_text st2 [] None)) (Some [])
                image_table (DataTable (map Some (h :: hs)) rows summary)
                (Some (PageNum (pg st2)))).
    apply (moves_trans 1 0 _ (append_block (set_text st2 [] None) b)).
    + apply moves_one, Move_emit. split; [eexists; reflexivity|].
      right. left. split; [reflexivity|]. split; [reflexivity|].
      do 3 eexists; reflexivity.
    + apply moves_frame. split; reflexivity.
  - destruct (last_img_tbl_headers st2) as [[|l ls]|].
    + intros E. injection E as <-. apply Htext.
    + destruct (_match_ocr_text st2 box) as [|c o] eqn:Ho.
      * intros E. injection E as <-. apply Htext.
      * apply Hcont.
    + intros E. injection E as <-. apply Htext.
Qed.

(** Does the box add to what the output will hold: a table, a picture, or
    a text that is not blank? *)
Definition adds_content (box : layout_box) : bool :=
  let cls := boxclass box in
  negb (str_eqb cls (py "section-header") || str_eqb cls (py "header"))
  && (str_eqb cls (py "table") || str_eqb cls (py "picture")
      || ((str_eqb cls (py "text") || str_eqb cls (py "list-item"))
          && nonempty (strip (text box)))).

Lemma process_box_moves : forall st box st',
  process_box st box = Ok st' ->
  moves (if adds_content box then 1 else 0) st st'.
Proof.
  intros st box st'. unfold process_box, adds_content.
  destruct (str_eqb (boxclass box) (py "section-header")
            || str_eqb (boxclass box) (py "header")).
  { intros E. injection E as <-. apply on_heading_moves. }
  destruct (str_eqb (boxclass box) (py "table")); [apply on_table_moves|].
  destruct (str_eqb (boxclass box) (py "picture")); [apply on_picture_moves|].
  destruct ((str_eqb (boxclass box) (py "text")
             || str_eqb (boxclass box) (py "list-item"))
            && nonempty (strip (text box)));
    intros E; injection E as <-.
  - apply moves_one, Move_text.
  - apply Moves_nil.
Qed.

(** *** Invariants carried by the moves *)

Section MoveInvariant.

Variable P : state -> Prop.
Hypothesis P_move : forall c st st', move c st st' -> P st -> P st'.
Hypothesis P_page : forall st p, P st -> P (set_page st p).

Lemma P_moves : forall n st st', moves n st st' -> P st -> P st'.
Proof.
  intros n st st' H. induction H as [n st | c n m st st1 st2 Hm _ IH _];
    [auto|].
  intros HP. apply IH. apply (P_move c st st1 Hm HP).
Qed.

Lemma P_step : forall st e st', step st e = Ok st' -> P st -> P st'.
Proof.
  intros st [p|box] st' H HP; cbn [step] in H.
  - injection H as <-. apply P_page, HP.
  - apply process_box_moves in H. apply (P_moves _ st st' H HP).
Qed.

Lemma P_run : forall evs st st', run st evs = Ok st' -> P st -> P st'.
Proof.
  induction evs as [|e evs IH]; intros st st' H HP; cbn [run] in H.
  - injection H as <-. exact HP.
  - destruct (step st e) as [st1|x] eqn:Hs; [|discriminate].
    cbn [bind] in H. apply (IH st1 st' H). apply (P_step st e st1 Hs HP).
Qed.

(** The blocks [transform] returns are the blocks of a state satisfying
    [P]. *)
Lemma P_transform : forall r out,
  P init -> transform r = Ok out ->
  exists st, P st /\ out_blocks out = blocks st.
Proof.
  intros r out Hinit Ht. apply transform_run in Ht.
  destruct Ht as (st & Hrun & ->).
  exists (_flush_pending_table (_flush_text st)). split; [|reflexivity].
  apply (P_moves 0 st); [apply flushes_moves|].
  apply (P_run _ init st Hrun Hinit).
Qed.

End MoveInvariant.

(** ** The shape of the emitted blocks *)

(** The data of a block has the shape its type announces: a string for a
    text block and an image text, a table for an image table, a table or a
    key-value dictionary for a table block. *)
Definition data_fits (b : block) : Prop :=
  match type b, data b with
  | text_block, DataText _ => True
  | image_text, DataText _ => True
  | image_table, DataTable _ _ _ => True
  | table_block, DataTable _ _ _ => True
  | table_block, DataKeyValue _ => True
  | _, _ => False
  end.

(** A block has a page entry; a list of pages stands only on a table block
    with headers and rows, and then holds at least two pages, none twice. *)
Definition page_fits (b : block) : Prop :=
  match page b with
  | Some (PageNum _) => True
  | Some (PageList ps) =>
      type b = table_block /\ (exists h r s, data b = DataTable h r s)
      /\ 2 <= length ps /\ NoDup ps
  | None => False
  end.

(** Only a table block has a description. *)
Definition description_fits (b : block) : Prop :=
  type b <> table_block -> description b = [].

Definition well_formed (b : block) : Prop :=
  data_fits b /\ page_fits b /\ description_fits b.

(** What the run keeps: the blocks are well formed, a non-empty text buffer
    has its page, and the pages of the accumulator are at least one and
    pairwise distinct. *)
Definition kept (st : state) : Prop :=
  Forall well_formed (blocks st)
  /\ (text_buf st <> [] -> text_page st <> None)
  /\ forall pt, pending_table st = Some pt ->
                pt_page pt <> [] /\ NoDup (pt_page pt).

Lemma direct_block_well_formed : forall b, direct_block b -> well_formed b.
Proof.
  intros b [[p Hp] H]. unfold well_formed, data_fits, page_fits,
    description_fits. rewrite Hp.
  destruct H as [[Ht [kv Hd]] | [[Ht [Hde (h & r & s & Hd)]]
                                | [Ht [Hde [s Hd]]]]];
    rewrite Ht, Hd; repeat split; auto; congruence.
Qed.

Lemma pending_block_well_formed : forall pt,
  pt_page pt <> [] -> NoDup (pt_page pt) -> well_formed (pending_block pt).
Proof.
  intros pt Hne Hnd. unfold well_formed, data_fits, page_fits,
    description_fits, pending_block. cbn.
  split; [exact I|]. split; [|congruence].
  destruct (pt_page pt) as [|p [|q ps]] eqn:Hp; [congruence | exact I |].
  split; [reflexivity|]. split; [do 3 eexists; reflexivity|].
  split; [cbn; lia | exact Hnd].
Qed.

Lemma page_in_spec : forall p l, page_in p l = true <-> In p l.
Proof.
  intros p l. unfold page_in. rewrite existsb_exists. split.
  - intros (x & Hx & E). apply Z.eqb_eq in E. subst x. exact Hx.
  - intros H. exists p. split; [exact H | apply Z.eqb_refl].
Qed.

Lemma merged_pages : forall st pt added tab,
  pt_page pt <> [] -> NoDup (pt_page pt) ->
  pt_page (merged_pending st pt added tab) <> []
  /\ NoDup (pt_page (merged_pending st pt added tab)).
Proof.
  intros st pt added tab Hne Hnd. cbn.
  destruct (page_in (pg st) (pt_page pt)) eqn:E; [auto|].
  split.
  - intros H. apply app_eq_nil in H. destruct H as [_ H]. discriminate.
  - apply NoDup_app; [exact Hnd | repeat constructor; intros [] |].
    intros x Hx [<- | []].
    apply page_in_spec in Hx. congruence.
Qed.

Lemma kept_move : forall c st st', move c st st' -> kept st -> kept st'.
Proof.
  intros c st st' H (Hb & Ht & Hp).
  destruct H as [st st' [F1 F2 F3 F4 F5] | st Hbuf | st pt Hpt | st | st t
                | st b Hd | st p ti de hs rows tab Hnone
                | st pt added tab Hpt].
  - unfold kept. rewrite F1, F2, F3, F4. auto.
  - unfold _flush_text. destruct (text_buf st) as [|t buf] eqn:E;
      [congruence|].
    split; [|split; [cbn; congruence | exact Hp]].
    cbn. apply Forall_app. split; [exact Hb|].
    constructor; [|constructor].
    split; [exact I|]. split; [|intros _; reflexivity].
    unfold page_fits. cbn.
    destruct (text_page st) eqn:Epg; [exact I|].
    apply Ht; [discriminate | reflexivity].
  - rewrite (flush_pending_some st pt Hpt).
    split; [|split; [exact Ht | cbn; discriminate]].
    cbn. apply Forall_app. split; [exact Hb|].
    constructor; [|constructor].
    destruct (Hp pt Hpt). apply pending_block_well_formed; assumption.
  - split; [exact Hb|]. split; [cbn; congruence | exact Hp].
  - split; [exact Hb|]. split; [|exact Hp].
    cbn. intros _. destruct (text_buf st); [discriminate|].
    apply Ht. discriminate.
  - split; [|split; [exact Ht | exact Hp]].
    cbn. apply Forall_app. split; [exact Hb|].
    constructor; [|constructor].
    apply direct_block_well_formed, Hd.
  - split; [exact Hb|]. split; [exact Ht|].
    cbn. intros pt E. injection E as <-. cbn.
    split; [discriminate | repeat constructor; intros []].
  - split; [exact Hb|]. split; [exact Ht|].
    cbn [pending_table set_pending_table]. intros pt' E. injection E as <-.
    destruct (Hp pt Hpt). apply merged_pages; assumption.
Qed.

Lemma kept_page : forall st p, kept st -> kept (set_page st p).
Proof. intros st p H. exact H. Qed.

Lemma kept_init : kept init.
Proof.
  split; [constructor|]. split; [intros H; exfalso; apply H; reflexivity|].
  discriminate.
Qed.

Lemma transform_well_formed : forall r out,
  transform r = Ok out -> Forall well_formed (out_blocks out).
Proof.
  intros r out H.
  destruct (P_transform kept kept_move kept_page r out kept_init H)
    as (st & (Hb & _) & ->).
  exact Hb.
Qed.

(** A two-page report: a heading, a text and a table on the first page; on
    the second page the table goes on, a picture follows, and a text ends
    the document. *)
Definition sample_table : table :=
  {| header_names := [scell "Item"; scell "Cost"];
     cells := [ [scell "Item"; scell "Cost"]; [scell "Pen"; scell "$100"] ];
     col_count := 2; row_count := 2; trailing_text := None |}.

Definition sample_continued : table :=
  {| header_names := [scell "Item"; scell "Cost"];
     cells := [ [scell "Ink"; scell "$250"]; [scell "Total"; scell "$350"] ];
     col_count := 2; row_count := 2; trailing_text := None |}.

Definition sample_box (cls : string) (y : Z) (t : string) : layout_box :=
  {| boxclass := py cls;
     box_bbox := {| x0 := 0; y0 := inject_Z y; x1 := 100;
                    y1 := inject_Z (y + 10) |};
     text := py t; box_layout_table := None |}.

Definition sample_report : raw :=
  {| filename := py "report.pdf";
     total_pages := 2;
     pages :=
       [ {| page_number := 1;
            tables := [sample_table];
            images := [];
            layout_boxes :=
              [ sample_box "section-header" 0 "Costs";
                sample_box "text" 20 " All costs in cents. ";
                sample_box "table" 40 "" ] |};
         {| page_number := 2;
            tables := [sample_continued];
            images :=
              [ {| img_bbox := {| x0 := 5; y0 := 45; x1 := 90; y1 := 95 |};
                   ocr_text := py "Signed by the board" |} ];
            layout_boxes :=
              [ sample_box "table" 0 "";
                sample_box "picture" 40 "";
                sample_box "caption" 100 "Figure 1";
                sample_box "list-item" 120 "End of report" ] |} ] |}.

Definition sample_blocks : list block :=
  [ {| title := py "Costs"; description := py "All costs in cents.";
       type := table_block;
       data := DataTable [scell "Item"; scell "Cost"]
                 [ [scell "Pen"; scell "$1.00"]; [scell "Ink"; scell "$2.50"] ]
                 (Some [scell "Total"; scell "$3.50"]);
       page := Some (PageList [1%Z; 2%Z]) |};
    {| title := py "Costs"; description := [];
       type := image_text;
       data := DataText (py "Signed by the board");
       page := Some (PageNum 2) |};
    {| title := py "Costs"; description := [];
       type := text_block;
       data := DataText (py "End of report");
       page := Some (PageNum 2) |} ].

Definition sample_schema : schema :=
  {| out_filename := py "report.pdf"; out_total_pages := 2;
     out_blocks := sample_blocks |}.

Lemma transform_sample_report : transform sample_report = Ok sample_schema.
Proof. vm_compute. reflexivity. Qed.

(** X1: in the blocks [transform] returns, the data of a block has the
    shape its type announces: a text block and an image text hold a string,
    an image table holds headers, rows and a summary row, and a table block
    holds those or a key-value dictionary. *)
Theorem transform_data_fits : forall r out,
  transform r = Ok out -> Forall data_fits (out_blocks out).
Proof.
  intros r out H. apply transform_well_formed in H.
  eapply Forall_impl; [|exact H]. intros b (Hd & _). exact Hd.
Qed.

Lemma transform_data_fits_witness : Forall data_fits sample_blocks.
Proof.
  apply (transform_data_fits sample_report sample_schema).
  vm_compute. reflexivity.
Defined.

(** X2: every block [transform] returns has a page entry.  It is a single
    page number, except on a table block with headers and rows that was
    merged over several pages: there it is the list of these pages, at least
    two and none of them twice. *)
Theorem transform_page_fits : forall r out,
  transform r = Ok out -> Forall page_fits (out_blocks out).
Proof.
  intros r out H. apply transform_well_formed in H.
  eapply Forall_impl; [|exact H]. intros b (_ & Hp & _). exact Hp.
Qed.

Lemma transform_page_fits_witness : Forall page_fits sample_blocks.
Proof.
  apply (transform_page_fits sample_report sample_schema).
  vm_compute. reflexivity.
Defined.

(** X3: in the blocks [transform] returns only table blocks have a
    description.  In particular the description of an image table is always
    empty: [_on_picture] flushes the text buffer before it reads it. *)
Theorem transform_description_fits : forall r out,
  transform r = Ok out -> Forall description_fits (out_blocks out).
Proof.
  intros r out H. apply transform_well_formed in H.
  eapply Forall_impl; [|exact H]. intros b (_ & _ & Hd). exact Hd.
Qed.

Lemma transform_description_fits_witness :
  Forall description_fits sample_blocks.
Proof.
  apply (transform_description_fits sample_report sample_schema).
  vm_compute. reflexivity.
Defined.

(** ** Blocks are only appended *)

Lemma move_appends : forall c st st',
  move c st st' -> exists new, blocks st' = blocks st ++ new.
Proof.
  intros c st st' H.
  destruct H as [st st' [F1 _ _ _ _] | st Hbuf | st pt Hpt | st | st t
                | st b Hd | st p ti de hs rows tab Hnone
                | st pt added tab Hpt];
    try (exists []; cbn; rewrite ?app_nil_r; congruence).
  - unfold _flush_text. destruct (text_buf st); [congruence|].
    eexists. reflexivity.
  - rewrite (flush_pending_some st pt Hpt). eexists. reflexivity.
  - eexists. reflexivity.
Qed.

(** The blocks of [st0] open the blocks of the state. *)
Definition extends (st0 st : state) : Prop :=
  exists new, blocks st = blocks st0 ++ new.

Lemma extends_move : forall st0 c st st',
  move c st st' -> extends st0 st -> extends st0 st'.
Proof.
  intros st0 c st st' H [new E]. apply move_appends in H.
  destruct H as [new' E']. exists (new ++ new').
  rewrite E', E, app_assoc. reflexivity.
Qed.

Lemma events_of_app : forall ps1 ps2,
  events_of (ps1 ++ ps2) = events_of ps1 ++ events_of ps2.
Proof. intros. unfold events_of. apply flat_map_app. Qed.

(** X4: blocks are only appended.  The blocks emitted by the time the
    first pages of a document are processed are the first blocks of the
    output, whatever pages follow. *)
Theorem emitted_blocks_stay : forall r ps1 ps2 st1 out,
  pages r = ps1 ++ ps2 ->
  process_pages init ps1 = Ok st1 ->
  transform r = Ok out ->
  exists new, out_blocks out = blocks st1 ++ new.
Proof.
  intros r ps1 ps2 st1 out Hp H1 Ht.
  apply transform_run in Ht. destruct Ht as (st & Hrun & ->).
  rewrite Hp, events_of_app, run_app in Hrun.
  rewrite process_pages_run in H1. rewrite H1 in Hrun. cbn [bind] in Hrun.
  assert (Hst : extends st1 st).
  { apply (P_run (extends st1) (extends_move st1)) with (evs := events_of ps2)
      (st := st1); [| exact Hrun | exists []; symmetry; apply app_nil_r].
    intros s p H. exact H. }
  apply (P_moves (extends st1) (extends_move st1) 0 st);
    [apply flushes_moves | exact Hst].
Qed.

(** The state when both pages of the sample report are processed: the last
    text is still in the buffer. *)
Definition sample_last_state : state :=
  {| blocks := firstn 2 sample_blocks;
     heading := Some (py "Costs");
     text_buf := [py "End of report"];
     text_page := Some 2%Z;
     pending_table := None;
     last_img_tbl_headers := None;
     pg := 2;
     page_tables := [sample_continued];
     page_images :=
       [ {| img_bbox := {| x0 := 5; y0 := 45; x1 := 90; y1 := 95 |};
            ocr_text := py "Signed by the board" |} ];
     table_idx := 1 |}.

Lemma emitted_blocks_stay_witness :
  exists new, sample_blocks = firstn 2 sample_blocks ++ new.
Proof.
  apply (emitted_blocks_stay sample_report (pages sample_report) []
           sample_last_state sample_schema).
  - vm_compute. reflexivity.
  - vm_compute. reflexivity.
  - vm_compute. reflexivity.
Defined.

(** ** At most one block for a box *)

(** What is held back for a later block: the text buffer and the pending
    accumulator. *)
Definition buffered (st : state) : nat :=
  match text_buf st with
  | [] => 0
  | _ => 1
  end
  + match pending_table st with
    | None => 0
    | Some _ => 1
    end.

Definition size (st : state) : nat := length (blocks st) + buffered st.

Lemma move_size : forall c st st', move c st st' -> size st' <= size st + c.
Proof.
  intros c st st' H. unfold size, buffered.
  destruct H as [st st' [F1 F2 F3 F4 F5] | st Hbuf | st pt Hpt | st | st t
                | st b Hd | st p ti de hs rows tab Hnone
                | st pt added tab Hpt].
  - rewrite F1, F2, F4. lia.
  - unfold _flush_text. destruct (text_buf st); [congruence|].
    cbn. rewrite length_app. cbn. lia.
  - rewrite (flush_pending_some st pt Hpt). cbn. rewrite length_app, Hpt.
    cbn. lia.
  - cbn. destruct (text_buf st); lia.
  - cbn. destruct (text_buf st); cbn; lia.
  - cbn. rewrite length_app. cbn. lia.
  - cbn. rewrite Hnone. lia.
  - cbn. rewrite Hpt. lia.
Qed.

Lemma moves_size : forall n st st', moves n st st' -> size st' <= size st + n.
Proof.
  intros n st st' H. induction H as [n st | c n m st st1 st2 Hm _ IH Hle];
    [lia|].
  apply move_size in Hm. lia.
Qed.

(** The number of boxes of the pages that add content. *)
Definition content_boxes (ps : list page_data) : nat :=
  list_sum
    (map (fun p => length (filter adds_content (layout_boxes p))) ps).

Lemma process_boxes_size : forall boxes st st',
  process_boxes st boxes = Ok st' ->
  size st' <= size st + length (filter adds_content boxes).
Proof.
  induction boxes as [|box boxes IH]; intros st st' H; cbn [process_boxes] in H.
  - injection H as <-. cbn. lia.
  - destruct (process_box st box) as [st1|x] eqn:Hb; [|discriminate].
    cbn [bind] in H. apply IH in H. apply process_box_moves, moves_size in Hb.
    cbn [filter]. destruct (adds_content box); cbn [length]; lia.
Qed.

Lemma process_pages_size : forall ps st st',
  process_pages st ps = Ok st' -> size st' <= size st + content_boxes ps.
Proof.
  induction ps as [|p ps IH]; intros st st' H; cbn [process_pages] in H.
  - injection H as <-. unfold content_boxes. cbn. lia.
  - destruct (_process_page st p) as [st1|x] eqn:Hp; [|discriminate].
    cbn [bind] in H. apply IH in H. unfold _process_page in Hp.
    apply process_boxes_size in Hp.
    unfold content_boxes in *. cbn [map list_sum fold_right].
    change (size (set_page st p)) with (size st) in Hp.
    unfold list_sum in *. cbn [fold_right]. lia.
Qed.

(** X5: [transform] returns at most one block for every layout box that
    is a table, a picture or a text that is not blank; headings, blank texts
    and boxes of other classes add no block. *)
Theorem transform_block_count : forall r out,
  transform r = Ok out ->
  length (out_blocks out) <= content_boxes (pages r).
Proof.
  intros r out. unfold transform, _run.
  destruct (process_pages init (pages r)) as [st|x] eqn:Hp; [|discriminate].
  cbn [bind]. intros E. injection E as <-. cbn [out_blocks].
  apply process_pages_size in Hp.
  pose proof (moves_size 0 st _ (flushes_moves st)) as Hf.
  change (size init) with 0 in Hp. unfold size in Hf at 1. lia.
Qed.

Lemma transform_block_count_witness :
  length sample_blocks <= content_boxes (pages sample_report).
Proof.
  apply (transform_block_count sample_report sample_schema).
  vm_compute. reflexivity.
Defined.

(** ** The run returns on rectangular tables *)

Lemma clean_cell_returns : forall v, exists c, _clean_cell v = Ok c.
Proof.
  intros [val|]; [|exists None; reflexivity].
  destruct (clean_cell_cases val) as (c & Hc & _). eauto.
Qed.

Lemma mapM_returns : forall (A B : Type) (f : A -> result B) l,
  (forall a, exists b, f a = Ok b) ->
  exists l', mapM f l = Ok l'.
Proof.
  intros A B f l Hf. induction l as [|a l [l' IH]]; [exists []; reflexivity|].
  destruct (Hf a) as [b Hb]. exists (b :: l').
  cbn [mapM]. rewrite Hb, IH. reflexivity.
Qed.

Lemma mapM_length : forall (A B : Type) (f : A -> result B) l l',
  mapM f l = Ok l' -> length l' = length l.
Proof.
  intros A B f. induction l as [|a l IH]; intros l' H; cbn [mapM] in H.
  - injection H as <-. reflexivity.
  - destruct (f a) as [b|x]; [|discriminate]. cbn [bind] in H.
    destruct (mapM f l) as [bs|x]; [|discriminate]. cbn [bind] in H.
    injection H as <-. cbn [length]. f_equal. apply IH. reflexivity.
Qed.

Lemma clean_rows_lengths : forall (rows rows' : list row),
  mapM (mapM _clean_cell) rows = Ok rows' ->
  map (@length cell) rows' = map (@length cell) rows.
Proof.
  induction rows as [|r rows IH]; intros rows' H; cbn [mapM] in H.
  - injection H as <-. reflexivity.
  - destruct (mapM _clean_cell r) as [r'|x] eqn:Hr; [|discriminate].
    cbn [bind] in H.
    destruct (mapM (mapM _clean_cell) rows) as [rs|x]; [|discriminate].
    cbn [bind] in H. injection H as <-. cbn [map]. f_equal.
    + apply (mapM_length _ _ _ _ _ Hr).
    + apply IH. reflexivity.
Qed.

Lemma rectangular_lengths : forall a b : list row,
  map (@length cell) a = map (@length cell) b ->
  rectangular a -> rectangular b.
Proof.
  intros a b E. unfold rectangular, ncols_of.
  assert (Hhd : length (hd [] a) = length (hd [] b)).
  { destruct a, b; try discriminate; [reflexivity|].
    injection E as E _. exact E. }
  rewrite Hhd. clear Hhd. generalize (length (hd [] b)). intros n.
  revert b E. induction a as [|r a IH]; intros [|r' b] E; try discriminate.
  - constructor.
  - injection E as E1 E2. intros H. inversion H as [|? ? Hr Ha]; subst.
    constructor; [congruence | apply IH; assumption].
Qed.

(** The tables of the raw input whose rows are all as long as the first
    row. *)
Definition rect_table (tab : table) : Prop := rectangular (cells tab).

Definition rect_box (box : layout_box) : Prop :=
  match box_layout_table box with
  | Some lt => rectangular (lt_cells lt)
  | None => True
  end.

Definition rect_page (p : page_data) : Prop :=
  Forall rect_table (tables p) /\ Forall rect_box (layout_boxes p).

Lemma resolve_table_data_returns : forall st box,
  Forall rect_table (page_tables st) -> rect_box box ->
  exists st1 resolved,
    _resolve_table_data st box = Ok (st1, resolved)
    /\ match resolved with
       | Some (_, all_rows, _) => rectangular all_rows
       | None => True
       end.
Proof.
  intros st box Ht Hb. unfold _resolve_table_data.
  destruct (nth_error (page_tables st) (table_idx st)) as [tab|] eqn:Hn.
  - destruct (mapM_returns _ _ _clean_cell (header_names tab)
                clean_cell_returns) as [hs Hh].
    destruct (mapM_returns _ _ (mapM _clean_cell) (cells tab)
                (fun r => mapM_returns _ _ _clean_cell r clean_cell_returns))
      as [rows Hr].
    rewrite Hh, Hr. cbn [bind]. do 2 eexists. split; [reflexivity|].
    apply (rectangular_lengths (cells tab)).
    + symmetry. apply clean_rows_lengths, Hr.
    + rewrite Forall_forall in Ht. apply Ht. eapply nth_error_In, Hn.
  - unfold rect_box in Hb. destruct (box_layout_table box) as [lt|].
    + destruct (mapM_returns _ _ (mapM _clean_cell) (lt_cells lt)
                  (fun r => mapM_returns _ _ _clean_cell r clean_cell_returns))
        as [rows Hr].
      rewrite Hr. cbn [bind]. do 2 eexists. split; [reflexivity|].
      apply (rectangular_lengths (lt_cells lt)); [|exact Hb].
      symmetry. apply clean_rows_lengths, Hr.
    + do 2 eexists. split; [reflexivity | exact I].
Qed.

Lemma last_item_returns : forall (A : Type) (l : list A),
  l <> [] -> exists x, last_item l = Ok x.
Proof.
  intros A l Hne. unfold last_item. destruct (rev l) as [|x r] eqn:E.
  - apply (f_equal (@rev A)) in E. rewrite rev_involutive in E.
    cbn in E. congruence.
  - eauto.
Qed.

Lemma try_merge_returns : forall st headers data_rows all_rows tab,
  (forall pt, pending_table st = Some pt -> pt_page pt <> []) ->
  exists st' m,
    _try_merge_table st headers data_rows all_rows tab = Ok (st', m).
Proof.
  intros st headers data_rows all_rows tab Hp. unfold _try_merge_table.
  destruct (pending_table st) as [pt|]; [|eauto].
  destruct (last_item_returns _ (pt_page pt) (Hp pt eq_refl)) as [L HL].
  rewrite HL. cbn [bind].
  destruct (_headers_match (pt_raw_headers pt) headers).
  - cbn [negb]. destruct (classify_rows _ _ _). eauto.
  - destruct ((length (pt_raw_headers pt) =? length headers)
              && (pg st <=? L + 1)%Z); cbn [negb]; [|eauto].
    destruct (classify_rows _ _ _). eauto.
Qed.

Lemma on_table_returns : forall st box,
  kept st -> Forall rect_table (page_tables st) -> rect_box box ->
  exists st', _on_table st box = Ok st'.
Proof.
  intros st box (_ & _ & Hk) Ht Hb. unfold _on_table.
  destruct (resolve_table_data_returns (set_last_img_tbl_headers st None) box
              Ht Hb) as (st1 & resolved & Hres & Hrect).
  rewrite Hres. cbn [bind].
  destruct resolved as [[[headers all_rows] tab]|]; [|eauto].
  apply resolve_table_data_frame in Hres. destruct Hres as [_ _ _ Hp1 _].
  destruct (_resolve_title_description st1) as [st2 [ti de]] eqn:Htd.
  apply resolve_title_context in Htd. destruct Htd as (_ & _ & Hp2).
  destruct (is_key_value_table_returns all_rows Hrect) as [b Hkv].
  rewrite Hkv. cbn [bind]. destruct b.
  - destruct (extract_key_values_returns all_rows) as [kv Hex];
      [intros ->; discriminate | exact Hrect |].
    rewrite Hex. cbn [bind]. eauto.
  - destruct (try_merge_returns st2 headers
                (filter (fun r => negb (row_eqb r headers)) all_rows)
                all_rows tab) as (st3 & m & Hm).
    { intros pt E. apply Hk. rewrite Hp2, Hp1 in E. exact E. }
    rewrite Hm. cbn [bind]. destruct m; [eauto|].
    destruct (classify_rows _ _ _). eauto.
Qed.

(** [_parse_image_table] in terms of its data lines and row groups. *)
Lemma parse_image_table_eq : forall ocr headers skip_header,
  _parse_image_table ocr headers skip_header
  = (data_lines <- data_lines_of ocr headers skip_header ;;
     Ok (classify_groups (length headers) (row_groups_of data_lines) [] None)).
Proof.
  intros ocr headers skip. unfold _parse_image_table, data_lines_of.
  match goal with
  | |- bind ?m _ = _ => destruct m as [dl|x]; [|reflexivity]
  end.
  cbn [bind]. unfold row_groups_of.
  destruct (group_loop dl [] []) as [groups current]. reflexivity.
Qed.

(** When the lines are the lines [pre], the headers and the lines [rest],
    and every header occurs once, the data lines are [rest]. *)
Lemma data_lines_after : forall ocr headers pre rest,
  ocr_lines ocr = pre ++ headers ++ rest ->
  headers <> [] ->
  forallb (header_like (ocr_lines ocr)) headers = true ->
  data_lines_of ocr headers false = Ok rest.
Proof.
  intros ocr headers pre rest Elines Hhs Hlike.
  destruct (exists_last Hhs) as (mid & hl & Ehs).
  unfold data_lines_of.
  assert (Hlast : last_item headers = Ok hl).
  { unfold last_item. rewrite Ehs, rev_app_distr. reflexivity. }
  rewrite Hlast. cbn [bind].
  rewrite forallb_forall in Hlike.
  assert (Hhl : line_count (ocr_lines ocr) hl = 1).
  { assert (Hin : In hl headers).
    { rewrite Ehs. apply in_or_app. right. left. reflexivity. }
    specialize (Hlike hl Hin). unfold header_like in Hlike.
    apply andb_true_iff in Hlike. destruct Hlike as [_ H].
    apply Nat.eqb_eq in H. exact H. }
  assert (E1 : ocr_lines ocr = (pre ++ mid) ++ hl :: rest).
  { rewrite Elines, Ehs. rewrite <- !app_assoc. reflexivity. }
  destruct (count_unique_split _ _ _ _ E1 Hhl) as [Hn1 _].
  unfold index_of. rewrite E1 at 1.
  rewrite find_index_first by assumption. cbn [bind].
  rewrite E1.
  replace ((pre ++ mid) ++ hl :: rest)
    with (((pre ++ mid) ++ [hl]) ++ rest)
    by (rewrite <- app_assoc; reflexivity).
  rewrite skipn_app_length
    by (rewrite (length_app (pre ++ mid) [hl]); reflexivity).
  reflexivity.
Qed.

Lemma detected_rest : forall ocr headers,
  _detect_image_table ocr = Some headers ->
  exists rest, data_lines_of ocr headers false = Ok rest.
Proof.
  intros ocr headers Hdet.
  destruct (detect_headers_position ocr headers Hdet)
    as (pre & rest & Elines & Hlen & Hlike).
  exists rest. apply (data_lines_after ocr headers pre rest); auto.
  intros ->. simpl in Hlen. lia.
Qed.

Lemma on_picture_returns : forall st box, exists st', _on_picture st box = Ok st'.
Proof.
  intros st box. unfold _on_picture.
  set (st2 := _flush_pending_table (_flush_text st)).
  assert (Hcont : forall l ls,
            exists st',
              ('(rows, summary) <-
                 _parse_image_table (_match_ocr_text st2 box) (l :: ls) true ;;
               match rows with
               | [] =>
                   Ok (append_block st2
                         (_make_block (heading st2) (Some []) image_text
                            (DataText (_match_ocr_text st2 box))
                            (Some (PageNum (pg st2)))))
               | _ :: _ =>
                   Ok (append_block st2
                         (_make_block (heading st2) (Some []) image_table
                            (DataTable (map Some (l :: ls)) rows summary)
                            (Some (PageNum (pg st2)))))
               end) = Ok st').
  { intros l ls. rewrite parse_image_table_eq. cbn [data_lines_of bind].
    destruct (classify_groups _ _ _ _) as [[|r rows] summary]; eauto. }
  destruct (_detect_image_table (_match_ocr_text st2 box)) as [[|h hs]|]
    eqn:Hdet.
  - destruct (last_img_tbl_headers st2) as [[|l ls]|]; eauto.
    destruct (_match_ocr_text st2 box) as [|c o]; eauto.
  - destruct (detected_rest _ _ Hdet) as (rest & Hdl).
    rewrite parse_image_table_eq, Hdl. cbn [bind].
    destruct (classify_groups _ _ _ _) as [rows summary]. eauto.
  - destruct (last_img_tbl_headers st2) as [[|l ls]|]; eauto.
    destruct (_match_ocr_text st2 box) as [|c o]; eauto.
Qed.

Lemma process_box_returns : forall st box,
  kept st -> Forall rect_table (page_tables st) -> rect_box box ->
  exists st', process_box st box = Ok st'.
Proof.
  intros st box Hk Ht Hb. unfold process_box.
  destruct (str_eqb (boxclass box) (py "section-header")
            || str_eqb (boxclass box) (py "header")); [eauto|].
  destruct (str_eqb (boxclass box) (py "table"));
    [apply on_table_returns; assumption|].
  destruct (str_eqb (boxclass box) (py "picture"));
    [apply on_picture_returns|].
  destruct ((str_eqb (boxclass box) (py "text")
             || str_eqb (boxclass box) (py "list-item"))
            && nonempty (strip (text box))); eauto.
Qed.

Lemma move_tables : forall c st st',
  move c st st' -> page_tables st' = page_tables st.
Proof.
  intros c st st' H.
  destruct H as [st st' [_ _ _ _ F5] | st Hbuf | st pt Hpt | st | st t
                | st b Hd | st p ti de hs rows tab Hnone
                | st pt added tab Hpt]; try reflexivity; try assumption.
  - unfold _flush_text. destruct (text_buf st); reflexivity.
  - unfold _flush_pending_table. destruct (pending_table st); reflexivity.
Qed.

Lemma moves_tables : forall n st st',
  moves n st st' -> page_tables st' = page_tables st.
Proof.
  intros n st st' H. induction H as [n st | c n m st st1 st2 Hm _ IH _];
    [reflexivity|].
  rewrite IH. apply (move_tables c st st1 Hm).
Qed.

Lemma kept_moves : forall n st st', moves n st st' -> kept st -> kept st'.
Proof. apply (P_moves kept kept_move). Qed.

Lemma process_boxes_returns : forall boxes st,
  kept st -> Forall rect_table (page_tables st) -> Forall rect_box boxes ->
  exists st', process_boxes st boxes = Ok st' /\ kept st'.
Proof.
  induction boxes as [|box boxes IH]; intros st Hk Ht Hb;
    cbn [process_boxes]; [eauto|].
  inversion Hb as [|? ? Hbox Hrest]; subst.
  destruct (process_box_returns st box Hk Ht Hbox) as [st1 H1].
  rewrite H1. cbn [bind]. apply process_box_moves in H1.
  apply IH; [|rewrite (moves_tables _ _ _ H1)|]; try assumption.
  apply (kept_moves _ _ _ H1 Hk).
Qed.

Lemma process_pages_returns : forall ps st,
  kept st -> Forall rect_page ps ->
  exists st', process_pages st ps = Ok st'.
Proof.
  induction ps as [|p ps IH]; intros st Hk Hps; cbn [process_pages];
    [eauto|].
  inversion Hps as [|? ? [Htabs Hboxes] Hrest]; subst.
  unfold _process_page.
  destruct (process_boxes_returns (layout_boxes p) (set_page st p))
    as (st1 & H1 & Hk1); [exact Hk | exact Htabs | exact Hboxes |].
  rewrite H1. cbn [bind]. apply IH; assumption.
Qed.



(** ** Documents of plain text *)

(** A box that is no heading, no table and no picture. *)
Definition plain_box (box : layout_box) : bool :=
  let cls := boxclass box in
  negb (str_eqb cls (py "section-header") || str_eqb cls (py "header")
        || str_eqb cls (py "table") || str_eqb cls (py "picture")).

(** A text or list item that is not blank. *)
Definition text_box (box : layout_box) : bool :=
  (str_eqb (boxclass box) (py "text")
   || str_eqb (boxclass box) (py "list-item"))
  && nonempty (strip (text box)).

(** The trimmed texts of the pages, each with the number of its page. *)
Definition page_texts (p : page_data) : list (Z * str) :=
  map (fun box => (page_number p, strip (text box)))
    (filter text_box (layout_boxes p)).

Definition document_texts (ps : list page_data) : list (Z * str) :=
  flat_map page_texts ps.

(** The state while only plain boxes were met: nothing is emitted, and the
    buffer holds the texts [acc]. *)
Record collecting (acc : list (Z * str)) (st : state) : Prop := {
  collecting_blocks : blocks st = [];
  collecting_heading : heading st = None;
  collecting_pending : pending_table st = None;
  collecting_buf : text_buf st = map snd acc;
  collecting_page : text_page st = option_map fst (hd_error acc)
}.

Lemma process_plain_boxes : forall n boxes st acc,
  collecting acc st -> pg st = n -> forallb plain_box boxes = true ->
  exists st',
    process_boxes st boxes = Ok st'
    /\ collecting
         (acc ++ map (fun box => (n, strip (text box))) (filter text_box boxes))
         st'
    /\ pg st' = n.
Proof.
  intros n. induction boxes as [|box boxes IH]; intros st acc Hc Hn Hp.
  - exists st. cbn. rewrite app_nil_r. auto.
  - cbn [forallb] in Hp. apply andb_true_iff in Hp. destruct Hp as [Hb Hp].
    cbn [process_boxes]. unfold process_box. unfold plain_box in Hb.
    apply negb_true_iff in Hb. apply orb_false_iff in Hb.
    destruct Hb as [Hb Hpic]. apply orb_false_iff in Hb.
    destruct Hb as [Hhead Htab]. rewrite Hhead, Htab, Hpic.
    cbn [filter]. fold (text_box box).
    destruct (text_box box) eqn:Ht; cbn [bind map].
    + destruct (IH (_on_text st (strip (text box)))
                  (acc ++ [(n, strip (text box))])) as (st' & H1 & H2 & H3);
        [|exact Hn | exact Hp |].
      * destruct Hc as [C1 C2 C3 C4 C5].
        split; try assumption; cbn.
        -- rewrite C4, map_app. reflexivity.
        -- rewrite C4, C5, Hn. destruct acc; reflexivity.
      * exists st'. rewrite <- app_assoc in H2. auto.
    + apply IH; assumption.
Qed.

Lemma process_plain_pages : forall ps st acc,
  collecting acc st ->
  Forall (fun p => forallb plain_box (layout_boxes p) = true) ps ->
  exists st',
    process_pages st ps = Ok st' /\ collecting (acc ++ document_texts ps) st'.
Proof.
  induction ps as [|p ps IH]; intros st acc Hc Hps.
  - exists st. cbn. rewrite app_nil_r. auto.
  - inversion Hps as [|? ? Hp Hrest]; subst.
    cbn [process_pages]. unfold _process_page.
    destruct (process_plain_boxes (page_number p) (layout_boxes p)
                (set_page st p) acc) as (st1 & H1 & H2 & _);
      [destruct Hc; split; assumption | reflexivity | exact Hp |].
    rewrite H1. cbn [bind].
    destruct (IH st1 _ H2 Hrest) as (st' & H3 & H4).
    exists st'. split; [exact H3|].
    cbn [document_texts flat_map]. unfold page_texts at 1.
    rewrite app_assoc. exact H4.
Qed.

(** The one block of a document of plain text. *)
Definition plain_text_blocks (texts : list (Z * str)) : list block :=
  match texts with
  | [] => []
  | (p, _) :: _ =>
      [ {| title := []; description := []; type := text_block;
           data := DataText (join [NL] (map snd texts));
           page := Some (PageNum p) |} ]
  end.

(** X7: a document without headings, tables and pictures is transformed
    into one text block, without title, that holds the trimmed texts of all
    its text and list-item boxes that are not blank, in reading order and
    joined by newlines, on the page of the first of them; page breaks do not
    split it, and without such a box there is no block at all. *)
Theorem transform_plain_text : forall r,
  Forall (fun p => forallb plain_box (layout_boxes p) = true) (pages r) ->
  transform r
  = Ok {| out_filename := filename r; out_total_pages := total_pages r;
          out_blocks := plain_text_blocks (document_texts (pages r)) |}.
Proof.
  intros r Hr. unfold transform, _run.
  destruct (process_plain_pages (pages r) init []) as (st & H1 & H2);
    [split; reflexivity | exact Hr |].
  rewrite H1. cbn [bind app] in *. f_equal. f_equal.
  destruct H2 as [C1 C2 C3 C4 C5].
  rewrite flush_pending_none
    by (unfold _flush_text; destruct (text_buf st); cbn; exact C3).
  unfold _flush_text, plain_text_blocks. rewrite C4.
  destruct (document_texts (pages r)) as [|[p t] texts]; cbn [map].
  - exact C1.
  - cbn. rewrite C1, C2, C5. reflexivity.
Qed.

(** Two pages of notes: a caption and a blank text among three texts. *)
Definition sample_notes : raw :=
  {| filename := py "notes.pdf";
     total_pages := 2;
     pages :=
       [ {| page_number := 3; tables := []; images := [];
            layout_boxes :=
              [ sample_box "caption" 0 "Notes";
                sample_box "text" 20 "  first  ";
                sample_box "text" 40 "   " ] |};
         {| page_number := 4; tables := []; images := [];
            layout_boxes :=
              [ sample_box "list-item" 0 "second";
                sample_box "text" 20 "third" ] |} ] |}.

Lemma transform_plain_text_witness :
  transform sample_notes
  = Ok {| out_filename := py "notes.pdf"; out_total_pages := 2;
          out_blocks :=
            [ {| title := []; description := []; type := text_block;
                 data := DataText
                           (py "first" ++ [NL] ++ py "second" ++ [NL]
                            ++ py "third");
                 page := Some (PageNum 3) |} ] |}.
Proof.
  apply (transform_plain_text sample_notes).
  repeat constructor.
Defined.

(** ** Lines *)

Lemma split_nonempty : forall sep s, split sep s <> [].
Proof.
  intros sep s. destruct s as [|c s]; cbn [split]; [discriminate|].
  destruct (Ascii.eqb c sep); [discriminate|].
  destruct (split sep s); discriminate.
Qed.

(** Splitting at a separator splits both sides of it. *)
Lemma split_app_sep : forall sep a b,
  split sep (a ++ sep :: b) = split sep a ++ split sep b.
Proof.
  intros sep. induction a as [|c a IH]; intros b; cbn [app split].
  - rewrite Ascii.eqb_refl. reflexivity.
  - destruct (Ascii.eqb c sep); rewrite IH; [reflexivity|].
    pose proof (split_nonempty sep a) as Hne.
    destruct (split sep a) as [|cur rest]; [congruence | reflexivity].
Qed.

Lemma split_no_sep : forall sep s,
  has_char sep s = false -> split sep s = [s].
Proof.
  intros sep. unfold has_char.
  induction s as [|c s IH]; cbn [existsb split]; [reflexivity|].
  intros H. apply orb_false_iff in H. destruct H as [Hc Hs].
  rewrite Ascii.eqb_sym, Hc, (IH Hs). reflexivity.
Qed.

Lemma has_char_app : forall c a b,
  has_char c (a ++ b) = has_char c a || has_char c b.
Proof. intros c a b. apply existsb_app. Qed.

(** The last occurrence of a character. *)
Lemma last_occurrence : forall c s,
  has_char c s = true ->
  exists before rest, s = before ++ c :: rest /\ has_char c rest = false.
Proof.
  intros c. unfold has_char.
  induction s as [|d s IH]; cbn [existsb]; [discriminate|].
  intros H. destruct (existsb (Ascii.eqb c) s) eqn:Hs.
  - destruct (IH eq_refl) as (before & rest & -> & Hr).
    exists (d :: before), rest. auto.
  - rewrite orb_false_r in H. apply Ascii.eqb_eq in H. subst d.
    exists [], s. auto.
Qed.

Lemma last_snoc : forall (A : Type) (l : list A) x d, last (l ++ [x]) d = x.
Proof. intros A l x d. apply last_last. Qed.

Lemma last_line : forall s before rest,
  s = before ++ NL :: rest -> has_char NL rest = false ->
  last (split NL s) [] = rest.
Proof.
  intros s before rest -> Hr.
  rewrite split_app_sep, (split_no_sep NL rest Hr). apply last_snoc.
Qed.

Lemma strip_keeps_lines : forall c s,
  has_char c s = false -> has_char c (strip s) = false.
Proof.
  intros c s H. destruct (strip_spec s) as (sp1 & sp2 & E & _).
  rewrite E, !has_char_app in H.
  apply orb_false_iff in H. destruct H as [_ H].
  apply orb_false_iff in H. destruct H as [H _]. exact H.
Qed.

(** ** Headings *)

(** X8: a heading box closes what came before, and the heading kept is
    one line: the text of the box as it is when it holds no newline, and
    otherwise what follows its last newline, trimmed.  The text buffer and
    the pending table are flushed. *)
Theorem on_heading_last_line : forall st t,
  exists h,
    heading (_on_heading st t) = Some h
    /\ has_char NL h = false
    /\ (has_char NL t = false -> h = t)
    /\ (has_char NL t = true ->
        exists before rest,
          t = before ++ NL :: rest /\ has_char NL rest = false
          /\ h = strip rest)
    /\ text_buf (_on_heading st t) = []
    /\ pending_table (_on_heading st t) = None.
Proof.
  intros st t. unfold _on_heading. cbn [heading set_heading text_buf
    pending_table].
  eexists. split; [reflexivity|].
  rewrite text_buf_flush_pending, text_flushed, pending_flushed.
  destruct (has_char NL t) eqn:Hn.
  - destruct (last_occurrence NL t Hn) as (before & rest & E & Hr).
    rewrite (last_line t before rest E Hr).
    split; [apply strip_keeps_lines, Hr|].
    split; [discriminate|]. split; [|auto].
    intros _. exists before, rest. auto.
  - split; [exact Hn|]. split; [reflexivity|]. split; [discriminate | auto].
Qed.

(** ** Text before a table *)

(** Does the table box resolve to table data in state [st]: a table of the
    page is left, or the box carries one? *)
Definition has_table_data (st : state) (box : layout_box) : bool :=
  is_some (nth_error (page_tables st) (table_idx st))
  || is_some (box_layout_table box).

Lemma resolve_table_data_some : forall st box st1 resolved,
  has_table_data st box = true ->
  _resolve_table_data st box = Ok (st1, resolved) ->
  resolved <> None.
Proof.
  intros st box st1 resolved Hd. unfold _resolve_table_data.
  unfold has_table_data in Hd.
  destruct (nth_error (page_tables st) (table_idx st)) as [tab|].
  - destruct (mapM _clean_cell (header_names tab)); [|discriminate].
    destruct (mapM (mapM _clean_cell) (cells tab)); [|discriminate].
    cbn [bind]. intros E. injection E as _ <-. discriminate.
  - destruct (box_layout_table box) as [lt|]; [|discriminate].
    destruct (mapM (mapM _clean_cell) (lt_cells lt)); [|discriminate].
    cbn [bind]. intros E. injection E as _ <-. discriminate.
Qed.

Lemma resolve_title_text : forall st st2 td,
  _resolve_title_description st = (st2, td) ->
  text_buf st2 = [] /\ text_page st2 = None \/ text_buf st = [] /\ st2 = st.
Proof.
  intros st st2 td. unfold _resolve_title_description.
  destruct (text_buf st) eqn:Hb; intros E; injection E as <- _.
  - right. auto.
  - left. split; reflexivity.
Qed.

Lemma blocks_flush_pending_some : forall st pt,
  pending_table st = Some pt ->
  length (blocks (_flush_pending_table st)) = S (length (blocks st)).
Proof.
  intros st pt H. rewrite (flush_pending_some st pt H). cbn.
  rewrite length_app. cbn. lia.
Qed.

(** X9: a table box that resolves to table data takes the buffered text:
    the buffer is empty afterwards.  When the table is merged into the
    pending table (there is one, and no block is appended), the text is
    dropped: the pending table keeps its title, description and headers,
    and the text is in no block. *)
Theorem table_takes_text : forall st box st',
  has_table_data st box = true ->
  _on_table st box = Ok st' ->
  text_buf st' = []
  /\ forall pt,
       pending_table st = Some pt -> blocks st' = blocks st ->
       exists pt',
         pending_table st' = Some pt'
         /\ pt_title pt' = pt_title pt
         /\ pt_description pt' = pt_description pt
         /\ pt_headers pt' = pt_headers pt.
Proof.
  intros st box st' Hd H. apply on_table_cases in H.
  destruct H as (st1 & resolved & Hres & Hout).
  pose proof (resolve_table_data_some (set_last_img_tbl_headers st None) box
                st1 resolved Hd Hres) as Hsome.
  apply resolve_table_data_frame in Hres.
  destruct Hres as [Fb _ _ Fp _]. cbn in Fb, Fp.
  destruct resolved as [[[headers all_rows] tab]|]; [|congruence].
  assert (Hbuf : forall st2 td,
            _resolve_title_description st1 = (st2, td) -> text_buf st2 = []).
  { intros st2 td Htd. apply resolve_title_text in Htd.
    destruct Htd as [[E _] | [E ->]]; exact E. }
  assert (Hgrow : forall st2 td pt,
            _resolve_title_description st1 = (st2, td) ->
            pending_table st = Some pt ->
            length (blocks (_flush_pending_table st2))
            = S (length (blocks st))).
  { intros st2 td pt Htd Hpt. apply resolve_title_context in Htd.
    destruct Htd as (_ & Hb2 & Hp2).
    rewrite (blocks_flush_pending_some st2 pt) by congruence. congruence. }
  destruct Hout as [st2 ti de kvd Htd _ _ ->
                   | st2 td pt0 Htd _ Hpt _ ->
                   | st2 td pt0 L Htd _ Hpt _ _ _ _ ->
                   | st2 ti de Htd _ ->].
  - split.
    + cbn. rewrite text_buf_flush_pending. apply (Hbuf _ _ Htd).
    + intros pt Hpt Hb. exfalso. apply (f_equal (@length block)) in Hb.
      cbn in Hb. rewrite length_app in Hb.
      rewrite (Hgrow _ _ pt Htd Hpt) in Hb. cbn in Hb. lia.
  - split; [cbn; apply (Hbuf _ _ Htd)|].
    intros pt Hp _. apply resolve_title_context in Htd.
    destruct Htd as (_ & _ & Hp2).
    assert (pt0 = pt) by congruence. subst pt0.
    eexists. split; [reflexivity|]. repeat split; reflexivity.
  - split; [cbn; apply (Hbuf _ _ Htd)|].
    intros pt Hp _. apply resolve_title_context in Htd.
    destruct Htd as (_ & _ & Hp2).
    assert (pt0 = pt) by congruence. subst pt0.
    eexists. split; [reflexivity|]. repeat split; reflexivity.
  - split.
    + cbn. rewrite text_buf_flush_pending. apply (Hbuf _ _ Htd).
    + intros pt Hpt Hb. exfalso. apply (f_equal (@length block)) in Hb.
      cbn in Hb. rewrite (Hgrow _ _ pt Htd Hpt) in Hb. lia.
Qed.

(** The sample report at the table of its second page, with a text met
    before it. *)
Definition sample_pending : pending :=
  {| pt_page := [1%Z]; pt_title := Some (py "Costs");
     pt_description := Some (py "All costs in cents.");
     pt_headers := [scell "Item"; scell "Cost"];
     pt_rows := [ [scell "Pen"; scell "$1.00"] ];
     pt_summary_row := None;
     pt_raw_headers := [scell "Item"; scell "Cost"];
     pt_trailing := None |}.

Definition sample_merging_state : state :=
  {| blocks := []; heading := Some (py "Costs");
     text_buf := [py "continued from page 1"]; text_page := Some 2%Z;
     pending_table := Some sample_pending;
     last_img_tbl_headers := None;
     pg := 2; page_tables := [sample_continued]; page_images := [];
     table_idx := 0 |}.

Definition sample_merged_state : state :=
  {| blocks := []; heading := Some (py "Costs");
     text_buf := []; text_page := None;
     pending_table :=
       Some {| pt_page := [1%Z; 2%Z]; pt_title := Some (py "Costs");
               pt_description := Some (py "All costs in cents.");
               pt_headers := [scell "Item"; scell "Cost"];
               pt_rows := [ [scell "Pen"; scell "$1.00"];
                            [scell "Ink"; scell "$2.50"] ];
               pt_summary_row := Some [scell "Total"; scell "$3.50"];
               pt_raw_headers := [scell "Item"; scell "Cost"];
               pt_trailing := None |};
     last_img_tbl_headers := None;
     pg := 2; page_tables := [sample_continued]; page_images := [];
     table_idx := 1 |}.

Lemma table_takes_text_witness :
  text_buf sample_merged_state = []
  /\ forall pt,
       pending_table sample_merging_state = Some pt ->
       blocks sample_merged_state = blocks sample_merging_state ->
       exists pt',
         pending_table sample_merged_state = Some pt'
         /\ pt_title pt' = pt_title pt
         /\ pt_description pt' = pt_description pt
         /\ pt_headers pt' = pt_headers pt.
Proof.
  apply (table_takes_text sample_merging_state (sample_box "table" 0 "")).
  - reflexivity.
  - vm_compute. reflexivity.
Defined.

(** ** Image tables *)

Lemma ocr_lines_solid : forall t,
  Forall (fun l => l <> [] /\ strip l = l) (ocr_lines t).
Proof.
  intros t. rewrite Forall_forall. intros l Hl. unfold ocr_lines in Hl.
  apply filter_In in Hl. destruct Hl as [Hin Hne]. split.
  - intros ->. discriminate.
  - apply in_map_iff in Hin. destruct Hin as (x & <- & _).
    apply strip_id, strip_trimmed.
Qed.

Lemma take_while_length : forall (A : Type) (p : A -> bool) l,
  length (take_while p l) <= length l.
Proof.
  intros A p. induction l as [|x l IH]; cbn [take_while length]; [lia|].
  destruct (p x); cbn [length]; lia.
Qed.

(** Where detection finds the headers: after at most one title line, which
    is longer than 30 characters, and before at least twice as many
    lines. *)
Lemma detect_layout : forall ocr headers,
  _detect_image_table ocr = Some headers ->
  exists pre rest,
    ocr_lines ocr = pre ++ headers ++ rest
    /\ (pre = [] \/ exists first, pre = [first] /\ 30 < length first)
    /\ 2 <= length headers <= 6
    /\ forallb (header_like (ocr_lines ocr)) headers = true
    /\ 2 * length headers <= length rest.
Proof.
  intros ocr headers. rewrite detect_image_table_spec. unfold detect_spec.
  set (lines := ocr_lines ocr).
  destruct (length lines <? 5); [discriminate|].
  set (body := match lines with
               | [] => []
               | first :: rest => if 30 <? length first then rest else lines
               end).
  set (hs := take_while (header_like lines) (firstn 6 body)).
  destruct ((2 <=? length hs) && _) eqn:Hc; [|discriminate].
  intros E. injection E as <-.
  apply andb_true_iff in Hc. destruct Hc as [H2 H3].
  apply Nat.leb_le in H2, H3.
  destruct (take_while_prefix _ (header_like lines) (firstn 6 body))
    as [rest1 E1].
  fold hs in E1.
  assert (Ebody : exists pre,
            lines = pre ++ body
            /\ (pre = [] \/ exists first, pre = [first] /\ 30 < length first)).
  { unfold body. destruct lines as [|first rest];
      [exists []; split; [reflexivity | left; reflexivity]|].
    destruct (30 <? length first) eqn:E30.
    - exists [first]. split; [reflexivity|]. right. exists first.
      split; [reflexivity | apply Nat.ltb_lt, E30].
    - exists []. split; [reflexivity | left; reflexivity]. }
  destruct Ebody as (pre & Epre & Hpre).
  assert (Eb : body = hs ++ rest1 ++ skipn 6 body).
  { rewrite app_assoc, <- E1. symmetry. apply firstn_skipn. }
  exists pre, (rest1 ++ skipn 6 body). split; [|split; [|split; [|split]]].
  - rewrite Epre at 1. f_equal. exact Eb.
  - exact Hpre.
  - split; [exact H2|]. unfold hs.
    pose proof (take_while_length _ (header_like lines) (firstn 6 body)).
    pose proof (firstn_le_length 6 body). rewrite length_firstn in *. lia.
  - apply take_while_all.
  - apply (f_equal (@length str)) in Eb. rewrite length_app in Eb. lia.
Qed.

Lemma header_like_spec : forall lines h,
  header_like lines h = true -> length h < 30 /\ line_count lines h = 1.
Proof.
  intros lines h H. unfold header_like in H. apply andb_true_iff in H.
  destruct H as [H1 H2]. apply Nat.ltb_lt in H1. apply Nat.eqb_eq in H2.
  auto.
Qed.

(** X10: the headers [_detect_image_table] returns are between two and six
    lines of the OCR text, each trimmed, not empty and shorter than 30
    characters, and no two of them are equal; the text has at least three
    times as many lines that are not blank. *)
Theorem detected_headers_shape : forall ocr headers,
  _detect_image_table ocr = Some headers ->
  2 <= length headers <= 6
  /\ NoDup headers
  /\ Forall (fun h => h <> [] /\ strip h = h /\ length h < 30) headers
  /\ 3 * length headers <= length (ocr_lines ocr).
Proof.
  intros ocr headers H.
  destruct (detect_layout ocr headers H)
    as (pre & rest & E & _ & Hlen & Hlike & Hrest).
  rewrite forallb_forall in Hlike.
  split; [exact Hlen|]. split; [|split].
  - apply (NoDup_count_occ str_eq_dec). intros x.
    destruct (in_dec str_eq_dec x headers) as [Hin | Hn].
    + destruct (header_like_spec _ _ (Hlike x Hin)) as [_ Hc].
      unfold line_count in Hc. rewrite E, !count_occ_app in Hc. lia.
    + apply (count_occ_not_In str_eq_dec) in Hn. lia.
  - rewrite Forall_forall. intros h Hin.
    destruct (header_like_spec _ _ (Hlike h Hin)) as [H30 _].
    pose proof (ocr_lines_solid ocr) as Hs. rewrite Forall_forall in Hs.
    destruct (Hs h) as [Hne Hst].
    { rewrite E. apply in_or_app. right. apply in_or_app. left. exact Hin. }
    auto.
  - rewrite E, !length_app. lia.
Qed.

(** The text of a scanned price list: two headers, then two rows for the
    same fruit. *)
Definition fruit_prices : str :=
  py "Fruit" ++ [NL] ++ py "Price" ++ [NL]
  ++ py "Apple" ++ [NL] ++ py "$1" ++ [NL]
  ++ py "Apple" ++ [NL] ++ py "$2".

Lemma detected_headers_shape_witness :
  2 <= length [py "Fruit"; py "Price"] <= 6
  /\ NoDup [py "Fruit"; py "Price"]
  /\ Forall (fun h => h <> [] /\ strip h = h /\ length h < 30)
       [py "Fruit"; py "Price"]
  /\ 3 * length [py "Fruit"; py "Price"] <= length (ocr_lines fruit_prices).
Proof.
  apply (detected_headers_shape fruit_prices).
  vm_compute. reflexivity.
Defined.

(** *** Row groups *)

(** A group that is not empty and in which no line after the first starts
    a row. *)
Definition group_ok (g : list str) : Prop :=
  match g with
  | [] => False
  | _ :: lines => forallb (fun l => negb (is_row_start l)) lines = true
  end.

(** A group whose first line starts a row. *)
Definition group_starts (g : list str) : Prop :=
  match g with
  | [] => False
  | l :: _ => is_row_start l = true
  end.

Lemma group_ok_snoc : forall g l,
  g <> [] -> group_ok g -> is_row_start l = false -> group_ok (g ++ [l]).
Proof.
  intros [|x g] l Hne Hg Hl; [congruence|]. cbn in *.
  rewrite forallb_app, Hg. cbn. rewrite Hl. reflexivity.
Qed.

(** The grouping loop, started with the groups [gs] and the open group
    [cur]. *)
Lemma group_loop_spec : forall dl gs cur gs' cur',
  group_loop dl gs cur = (gs', cur') ->
  Forall group_ok gs -> Forall group_starts (tl (gs ++ [cur])) ->
  (cur = [] -> gs = []) -> (cur <> [] -> group_ok cur) ->
  concat gs' ++ cur' = concat gs ++ cur ++ dl
  /\ Forall group_ok gs'
  /\ Forall group_starts (tl (gs' ++ [cur']))
  /\ (cur' = [] -> gs' = [] /\ dl = [])
  /\ (cur' <> [] -> group_ok cur').
Proof.
  induction dl as [|line dl IH]; intros gs cur gs' cur' H Hgs Hst Hc Hcur;
    cbn [group_loop] in H.
  - injection H as <- <-. rewrite app_nil_r.
    repeat split; auto.
  - destruct (is_row_start line && nonempty cur) eqn:E.
    + apply andb_true_iff in E. destruct E as [Hl Hne].
      assert (Hne' : cur <> []) by (intros ->; discriminate).
      apply IH in H.
      * destruct H as (H1 & H2 & H3 & H4 & H5).
        split; [|split; [|split; [|split]]]; auto.
        -- rewrite H1, concat_app. cbn [concat]. rewrite app_nil_r.
           rewrite <- !app_assoc. reflexivity.
        -- intros E'. destruct (H4 E') as [E1 _]. subst gs' cur'.
           exfalso. apply (f_equal (@length str)) in H1.
           rewrite !length_app in H1. cbn in H1. lia.
      * apply Forall_app. split; [exact Hgs|]. repeat constructor. auto.
      * destruct gs as [|g gs].
        -- cbn. repeat constructor. exact Hl.
        -- cbn [app tl] in *. rewrite <- app_assoc. cbn [app].
           apply Forall_app in Hst. destruct Hst as [Hst1 Hst2].
           apply Forall_app. split; [exact Hst1|].
           inversion Hst2; subst. repeat constructor; auto.
      * discriminate.
      * intros _. reflexivity.
    + assert (Hcase : cur = [] \/ (cur <> [] /\ is_row_start line = false)).
      { destruct cur; [left; reflexivity|]. right. split; [discriminate|].
        cbn in E. rewrite andb_true_r in E. exact E. }
      apply IH in H.
      * destruct H as (H1 & H2 & H3 & H4 & H5).
        split; [|split; [|split; [|split]]]; auto.
        -- rewrite H1, <- !app_assoc. reflexivity.
        -- intros E'. destruct (H4 E') as [E1 _]. subst gs' cur'.
           exfalso. apply (f_equal (@length str)) in H1.
           rewrite !length_app in H1. cbn in H1. lia.
      * exact Hgs.
      * destruct Hcase as [-> | [Hne Hl]].
        -- rewrite (Hc eq_refl). cbn. constructor.
        -- destruct gs as [|g gs]; [cbn; constructor|].
           cbn [app tl] in *.
           apply Forall_app in Hst. destruct Hst as [Hst1 Hst2].
           apply Forall_app. split; [exact Hst1|].
           inversion Hst2; subst. repeat constructor.
           destruct cur; [congruence | assumption].
      * intros E'. apply app_eq_nil in E'. destruct E' as [_ E']. discriminate.
      * intros _. destruct Hcase as [-> | [Hne Hl]]; [reflexivity|].
        apply group_ok_snoc; auto.
Qed.

(** Put one after the other, the row groups are the data lines. *)
Lemma row_groups_concat : forall dl, concat (row_groups_of dl) = dl.
Proof.
  intros dl. unfold row_groups_of.
  destruct (group_loop dl [] []) as [gs cur] eqn:H.
  apply group_loop_spec in H; [|constructor | constructor | auto | congruence].
  destruct H as (H1 & _ & _ & H4 & _). cbn [concat app] in H1.
  destruct cur as [|c cur]; cbn [nonempty].
  - destruct (H4 eq_refl) as [-> ->]. reflexivity.
  - rewrite concat_app. cbn [concat]. rewrite app_nil_r. exact H1.
Qed.

(** X11: the row groups [_parse_image_table] forms are a partition of the
    data lines into runs: put one after the other they are the data lines;
    no group is empty; within a group no line after the first starts a row;
    and every group after the first begins with a line that starts a row. *)
Theorem row_groups_partition : forall data_lines,
  concat (row_groups_of data_lines) = data_lines
  /\ Forall group_ok (row_groups_of data_lines)
  /\ Forall group_starts (tl (row_groups_of data_lines)).
Proof.
  intros dl. unfold row_groups_of.
  destruct (group_loop dl [] []) as [gs cur] eqn:H.
  apply group_loop_spec in H; [|constructor | constructor | auto | congruence].
  destruct H as (H1 & H2 & H3 & H4 & H5). cbn [concat app] in H1.
  destruct cur as [|c cur]; cbn [nonempty].
  - destruct (H4 eq_refl) as [-> ->]. repeat split; constructor.
  - split; [|split].
    + rewrite concat_app. cbn [concat]. rewrite app_nil_r. exact H1.
    + apply Forall_app. split; [exact H2|]. repeat constructor.
      apply H5. discriminate.
    + exact H3.
Qed.

(** *** Rows of an image table *)

Lemma pad_group_length : forall ncols g,
  1 <= ncols -> length (pad_group ncols g) = ncols.
Proof.
  intros n g Hn. unfold pad_group.
  destruct (n <=? length g) eqn:E.
  - apply Nat.leb_le in E. rewrite length_app, length_map. cbn [length].
    unfold slice_to, slice_index. rewrite length_firstn.
    replace (Z.of_nat n - 1 <? 0)%Z with false
      by (symmetry; apply Z.ltb_ge; lia).
    lia.
  - apply Nat.leb_gt in E. rewrite length_app, length_map, repeat_length.
    lia.
Qed.

Lemma last_error_in : forall (A : Type) (l : list A) x,
  last_error l = Some x -> In x l.
Proof.
  intros A l x H. unfold last_error in H. apply in_rev.
  destruct (rev l); [discriminate|]. injection H as <-. left. reflexivity.
Qed.

(** What [classify_groups] returns is made of the padded groups. *)
Lemma classify_groups_in : forall ncols groups rows summary,
  classify_groups ncols groups [] None = (rows, summary) ->
  (forall r, In r rows -> In r (map (pad_group ncols) groups))
  /\ (forall s, summary = Some s -> In s (map (pad_group ncols) groups)).
Proof.
  intros n groups rows summary H.
  rewrite classify_groups_rows, classify_rows_spec in H.
  injection H as <- <-. split.
  - intros r Hr. cbn [app] in Hr. unfold data_rows_of in Hr.
    apply filter_In in Hr. tauto.
  - intros s Hs. unfold last_summary_of in Hs.
    destruct (last_error (filter _is_summary_row (map (pad_group n) groups)))
      as [r|] eqn:E; [|discriminate].
    injection Hs as <-. apply last_error_in in E.
    apply filter_In in E. tauto.
Qed.

(** X12: under at least one header, every row [_parse_image_table]
    returns, and the summary row, has exactly as many cells as there are
    headers: a short group is filled up with null cells, and the lines of a
    long group beyond the last column are joined into the last cell. *)
Theorem image_table_row_width : forall ocr headers skip_header rows summary,
  headers <> [] ->
  _parse_image_table ocr headers skip_header = Ok (rows, summary) ->
  Forall (fun r => length r = length headers) rows
  /\ forall s, summary = Some s -> length s = length headers.
Proof.
  intros ocr headers skip rows summary Hne H.
  rewrite parse_image_table_eq in H.
  destruct (data_lines_of ocr headers skip) as [dl|x]; [|discriminate].
  cbn [bind] in H. injection H as H.
  apply classify_groups_in in H. destruct H as [Hr Hs].
  assert (Hn : 1 <= length headers)
    by (destruct headers; [congruence | cbn; lia]).
  assert (Hpad : forall r,
            In r (map (pad_group (length headers)) (row_groups_of dl)) ->
            length r = length headers).
  { intros r Hin. apply in_map_iff in Hin. destruct Hin as (g & <- & _).
    apply pad_group_length, Hn. }
  split.
  - rewrite Forall_forall. intros r Hin. apply Hpad, Hr, Hin.
  - intros s E. apply Hpad, Hs, E.
Qed.

(** Three columns over the lines of a price list: the first group is one
    line short, the second one line long. *)
Definition ragged_prices : str :=
  py "Apple" ++ [NL] ++ py "$1" ++ [NL]
  ++ py "Pear" ++ [NL] ++ py "$2" ++ [NL] ++ py "1 kg" ++ [NL]
  ++ py "2 kg".

Lemma image_table_row_width_witness :
  Forall (fun r => length r = 3)
    [ [scell "Apple"; scell "$1"; None];
      [scell "Pear"; scell "$2"; scell "1 kg 2 kg"] ]
  /\ forall s, (None : option row) = Some s -> length s = 3.
Proof.
  apply (image_table_row_width ragged_prices
           [py "Fruit"; py "Price"; py "Note"] true).
  - discriminate.
  - vm_compute. reflexivity.
Defined.

Lemma classify_groups_some : forall ncols groups rows summary,
  groups <> [] ->
  classify_groups ncols groups [] None = (rows, summary) ->
  rows <> [] \/ summary <> None.
Proof.
  intros n groups rows summary Hne H.
  rewrite classify_groups_rows, classify_rows_spec in H.
  injection H as <- <-. cbn [app].
  destruct groups as [|g groups]; [congruence|]. cbn [map].
  unfold data_rows_of, last_summary_of. cbn [filter].
  destruct (_is_summary_row (pad_group n g)) eqn:E; cbn [negb].
  - right. rewrite last_error_cons.
    destruct (last_error _); discriminate.
  - left. discriminate.
Qed.

(** X13: on the headers [_detect_image_table] has found in an OCR text,
    [_parse_image_table] raises nothing.  The headers stand after at most
    one title line, the rows are read from the lines after the last header
    and from no other line, there are at least twice as many of these lines
    as headers, and the table is not empty: it has a row or a summary
    row. *)
Theorem detected_table_parses : forall ocr headers,
  _detect_image_table ocr = Some headers ->
  exists pre rest rows summary,
    ocr_lines ocr = pre ++ headers ++ rest
    /\ length pre <= 1
    /\ 2 * length headers <= length rest
    /\ _parse_image_table ocr headers false = Ok (rows, summary)
    /\ classify_groups (length headers) (row_groups_of rest) [] None
       = (rows, summary)
    /\ (rows <> [] \/ summary <> None).
Proof.
  intros ocr headers Hdet.
  destruct (detect_layout ocr headers Hdet)
    as (pre & rest & E & Hpre & Hlen & Hlike & Hrest).
  assert (Hdl : data_lines_of ocr headers false = Ok rest).
  { apply (data_lines_after ocr headers pre rest); auto.
    intros ->. cbn in Hlen. lia. }
  destruct (classify_groups (length headers) (row_groups_of rest) [] None)
    as [rows summary] eqn:Hc.
  exists pre, rest, rows, summary.
  split; [exact E|]. split; [destruct Hpre as [-> | (f & -> & _)]; cbn; lia|].
  split; [exact Hrest|].
  split; [rewrite parse_image_table_eq, Hdl; cbn [bind]; rewrite Hc;
          reflexivity|].
  split; [exact Hc|].
  apply (classify_groups_some (length headers) (row_groups_of rest)); [|exact Hc].
  intros Hg. pose proof (row_groups_concat rest) as Hcat.
  rewrite Hg in Hcat. cbn in Hcat. subst rest. cbn in Hrest. lia.
Qed.

Lemma detected_table_parses_witness :
  exists pre rest rows summary,
    ocr_lines fruit_prices = pre ++ [py "Fruit"; py "Price"] ++ rest
    /\ length pre <= 1
    /\ 2 * length [py "Fruit"; py "Price"] <= length rest
    /\ _parse_image_table fruit_prices [py "Fruit"; py "Price"] false
       = Ok (rows, summary)
    /\ classify_groups (length [py "Fruit"; py "Price"]) (row_groups_of rest)
         [] None
       = (rows, summary)
    /\ (rows <> [] \/ summary <> None).
Proof.
  apply (detected_table_parses fruit_prices [py "Fruit"; py "Price"]).
  vm_compute. reflexivity.
Defined.

Lemma find_index_none : forall (A : Type) (p : A -> bool) l,
  find_index p l = None <-> forall x, In x l -> p x = false.
Proof.
  intros A p. induction l as [|a l IH]; cbn [find_index].
  - split; [intros _ x [] | reflexivity].
  - destruct (p a) eqn:Ha.
    + split; [discriminate|]. intros H. specialize (H a (or_introl eq_refl)).
      congruence.
    + destruct (find_index p l) as [i|].
      * split; [discriminate|]. intros H. exfalso.
        assert (Hn : Some i = None); [|discriminate].
        apply IH. intros x Hx. apply H. right. exact Hx.
      * split; [|reflexivity]. intros _ x [<- | Hx]; [exact Ha|].
        apply IH; auto.
Qed.

Lemma index_of_raises : forall lines x e,
  index_of lines x = Raise e <-> ~ In x lines /\ e = ValueError.
Proof.
  intros lines x e. unfold index_of.
  destruct (find_index (str_eqb x) lines) as [i|] eqn:E.
  - split; [discriminate|]. intros [Hn _]. exfalso.
    assert (Hnone : find_index (str_eqb x) lines = None).
    { apply find_index_none. intros y Hy.
      destruct (str_eqb x y) eqn:Exy; [|reflexivity].
      apply str_eqb_eq in Exy. subst y. contradiction. }
    congruence.
  - split.
    + intros H. injection H as <-. split; [|reflexivity].
      intros Hin. rewrite find_index_none in E.
      specialize (E x Hin). rewrite str_eqb_refl in E. discriminate.
    + intros [_ ->]. reflexivity.
Qed.

(** X14: what [_parse_image_table] raises.  Told to skip the header it
    raises nothing, whatever the headers.  Otherwise it raises an IndexError
    when the list of headers is empty, a ValueError when the last header is
    not among the trimmed non-blank lines of the OCR text, and nothing in any
    other case. *)
Theorem parse_image_table_raises :
  (forall ocr headers,
     exists rows summary,
       _parse_image_table ocr headers true = Ok (rows, summary))
  /\ (forall ocr headers e,
        _parse_image_table ocr headers false = Raise e <->
        (headers = [] /\ e = IndexError)
        \/ (exists mid last,
              headers = mid ++ [last] /\ ~ In last (ocr_lines ocr)
              /\ e = ValueError)).
Proof.
  split.
  - intros ocr headers. rewrite parse_image_table_eq. cbn [data_lines_of bind].
    destruct (classify_groups _ _ _ _) as [rows summary]. eauto.
  - intros ocr headers e. rewrite parse_image_table_eq. unfold data_lines_of.
    destruct headers as [|h hs].
    + cbn. split.
      * intros H. injection H as <-. left. auto.
      * intros [[_ ->] | (mid & l & E & _)]; [reflexivity|].
        destruct mid; discriminate.
    + assert (Hne : h :: hs <> []) by discriminate.
      destruct (exists_last Hne) as (mid & l & Ehs). rewrite Ehs.
      assert (Hlast : last_item (mid ++ [l]) = Ok l).
      { unfold last_item. rewrite rev_app_distr. reflexivity. }
      rewrite Hlast. cbn [bind].
      destruct (index_of (ocr_lines ocr) l) as [i|x] eqn:Ei; cbn [bind].
      * split; [discriminate|].
        intros [[E _] | (mid' & l' & E & Hn & ->)].
        -- destruct mid; discriminate.
        -- apply app_inj_tail in E. destruct E as [_ <-].
           assert (Hr : index_of (ocr_lines ocr) l = Raise ValueError)
             by (apply index_of_raises; auto).
           congruence.
      * apply index_of_raises in Ei. destruct Ei as [Hn ->]. split.
        -- intros H. injection H as <-. right. exists mid, l. auto.
        -- intros [[E _] | (_ & _ & _ & _ & ->)]; [|reflexivity].
           destruct mid; discriminate.
Qed.

(** ** Substrings and lines *)

Lemma startswith_spec : forall p s,
  startswith p s = true <-> exists b, s = p ++ b.
Proof.
  induction p as [|a p IH]; intros s; cbn [startswith].
  - split; [exists s; reflexivity | reflexivity].
  - destruct s as [|c s].
    + split; [discriminate | intros [b E]; discriminate].
    + rewrite andb_true_iff, Ascii.eqb_eq, IH. split.
      * intros [-> [b ->]]. exists b. reflexivity.
      * intros [b E]. injection E as -> ->. split; [reflexivity | eauto].
Qed.

Lemma contains_spec : forall p s,
  contains p s = true <-> exists a b, s = a ++ p ++ b.
Proof.
  intros p. induction s as [|c s IH]; cbn [contains].
  - rewrite orb_false_r, startswith_spec. split.
    + intros [b E]. exists [], b. exact E.
    + intros (a & b & E). destruct a; [exists b; exact E|discriminate].
  - rewrite orb_true_iff, startswith_spec, IH. split.
    + intros [[b E] | (a & b & E)].
      * exists [], b. exact E.
      * exists (c :: a), b. rewrite E. reflexivity.
    + intros (a & b & E). destruct a as [|d a].
      * left. exists b. exact E.
      * right. injection E as _ E. exists a, b. exact E.
Qed.

Lemma lower_app : forall a b, lower (a ++ b) = lower a ++ lower b.
Proof. intros a b. apply map_app. Qed.

Lemma lower_space : forall c, is_space (lower_char c) = is_space c.
Proof. intros c; char_cases c. Qed.

Lemma lower_lstrip : forall s, lower (lstrip s) = lstrip (lower s).
Proof.
  induction s as [|c s IH]; [reflexivity|].
  cbn [lstrip lower map]. rewrite lower_space.
  destruct (is_space c); [exact IH | reflexivity].
Qed.

Lemma lower_strip : forall s, lower (strip s) = strip (lower s).
Proof.
  intros s. unfold strip, rstrip, lower.
  rewrite map_rev. fold (lower (lstrip (rev (lstrip s)))).
  rewrite lower_lstrip. unfold lower. rewrite map_rev.
  fold (lower (lstrip s)). rewrite lower_lstrip. reflexivity.
Qed.

Lemma contains_lstrip : forall p s,
  p <> [] -> hd_not is_space p -> contains p (lstrip s) = contains p s.
Proof.
  intros p s Hne Hh. destruct p as [|q p]; [congruence|]. cbn in Hh.
  induction s as [|c s IH]; [reflexivity|].
  cbn [lstrip]. destruct (is_space c) eqn:Ec; [|reflexivity].
  rewrite IH. cbn [contains startswith].
  destruct (Ascii.eqb q c) eqn:E; [|reflexivity].
  apply Ascii.eqb_eq in E. congruence.
Qed.

Lemma contains_rev : forall p s,
  contains p s = true -> contains (rev p) (rev s) = true.
Proof.
  intros p s H. apply contains_spec in H. destruct H as (a & b & ->).
  apply contains_spec. exists (rev b), (rev a).
  rewrite !rev_app_distr, app_assoc. reflexivity.
Qed.

(** A word without blanks at its ends that is in a string is in the
    trimmed string. *)
Lemma contains_strip : forall p s,
  p <> [] -> trimmed p -> contains p s = true -> contains p (strip s) = true.
Proof.
  intros p s Hne [Hh Hl] H. unfold strip, rstrip.
  rewrite <- (rev_involutive p). apply contains_rev.
  rewrite contains_lstrip; [|intros E | exact Hl].
  - apply contains_rev. rewrite contains_lstrip; assumption.
  - apply (f_equal (@rev ascii)) in E. rewrite rev_involutive in E.
    cbn in E. congruence.
Qed.

Lemma split_hd : forall sep s, exists b, s = hd [] (split sep s) ++ b.
Proof.
  intros sep. induction s as [|c s [b IH]]; [exists []; reflexivity|].
  cbn [split]. destruct (Ascii.eqb c sep); [exists (c :: s); reflexivity|].
  destruct (split sep s) as [|cur rest]; cbn [hd] in *.
  - exists s. reflexivity.
  - exists b. cbn [app]. f_equal. exact IH.
Qed.

(** A line of a string is a part of it. *)
Lemma split_piece : forall sep s x,
  In x (split sep s) -> exists a b, s = a ++ x ++ b.
Proof.
  intros sep. induction s as [|c s IH]; intros x Hx; cbn [split] in Hx.
  - destruct Hx as [<- | []]. exists [], []. reflexivity.
  - destruct (Ascii.eqb c sep).
    + destruct Hx as [<- | Hx]; [exists [], (c :: s); reflexivity|].
      destruct (IH x Hx) as (a & b & ->). exists (c :: a), b. reflexivity.
    + destruct (split_hd sep s) as [b Eb].
      destruct (split sep s) as [|cur rest]; cbn [hd] in *.
      * destruct Hx as [<- | []]. exists [], s. reflexivity.
      * destruct Hx as [<- | Hx].
        -- exists [], b. cbn [app]. f_equal. exact Eb.
        -- destruct (IH x (or_intror Hx)) as (a & b' & ->).
           exists (c :: a), b'. reflexivity.
Qed.

(** ** Trailing totals *)

(** Does the string hold the word "total", in any case? *)
Definition has_total (s : str) : bool := contains (py "total") (lower s).

Lemma is_total_line_total : forall line, is_total_line line = has_total line.
Proof.
  intros line. unfold is_total_line, has_total. cbn [map existsb].
  rewrite orb_false_r.
  destruct (contains (py "totals") (lower line)) eqn:E;
    [|apply orb_false_r].
  apply contains_spec in E. destruct E as (a & b & E).
  replace (contains (py "total") (lower line)) with true; [reflexivity|].
  symmetry. apply contains_spec. exists a, ("s" :: b). rewrite E.
  reflexivity.
Qed.

Lemma has_total_part : forall a x b,
  has_total x = true -> has_total (a ++ x ++ b) = true.
Proof.
  intros a x b H. unfold has_total in *. apply contains_spec in H.
  destruct H as (u & v & E). apply contains_spec.
  exists (lower a ++ u), (v ++ lower b).
  rewrite !lower_app, E, <- !app_assoc. reflexivity.
Qed.

Lemma has_total_strip : forall s, has_total s = true -> has_total (strip s) = true.
Proof.
  intros s H. unfold has_total in *. rewrite lower_strip.
  apply contains_strip; [discriminate | apply no_space_trimmed; reflexivity
                         | exact H].
Qed.

(** The first element satisfying [p], with what stands before and after
    it. *)
Lemma find_index_split : forall (A : Type) (p : A -> bool) l i d,
  find_index p l = Some i ->
  exists before after,
    l = before ++ nth i l d :: after
    /\ forallb (fun x => negb (p x)) before = true
    /\ p (nth i l d) = true
    /\ skipn (S i) l = after.
Proof.
  intros A p. induction l as [|a l IH]; intros i d H; cbn [find_index] in H;
    [discriminate|].
  destruct (p a) eqn:Ha.
  - injection H as <-. exists [], l. auto.
  - destruct (find_index p l) as [j|]; [|discriminate]. injection H as <-.
    destruct (IH j d eq_refl) as (before & after & E & Hb & Hp & Hs).
    exists (a :: before), after. cbn [nth app forallb skipn].
    rewrite Ha, Hb. cbn. split; [f_equal; exact E | auto].
Qed.

Lemma filter_strip_solid : forall lines,
  Forall (fun v => v <> [] /\ strip v = v) (filter nonempty (map strip lines)).
Proof.
  intros lines. rewrite Forall_forall. intros v Hv.
  apply filter_In in Hv. destruct Hv as [Hin Hne]. split.
  - intros ->. discriminate.
  - apply in_map_iff in Hin. destruct Hin as (x & <- & _).
    apply strip_id, strip_trimmed.
Qed.

(** The lines a result of [_parse_trailing_totals] is made of. *)
Lemma trailing_totals_lines : forall t label values,
  _parse_trailing_totals t = Some (label, values) ->
  exists text before line after,
    t = Some text
    /\ split NL (strip text) = before ++ line :: after
    /\ forallb (fun l => negb (has_total l)) before = true
    /\ has_total line = true
    /\ label = strip line
    /\ values = filter nonempty (map strip after)
    /\ values <> [].
Proof.
  intros t label values H. unfold _parse_trailing_totals in H.
  destruct t as [[|c text0]|]; try discriminate.
  cbv beta iota zeta in H. set (t := c :: text0) in *.
  destruct (find_index is_total_line (split NL (strip t))) as [i|] eqn:Ei;
    [|discriminate].
  destruct (find_index_split str is_total_line _ _ [] Ei)
    as (before & after & E & Hb & Hp & Hs).
  rewrite Hs in H.
  destruct (filter nonempty (map strip after)) as [|v vs] eqn:Ev;
    [discriminate|].
  cbn [nonempty] in H. injection H as <- <-.
  rewrite is_total_line_total in Hp.
  exists t, before, (nth i (split NL (strip t)) []), after.
  split; [reflexivity|]. split; [exact E|]. split.
  { rewrite <- Hb. clear. induction before as [|l before IH]; [reflexivity|].
    cbn [forallb]. rewrite IH, is_total_line_total. reflexivity. }
  split; [exact Hp|]. split; [reflexivity|].
  split; [symmetry; exact Ev | discriminate].
Qed.

(** X15: when [_parse_trailing_totals] finds totals in a text, the label
    is the first line of the trimmed text that holds the word "total" in any
    case, itself trimmed, and the values are the lines after it that are not
    blank, trimmed, in order, and at least one.  So the text has several
    lines, the label holds "total", and no value is empty. *)
Theorem trailing_totals_found : forall t label values,
  _parse_trailing_totals t = Some (label, values) ->
  exists text before line after,
    t = Some text
    /\ split NL (strip text) = before ++ line :: after
    /\ forallb (fun l => negb (has_total l)) before = true
    /\ has_total line = true
    /\ label = strip line
    /\ values = filter nonempty (map strip after)
    /\ has_char NL text = true
    /\ has_total label = true
    /\ values <> []
    /\ Forall (fun v => v <> [] /\ strip v = v) values.
Proof.
  intros t label values H.
  destruct (trailing_totals_lines t label values H)
    as (text0 & before & line & after & -> & E & Hb & Hp & -> & -> & Hne).
  exists text0, before, line, after.
  split; [reflexivity|]. split; [exact E|]. split; [exact Hb|].
  split; [exact Hp|]. split; [reflexivity|]. split; [reflexivity|].
  split; [|split; [apply has_total_strip, Hp | split; [exact Hne|]]].
  - destruct (has_char NL text0) eqn:Hn; [reflexivity|]. exfalso.
    apply (strip_keeps_lines NL) in Hn.
    rewrite (split_no_sep NL _ Hn) in E.
    destruct before as [|b [|b' before]]; try discriminate.
    cbn in E. injection E as _ E. subst after. apply Hne. reflexivity.
  - apply filter_strip_solid.
Qed.

Definition totals_text : str :=
  py "Grand Totals" ++ [NL] ++ py " 1,200 " ++ [NL] ++ [NL] ++ py "340".

Lemma trailing_totals_found_witness :
  exists text before line after,
    Some totals_text = Some text
    /\ split NL (strip text) = before ++ line :: after
    /\ forallb (fun l => negb (has_total l)) before = true
    /\ has_total line = true
    /\ py "Grand Totals" = strip line
    /\ [py "1,200"; py "340"] = filter nonempty (map strip after)
    /\ has_char NL text = true
    /\ has_total (py "Grand Totals") = true
    /\ [py "1,200"; py "340"] <> []
    /\ Forall (fun v => v <> [] /\ strip v = v) [py "1,200"; py "340"].
Proof.
  apply (trailing_totals_found (Some totals_text)).
  vm_compute. reflexivity.
Defined.

(** X16: [_parse_trailing_totals] finds nothing in a text that nowhere
    holds the word "total" in any case, and nothing in a text of a single
    line, whatever the line: a label without a value below it is no
    total. *)
Theorem trailing_totals_absent : forall text,
  has_total text = false \/ has_char NL text = false ->
  _parse_trailing_totals (Some text) = None.
Proof.
  intros text H. unfold _parse_trailing_totals.
  destruct text as [|c text]; [reflexivity|].
  cbv beta iota zeta. set (t := c :: text) in *.
  destruct H as [H | H].
  - replace (find_index is_total_line (split NL (strip t))) with (@None nat);
      [reflexivity|].
    symmetry. apply find_index_none. intros x Hx.
    rewrite is_total_line_total.
    destruct (has_total x) eqn:Ex; [|reflexivity].
    apply split_piece in Hx. destruct Hx as (a & b & E).
    destruct (strip_spec t) as (sp1 & sp2 & Et & _).
    assert (Ht : has_total t = true).
    { rewrite Et, E. apply has_total_part. apply has_total_part. exact Ex. }
    congruence.
  - apply (strip_keeps_lines NL) in H.
    rewrite (split_no_sep NL _ H). cbn [find_index].
    destruct (is_total_line (strip t)); reflexivity.
Qed.

Lemma trailing_totals_absent_witness :
  _parse_trailing_totals (Some (py "Total due: 1,200")) = None.
Proof.
  apply (trailing_totals_absent (py "Total due: 1,200")).
  right. reflexivity.
Defined.

(** ** Amounts *)

Definition digit_step (acc : N) (c : ascii) : N := (acc * 10 + digit_val c)%N.

Lemma of_uint_acc_digits : forall u acc,
  N.pos (Pos.of_uint_acc u acc)
  = fold_left digit_step (uint_digits u) (N.pos acc).
Proof.
  induction u as [|u IH|u IH|u IH|u IH|u IH|u IH|u IH|u IH|u IH|u IH];
    intros acc; cbn [Pos.of_uint_acc uint_digits fold_left];
    [reflexivity|..]; rewrite IH; f_equal; unfold digit_step;
    vm_compute digit_val; lia.
Qed.

Lemma of_uint_digits : forall u,
  N.of_uint u = fold_left digit_step (uint_digits u) 0%N.
Proof.
  unfold N.of_uint.
  induction u as [|u IH|u IH|u IH|u IH|u IH|u IH|u IH|u IH|u IH|u IH];
    cbn [Pos.of_uint uint_digits fold_left]; [reflexivity | exact IH |..];
    rewrite of_uint_acc_digits; reflexivity.
Qed.

(** Reading the decimal writing of a number gives the number. *)
Lemma digits_value_decimal : forall n, digits_value (decimal n) = n.
Proof.
  intros n. unfold digits_value, decimal.
  change (fun acc c => (acc * 10 + digit_val c)%N) with digit_step.
  rewrite <- of_uint_digits. apply DecimalN.Unsigned.of_to.
Qed.

Lemma filter_digits : forall s,
  forallb is_digit s = true -> filter is_digit s = s.
Proof.
  induction s as [|c s IH]; [reflexivity|]. cbn [forallb filter].
  intros H. apply andb_true_iff in H. destruct H as [Hc Hs].
  rewrite Hc, IH; auto.
Qed.

(** The thousands separators are all that grouping adds. *)
Lemma group3_digits : forall n r,
  length r <= n -> forallb is_digit r = true ->
  filter is_digit (group3 r) = r.
Proof.
  induction n as [|n IH]; intros r Hlen Hr.
  - destruct r; [reflexivity | simpl in Hlen; lia].
  - destruct r as [|a [|b [|c [|d t]]]]; try (apply filter_digits; exact Hr).
    change (group3 (a :: b :: c :: d :: t))
      with (a :: b :: c :: "," :: group3 (d :: t)).
    cbn [forallb] in Hr.
    apply andb_true_iff in Hr; destruct Hr as [Ha Hr].
    apply andb_true_iff in Hr; destruct Hr as [Hb Hr].
    apply andb_true_iff in Hr; destruct Hr as [Hc Hr].
    cbn [filter]. rewrite Ha, Hb, Hc.
    change (is_digit ",") with false. cbn iota.
    rewrite IH; [reflexivity | simpl in *; lia | exact Hr].
Qed.

Lemma format_commas_digits : forall n,
  filter is_digit (format_commas n) = decimal n.
Proof.
  intros n. unfold format_commas. rewrite filter_rev.
  rewrite (group3_digits (length (rev (decimal n)))); [|lia|].
  - apply rev_involutive.
  - rewrite forallb_rev. apply uint_digits_digits.
Qed.

(** The number of cents an amount shows: its digits read as one number,
    whatever stands between them. *)
Definition shown_cents (s : str) : N := digits_value (filter is_digit s).

Lemma digits_value_app : forall a b,
  digits_value (a ++ b)
  = fold_left digit_step b (digits_value a).
Proof. intros a b. unfold digits_value. apply fold_left_app. Qed.

Lemma shown_render_cents : forall n, shown_cents (render_cents n) = n.
Proof.
  intros n. unfold shown_cents, render_cents.
  rewrite filter_app, format_commas_digits. cbn [filter].
  change (is_digit ".") with false. cbn iota.
  assert (H1 : (n mod 100 / 10 < 10)%N).
  { apply N.Div0.div_lt_upper_bound. pose proof (N.mod_upper_bound n 100).
    lia. }
  assert (H2 : (n mod 10 < 10)%N) by (apply N.mod_upper_bound; lia).
  rewrite !digit_char_is_digit by assumption.
  rewrite digits_value_app, digits_value_decimal. cbn [fold_left].
  unfold digit_step.
  assert (Hv : forall k, (k < 10)%N -> digit_val (digit_char k) = k).
  { intros k Hk.
    assert (H : (k = 0 \/ k = 1 \/ k = 2 \/ k = 3 \/ k = 4 \/ k = 5 \/ k = 6
                 \/ k = 7 \/ k = 8 \/ k = 9)%N) by lia.
    repeat (destruct H as [-> | H]; [reflexivity|]). subst; reflexivity. }
  rewrite !Hv by assumption.
  pose proof (N.Div0.div_mod n 100) as E1.
  pose proof (N.Div0.div_mod (n mod 100) 10) as E2.
  assert (E3 : ((n mod 100) mod 10 = n mod 10)%N).
  { replace 100%N with (10 * 10)%N by reflexivity.
    rewrite N.Div0.mod_mul_r.
    rewrite N.mul_comm, N.Div0.mod_add. apply N.Div0.mod_mod. }
  lia.
Qed.

Lemma shown_wrap : forall negative a,
  shown_cents (wrap_amount negative a) = shown_cents a.
Proof.
  intros neg a. unfold shown_cents, wrap_amount.
  destruct neg; cbn [py String.list_ascii_of_string app filter].
  - change (is_digit "(") with false. change (is_digit "$") with false.
    cbn iota. rewrite filter_app. cbn [filter].
    change (is_digit ")") with false. cbn iota. rewrite app_nil_r.
    reflexivity.
  - change (is_digit "$") with false. reflexivity.
Qed.



(** ** The shape of a cleaned cell *)

Lemma collapse_blanks : forall s c,
  In c (collapse s) -> is_space c = true -> c = " ".
Proof.
  induction s as [|a s IH]; intros c Hin Hc; [destruct Hin|].
  cbn [collapse] in Hin. destruct (is_space a) eqn:Ha.
  - destruct s as [|d s].
    + destruct Hin as [<- | []]. reflexivity.
    + destruct (is_space d); [apply IH; assumption|].
      destruct Hin as [<- | Hin]; [reflexivity | apply IH; assumption].
  - destruct Hin as [<- | Hin]; [congruence | apply IH; assumption].
Qed.

Lemma no_space_blanks : forall s c,
  no_space s = true -> In c s -> is_space c = true -> c = " ".
Proof.
  intros s c Hs Hin Hc. unfold no_space in Hs. rewrite forallb_forall in Hs.
  specialize (Hs c Hin). rewrite Hc in Hs. discriminate.
Qed.

Lemma normal_cell_no_space : forall r,
  normal_cell r ->
  no_space r = true \/ exists s, s <> [] /\ r = collapse s.
Proof.
  intros r H. destruct H as [neg n | | ds Hds Hne | ds d Hds Hne Hd
                             | s Hne Ht H1 H2 H3 H4].
  - left. apply wrapped_no_space, wrap_amount_chars, render_cents_chars.
  - left. reflexivity.
  - left. rewrite no_space_app, digits_no_space by assumption. reflexivity.
  - left. rewrite !no_space_app, digits_no_space by assumption.
    cbn. rewrite (digit_not_space d Hd). reflexivity.
  - right. exists s. auto.
Qed.

Lemma normal_cell_nonempty : forall r, normal_cell r -> r <> [].
Proof.
  intros r H. destruct H as [neg n | | ds Hds Hne | ds d Hds Hne Hd
                             | s Hne Ht H1 H2 H3 H4].
  - unfold wrap_amount. destruct neg; discriminate.
  - discriminate.
  - destruct ds; [congruence | discriminate].
  - destruct ds; [congruence | discriminate].
  - intros E. apply collapse_nil in E. contradiction.
Qed.

Lemma sub_trailing_prefix : forall s, exists t, s = sub_trailing s ++ t.
Proof.
  induction s as [|c s [t IH]]; [exists []; reflexivity|].
  cbn [sub_trailing]. destruct (Ascii.eqb c NL && tail_noise s).
  - exists (c :: s). reflexivity.
  - exists t. cbn [app]. f_equal. exact IH.
Qed.

Lemma strip_blank : forall s, forallb is_space s = true -> strip s = [].
Proof.
  intros s H. destruct (strip_spec s) as (sp1 & sp2 & E & _ & _ & [Hh _]).
  destruct (strip s) as [|c t]; [reflexivity|]. exfalso.
  rewrite E in H. rewrite forallb_app in H. apply andb_true_iff in H.
  destruct H as [_ H]. cbn in H, Hh. rewrite Hh in H. discriminate.
Qed.

(** X18: a string [_clean_cell] returns is never empty, has no blank at
    either end, and is left as it is by the whitespace substitution: its
    only blanks are single spaces between other characters, so it holds no
    newline.  A cell of blanks only, or an empty one, becomes null. *)
Theorem clean_cell_shape :
  (forall v s,
     _clean_cell v = Ok (Some s) ->
     s <> [] /\ strip s = s /\ collapse s = s /\ has_char NL s = false
     /\ forall c, In c s -> is_space c = true -> c = " ")
  /\ (forall v,
        forallb is_space v = true -> _clean_cell (Some v) = Ok None).
Proof.
  split.
  - intros v s H.
    assert (Hn : normal_cell s) by (apply cleaned_normal; exists v; exact H).
    split; [apply normal_cell_nonempty, Hn|].
    split; [apply strip_id, normal_cell_trimmed, Hn|].
    destruct (normal_cell_no_space s Hn) as [Hs | (s0 & _ & ->)].
    + split; [apply collapse_no_space, Hs|].
      split; [apply no_space_no_NL, Hs|].
      intros c. apply no_space_blanks, Hs.
    + split; [apply collapse_idempotent|].
      split; [apply collapse_no_NL|].
      intros c. apply collapse_blanks.
  - intros v Hv.
    assert (Hs : strip (sub_trailing v) = []).
    { apply strip_blank. destruct (sub_trailing_prefix v) as [t E].
      rewrite E in Hv. apply forallb_app_l in Hv. exact Hv. }
    unfold _clean_cell. rewrite Hs. reflexivity.
Qed.

Lemma clean_cell_shape_witness :
  (py "Net due" <> [] /\ strip (py "Net due") = py "Net due"
   /\ collapse (py "Net due") = py "Net due"
   /\ has_char NL (py "Net due") = false
   /\ forall c, In c (py "Net due") -> is_space c = true -> c = " ")
  /\ _clean_cell (Some (" " :: NL :: py "  ")) = Ok None.
Proof.
  split.
  - apply (proj1 clean_cell_shape (Some (py " Net" ++ NL :: py " due  "))).
    vm_compute. reflexivity.
  - apply (proj2 clean_cell_shape (" " :: NL :: py "  ")).
    reflexivity.
Defined.

(** ** The extracted dictionary *)

Lemma extract_key_values_fold : forall rows kv,
  _extract_key_values rows = Ok kv ->
  kv = fold_left kv_write (kv_visits rows) [].
Proof.
  intros rows kv. unfold _extract_key_values.
  destruct rows as [|r0 rest]; [discriminate|].
  change (getitem (r0 :: rest) 0) with (Ok r0). cbn [bind].
  rewrite range2_even. intros E. apply kv_rows_ok in E. exact E.
Qed.

Lemma dict_set_keys : forall d k v,
  map fst (dict_set d k v) = map fst d
  \/ (~ In k (map fst d) /\ map fst (dict_set d k v) = map fst d ++ [k]).
Proof.
  induction d as [|[k0 v0] d IH]; intros k v; cbn [dict_set map fst].
  - right. split; [intros [] | reflexivity].
  - destruct (str_eqb k0 k) eqn:E; cbn [map fst]; [left; reflexivity|].
    destruct (IH k v) as [H | [Hn H]]; rewrite H.
    + left. reflexivity.
    + right. split; [|reflexivity]. intros [-> | Hin]; [|contradiction].
      rewrite str_eqb_refl in E. discriminate.
Qed.

(** The dictionaries the extraction loop goes through: no key twice, and
    every key trimmed. *)
Definition sound_keys (d : dict) : Prop :=
  NoDup (map fst d) /\ Forall (fun k => strip k = k) (map fst d).

Lemma kv_write_sound : forall d visit, sound_keys d -> sound_keys (kv_write d visit).
Proof.
  intros d [key val] [Hnd Hst]. unfold kv_write. cbn [fst snd].
  destruct key as [[|a s]|]; try (split; assumption).
  destruct (dict_set_keys d (kv_key (a :: s)) val) as [E | [Hn E]];
    unfold sound_keys; rewrite E; [split; assumption|].
  split.
  - apply NoDup_app; [exact Hnd | repeat constructor; intros [] |].
    intros x Hx [<- | []]. contradiction.
  - apply Forall_app. split; [exact Hst|]. repeat constructor.
    unfold kv_key. apply strip_id, strip_trimmed.
Qed.

Lemma fold_write_sound : forall visits d,
  sound_keys d -> sound_keys (fold_left kv_write visits d).
Proof.
  induction visits as [|visit visits IH]; intros d H; [exact H|].
  cbn [fold_left]. apply IH, kv_write_sound, H.
Qed.

Lemma dict_get_in : forall d k v,
  NoDup (map fst d) -> (In (k, v) d <-> dict_get d k = Some v).
Proof.
  induction d as [|[k0 v0] d IH]; intros k v Hnd; cbn [dict_get In].
  - split; [intros [] | discriminate].
  - cbn [map fst] in Hnd. inversion Hnd as [|? ? Hn Hnd']; subst.
    destruct (str_eqb k0 k) eqn:E.
    + apply str_eqb_eq in E. subst k0. split.
      * intros [H | H]; [congruence|]. exfalso. apply Hn.
        apply (in_map fst) in H. exact H.
      * intros H. left. congruence.
    + rewrite <- (IH k v Hnd'). split; [|auto].
      intros [H | H]; [|exact H]. injection H as -> _.
      rewrite str_eqb_refl in E. discriminate.
Qed.

(** X19: the dictionary [_extract_key_values] returns holds no key twice,
    its keys have no blank at either end, and it holds the key [k] with the
    value [v] exactly when the last visit of a non-empty key cell that
    reads [k], once its trailing colons and blanks around are taken off,
    stood before the value cell [v]. *)
Theorem extracted_dictionary : forall rows kv,
  _extract_key_values rows = Ok kv ->
  NoDup (map fst kv)
  /\ Forall (fun k => strip k = k) (map fst kv)
  /\ forall k v, In (k, v) kv <-> last_write k (kv_visits rows) = Some v.
Proof.
  intros rows kv H.
  assert (Hs : sound_keys kv).
  { rewrite (extract_key_values_fold rows kv H). apply fold_write_sound.
    split; constructor. }
  destruct Hs as [Hnd Hst]. split; [exact Hnd|]. split; [exact Hst|].
  intros k v. rewrite (dict_get_in kv k v Hnd).
  rewrite (extract_key_values_ok rows kv H). reflexivity.
Qed.

(** A form in two columns of keys; the name is given twice. *)
Definition form_rows : list row :=
  [ [scell "Name:"; scell "Acme"; scell "Date :"; scell "2024-01-01"];
    [scell "Name:"; scell "Bolt"; scell "Ref:"; None] ].

Definition form_dictionary : dict :=
  [ (py "Name", scell "Bolt"); (py "Date", scell "2024-01-01");
    (py "Ref", None) ].

Lemma extracted_dictionary_witness :
  NoDup (map fst form_dictionary)
  /\ Forall (fun k => strip k = k) (map fst form_dictionary)
  /\ forall k v,
       In (k, v) form_dictionary
       <-> last_write k (kv_visits form_rows) = Some v.
Proof.
  apply (extracted_dictionary form_rows form_dictionary).
  vm_compute. reflexivity.
Defined.

(** ** Where a summary row comes from *)

(** A summary row the transformer may emit: a row the classifier takes for
    one, or a label that holds "total" with the values under it. *)
Definition summary_source (s : row) : Prop :=
  _is_summary_row s = true
  \/ exists label values,
       s = map Some (label :: values)
       /\ has_total label = true /\ values <> [].

Definition summary_fits (b : block) : Prop :=
  match data b with
  | DataTable _ _ (Some s) => summary_source s
  | _ => True
  end.

(** The summary row of the accumulator is one the classifier has found. *)
Definition summary_classified (pt : pending) : Prop :=
  forall s, pt_summary_row pt = Some s -> _is_summary_row s = true.

Lemma last_summary_classified : forall added old s,
  last_summary_of added old = Some s ->
  _is_summary_row s = true \/ old = Some s.
Proof.
  intros added old s H. unfold last_summary_of in H.
  destruct (last_error (filter _is_summary_row added)) as [r|] eqn:E.
  - injection H as <-. left. apply last_error_in in E.
    apply filter_In in E. tauto.
  - right. exact H.
Qed.

Lemma merged_summary_classified : forall st pt added tab,
  summary_classified pt ->
  summary_classified (merged_pending st pt added tab).
Proof.
  intros st pt added tab H s E. cbn in E.
  apply last_summary_classified in E. destruct E as [E | E]; auto.
Qed.

Lemma pending_block_summary : forall pt,
  summary_classified pt -> summary_fits (pending_block pt).
Proof.
  intros pt H. unfold summary_fits, pending_block. cbn [data _make_block].
  assert (Hparse : forall old,
            (forall s, old = Some s -> summary_source s) ->
            match
              (if str_truthy (pt_trailing pt)
               then match _parse_trailing_totals (pt_trailing pt) with
                    | Some (label, values) => Some (map Some (label :: values))
                    | None => old
                    end
               else old)
            with
            | Some s => summary_source s
            | None => True
            end).
  { intros old Hold. destruct (str_truthy (pt_trailing pt)).
    - destruct (_parse_trailing_totals (pt_trailing pt)) as [[label values]|]
        eqn:E.
      + right. exists label, values.
        destruct (trailing_totals_lines _ _ _ E)
          as (t & before & line & after & _ & _ & _ & Hp & -> & _ & Hne).
        split; [reflexivity|]. split; [apply has_total_strip, Hp | exact Hne].
      + destruct old; [apply Hold; reflexivity | exact I].
    - destruct old; [apply Hold; reflexivity | exact I]. }
  destruct (pt_summary_row pt) as [[|c s]|] eqn:E.
  - apply Hparse. intros s Hs. left. apply H. rewrite E. exact Hs.
  - left. apply H. exact E.
  - apply Hparse. discriminate.
Qed.

Lemma picture_summary_fits : forall st box b,
  picture_block st box b -> summary_fits b.
Proof.
  intros st box b H. unfold summary_fits.
  assert (Hp : forall ocr headers skip rows s,
            _parse_image_table ocr headers skip = Ok (rows, Some s) ->
            summary_source s).
  { intros ocr headers skip rows s E.
    rewrite parse_image_table_eq in E.
    destruct (data_lines_of ocr headers skip) as [dl|x]; [|discriminate].
    cbn [bind] in E. injection E as E.
    rewrite classify_groups_rows, classify_rows_spec in E.
    injection E as _ E. apply last_summary_classified in E.
    destruct E as [E | E]; [left; exact E | discriminate]. }
  destruct H as [hs rows s _ E -> | hs rows s _ _ E -> | ->]; [| |exact I];
    destruct s as [s|]; try exact I;
    apply (Hp _ _ _ rows s E).
Qed.

(** X20: every summary row in the blocks [transform] returns is a row
    that the row classifier takes for a summary row, or, on a table block,
    the label and the values read from the trailing text of the table: the
    label holds the word "total" and there is at least one value. *)
Theorem transform_summary_source : forall r out,
  transform r = Ok out -> Forall summary_fits (out_blocks out).
Proof.
  intros r out.
  apply (inv_transform summary_fits summary_classified (fun _ _ => True)).
  - intros b s H. unfold summary_fits. rewrite H. exact I.
  - intros b d H. unfold summary_fits. rewrite H. exact I.
  - apply pending_block_summary.
  - intros p ti de headers all_rows tab s E. cbn in E.
    apply last_summary_classified in E.
    destruct E as [E | E]; [exact E | discriminate].
  - intros. apply merged_summary_classified. assumption.
  - intros. apply merged_summary_classified. assumption.
  - intros st box b _ _ H. apply (picture_summary_fits st box b H).
  - apply all_allowed_true.
Qed.

(** One table without a summary row among its rows, and the totals under
    it. *)
Definition sample_totals_report : raw :=
  {| filename := py "totals.pdf";
     total_pages := 1;
     pages :=
       [ {| page_number := 1;
            tables :=
              [ {| header_names := [scell "Item"; scell "Cost"];
                   cells := [ [scell "Item"; scell "Cost"];
                              [scell "Pen"; scell "$100"] ];
                   col_count := 2; row_count := 2;
                   trailing_text := Some (py "Totals" ++ [NL] ++ py "350") |} ];
            images := [];
            layout_boxes := [ sample_box "table" 0 "" ] |} ] |}.

Definition sample_totals_blocks : list block :=
  [ {| title := []; description := []; type := table_block;
       data := DataTable [scell "Item"; scell "Cost"]
                 [ [scell "Pen"; scell "$1.00"] ]
                 (Some [scell "Totals"; scell "350"]);
       page := Some (PageNum 1) |} ].

Lemma transform_summary_source_witness :
  Forall summary_fits sample_totals_blocks.
Proof.
  apply (transform_summary_source sample_totals_report
           {| out_filename := py "totals.pdf"; out_total_pages := 1;
              out_blocks := sample_totals_blocks |}).
  vm_compute. reflexivity.
Defined.

(** ** The headers of image tables *)

(** Header lines as detection returns them. *)
Definition header_lines (hs : list str) : Prop :=
  2 <= length hs <= 6
  /\ NoDup hs
  /\ Forall (fun h => h <> [] /\ strip h = h /\ length h < 30) hs.

Lemma detect_header_lines : forall ocr headers,
  _detect_image_table ocr = Some headers -> header_lines headers.
Proof.
  intros ocr headers H.
  destruct (detect_layout ocr headers H)
    as (pre & rest & E & _ & Hlen & Hlike & _).
  rewrite forallb_forall in Hlike.
  split; [exact Hlen|]. split.
  - apply (NoDup_count_occ str_eq_dec). intros x.
    destruct (in_dec str_eq_dec x headers) as [Hin | Hn].
    + destruct (header_like_spec _ _ (Hlike x Hin)) as [_ Hc].
      unfold line_count in Hc. rewrite E, !count_occ_app in Hc. lia.
    + apply (count_occ_not_In str_eq_dec) in Hn. lia.
  - rewrite Forall_forall. intros h Hin.
    destruct (header_like_spec _ _ (Hlike h Hin)) as [H30 _].
    pose proof (ocr_lines_solid ocr) as Hs. rewrite Forall_forall in Hs.
    destruct (Hs h) as [Hne Hst].
    { rewrite E. apply in_or_app. right. apply in_or_app. left. exact Hin. }
    auto.
Qed.

(** The headers stored for a continuation are header lines. *)
Definition stored_headers_fit (st : state) : Prop :=
  forall hs, last_img_tbl_headers st = Some hs -> header_lines hs.

Lemma on_picture_stored : forall st box st',
  _on_picture st box = Ok st' ->
  stored_headers_fit st -> stored_headers_fit st'.
Proof.
  intros st box st'. unfold _on_picture.
  set (st2 := _flush_pending_table (_flush_text st)).
  assert (Hc : same_context st st2).
  { eapply same_context_trans;
      [apply flush_text_context | apply flush_pending_context]. }
  destruct Hc as [H1 _ _].
  assert (Hkeep : forall b,
            stored_headers_fit st -> stored_headers_fit (append_block st2 b)).
  { intros b HJ hs E. apply HJ. cbn in E. congruence. }
  assert (Hcont : forall l ls,
            ('(rows, summary) <-
               _parse_image_table (_match_ocr_text st2 box) (l :: ls) true ;;
             match rows with
             | [] =>
                 Ok (append_block st2
                       (_make_block (heading st2) (Some []) image_text
                          (DataText (_match_ocr_text st2 box))
                          (Some (PageNum (pg st2)))))
             | _ :: _ =>
                 Ok (append_block st2
                       (_make_block (heading st2) (Some []) image_table
                          (DataTable (map Some (l :: ls)) rows summary)
                          (Some (PageNum (pg st2)))))
             end) = Ok st' ->
            stored_headers_fit st -> stored_headers_fit st').
  { intros l ls.
    destruct (_parse_image_table (_match_ocr_text st2 box) (l :: ls) true)
      as [[rows summary]|x]; [|discriminate].
    cbn [bind]. destruct rows; intros E; injection E as <-; apply Hkeep. }
  destruct (_detect_image_table (_match_ocr_text st2 box)) as [[|h hs]|]
    eqn:Hdet.
  - destruct (last_img_tbl_headers st2) as [[|l ls]|].
    + intros E. injection E as <-. apply Hkeep.
    + destruct (_match_ocr_text st2 box) as [|c o] eqn:Ho.
      * intros E. injection E as <-. apply Hkeep.
      * apply Hcont.
    + intros E. injection E as <-. apply Hkeep.
  - destruct (_parse_image_table (_match_ocr_text st2 box) (h :: hs) false)
      as [[rows summary]|x]; [|discriminate].
    cbn [bind]. intros E. injection E as <-. intros _ hs' E'.
    cbn in E'. injection E' as <-. apply (detect_header_lines _ _ Hdet).
  - destruct (last_img_tbl_headers st2) as [[|l ls]|].
    + intros E. injection E as <-. apply Hkeep.
    + destruct (_match_ocr_text st2 box) as [|c o] eqn:Ho.
      * intros E. injection E as <-. apply Hkeep.
      * apply Hcont.
    + intros E. injection E as <-. apply Hkeep.
Qed.

Lemma step_stored : forall st e st',
  step st e = Ok st' -> stored_headers_fit st -> stored_headers_fit st'.
Proof.
  intros st [p|box] st' H HJ; cbn [step] in H.
  - injection H as <-. exact HJ.
  - unfold process_box in H.
    destruct (str_eqb (boxclass box) (py "section-header")
              || str_eqb (boxclass box) (py "header")).
    { injection H as <-. intros hs E. apply HJ.
      rewrite <- (same_last_img _ _
                    (on_heading_context st (strip (text box)))).
      exact E. }
    destruct (str_eqb (boxclass box) (py "table")).
    { apply on_table_clears in H. destruct H as [H _].
      intros hs E. congruence. }
    destruct (str_eqb (boxclass box) (py "picture"));
      [apply (on_picture_stored st box st' H HJ)|].
    destruct ((str_eqb (boxclass box) (py "text")
               || str_eqb (boxclass box) (py "list-item"))
              && nonempty (strip (text box)));
      injection H as <-; exact HJ.
Qed.

Lemma all_allowed_kept : forall (J : state -> Prop),
  (forall st e st', step st e = Ok st' -> J st -> J st') ->
  forall evs st, J st -> all_allowed (fun st _ => J st) st evs.
Proof.
  intros J HJ. induction evs as [|e evs IH]; intros st H; cbn; [exact I|].
  split; [exact H|]. intros st' Hs. apply IH. apply (HJ st e st' Hs H).
Qed.

Definition image_headers_fit (b : block) : Prop :=
  match data b with
  | DataTable h _ _ =>
      type b = image_table -> exists hs, h = map Some hs /\ header_lines hs
  | _ => True
  end.

Lemma transform_image_headers : forall r out,
  transform r = Ok out -> Forall image_headers_fit (out_blocks out).
Proof.
  intros r out.
  apply (inv_transform image_headers_fit (fun _ => True)
           (fun st _ => stored_headers_fit st)).
  - intros b s H. unfold image_headers_fit. rewrite H. exact I.
  - intros b d H. unfold image_headers_fit. rewrite H. exact I.
  - intros pt _. unfold image_headers_fit. cbn. discriminate.
  - intros. exact I.
  - intros. exact I.
  - intros. exact I.
  - intros st box b HJ _ H. unfold image_headers_fit.
    destruct H as [hs rows s Hdet _ -> | hs rows s _ Hlast _ -> | ->];
      [| |exact I]; intros _; exists hs; split; try reflexivity.
    + apply (detect_header_lines _ _ Hdet).
    + apply HJ, Hlast.
  - apply all_allowed_kept; [exact step_stored | discriminate].
Qed.

(** X21: every image table among the blocks [transform] returns, one
    continued from an earlier picture too, stands under between two and six
    headers, none of them null, empty or with a blank at either end, each
    shorter than 30 characters, and no two of them equal. *)
Theorem image_table_headers : forall r out b,
  transform r = Ok out -> In b (out_blocks out) -> type b = image_table ->
  exists hs rows summary,
    data b = DataTable (map Some hs) rows summary
    /\ 2 <= length hs <= 6
    /\ NoDup hs
    /\ Forall (fun h => h <> [] /\ strip h = h /\ length h < 30) hs.
Proof.
  intros r out b Ht Hin Hty.
  pose proof (transform_well_formed r out Ht) as Hw.
  pose proof (transform_image_headers r out Ht) as Hh.
  rewrite Forall_forall in Hw, Hh.
  destruct (Hw b Hin) as [Hd _]. specialize (Hh b Hin).
  unfold data_fits in Hd. unfold image_headers_fit in Hh. rewrite Hty in Hd.
  destruct (data b) as [s | h rows summary | d]; try contradiction.
  destruct (Hh Hty) as (hs & -> & Hlines).
  exists hs, rows, summary. split; [reflexivity | exact Hlines].
Qed.

(** A scanned price list and, on the next page, more of it. *)
Definition sample_scan : raw :=
  {| filename := py "scan.pdf";
     total_pages := 2;
     pages :=
       [ {| page_number := 1; tables := [];
            images :=
              [ {| img_bbox := {| x0 := 0; y0 := 0; x1 := 90; y1 := 90 |};
                   ocr_text := fruit_prices |} ];
            layout_boxes := [ sample_box "picture" 0 "" ] |};
         {| page_number := 2; tables := [];
            images :=
              [ {| img_bbox := {| x0 := 0; y0 := 0; x1 := 90; y1 := 90 |};
                   ocr_text := py "Pear" ++ [NL] ++ py "$3" |} ];
            layout_boxes := [ sample_box "picture" 0 "" ] |} ] |}.

Definition sample_scan_blocks : list block :=
  [ {| title := []; description := []; type := image_table;
       data := DataTable [scell "Fruit"; scell "Price"]
                 [ [scell "Apple"; scell "$1"]; [scell "Apple"; scell "$2"] ]
                 None;
       page := Some (PageNum 1) |};
    {| title := []; description := []; type := image_table;
       data := DataTable [scell "Fruit"; scell "Price"]
                 [ [scell "Pear"; scell "$3"] ] None;
       page := Some (PageNum 2) |} ].

Lemma image_table_headers_witness :
  exists hs rows summary,
    DataTable [scell "Fruit"; scell "Price"] [ [scell "Pear"; scell "$3"] ]
      None
    = DataTable (map Some hs) rows summary
    /\ 2 <= length hs <= 6
    /\ NoDup hs
    /\ Forall (fun h => h <> [] /\ strip h = h /\ length h < 30) hs.
Proof.
  apply (image_table_headers sample_scan
           {| out_filename := py "scan.pdf"; out_total_pages := 2;
              out_blocks := sample_scan_blocks |}
           {| title := []; description := []; type := image_table;
              data := DataTable [scell "Fruit"; scell "Price"]
                        [ [scell "Pear"; scell "$3"] ] None;
              page := Some (PageNum 2) |}).
  - vm_compute. reflexivity.
  - right. left. reflexivity.
  - reflexivity.
Defined.

(** ** Invariants that lean on the resolved table data *)

Section ResolvedInvariant.

(** As in the invariants of the run above, with what is known of the table
    data a table box resolves to: a property [resolved] of the headers, the
    rows and the table. *)
Variable ok : block -> Prop.
Variable pok : pending -> Prop.
Variable allowed : state -> event -> Prop.
Variable resolved : row -> list row -> table -> Prop.

Hypothesis resolved_data : forall st box st1 headers all_rows tab,
  _resolve_table_data st box = Ok (st1, Some (headers, all_rows, tab)) ->
  resolved headers all_rows tab.
Hypothesis ok_text : forall b s, data b = DataText s -> ok b.
Hypothesis ok_key_value : forall b headers all_rows tab d,
  resolved headers all_rows tab -> _extract_key_values all_rows = Ok d ->
  data b = DataKeyValue d -> ok b.
Hypothesis ok_pending : forall pt, pok pt -> ok (pending_block pt).
Hypothesis pok_fresh : forall p ti de headers all_rows tab,
  resolved headers all_rows tab ->
  pok (fresh_pending p ti de headers all_rows tab).
Hypothesis pok_exact : forall st pt headers all_rows tab,
  resolved headers all_rows tab -> pok pt ->
  pok (merged_pending st pt (non_header_rows headers all_rows) tab).
Hypothesis pok_column : forall st pt headers all_rows tab,
  resolved headers all_rows tab -> pok pt ->
  pok (merged_pending st pt all_rows tab).
Hypothesis ok_picture : forall st box b,
  allowed st (BoxEvent box) -> picture_block st box b -> ok b.

Lemma resolved_step : forall st e st',
  inv ok pok st -> allowed st e -> step st e = Ok st' -> inv ok pok st'.
Proof.
  intros st e st' Hinv Hall Hstep. destruct e as [p|box].
  - cbn in Hstep. injection Hstep as <-.
    apply (inv_same ok pok st); auto.
  - cbn [step] in Hstep. unfold process_box in Hstep.
    destruct (str_eqb (boxclass box) (py "section-header")
              || str_eqb (boxclass box) (py "header")).
    { injection Hstep as <-. unfold _on_heading.
      apply (inv_same ok pok (_flush_pending_table (_flush_text st)));
        [reflexivity | reflexivity |].
      apply (inv_flush_pending ok pok ok_pending).
      apply (inv_flush_text ok pok ok_text). exact Hinv. }
    destruct (str_eqb (boxclass box) (py "table")).
    { apply on_table_cases in Hstep.
      destruct Hstep as (st1 & res & Hres & Hout).
      pose proof (resolve_table_data_context _ _ _ _ Hres) as (_ & Hb1 & Hp1).
      assert (Hinv1 : inv ok pok st1).
      { apply (inv_same ok pok st); auto. }
      destruct res as [[[headers all_rows] tab]|];
        [|subst st'; exact Hinv1].
      pose proof (resolved_data _ _ _ _ _ _ Hres) as HR.
      destruct Hout as [st2 ti de kvd Htd _ Hex ->
                       | st2 td pt Htd _ Hpt Hraw ->
                       | st2 td pt L Htd Hkv Hpt Hl Hne Hlen Hpg ->
                       | st2 ti de Htd _ ->];
        pose proof (resolve_title_context _ _ _ Htd) as (_ & Hb2 & Hp2);
        assert (Hinv2 : inv ok pok st2)
          by (apply (inv_same ok pok st1); auto).
      - apply inv_append;
          [apply (inv_flush_pending ok pok ok_pending), Hinv2|].
        apply (ok_key_value _ headers all_rows tab kvd HR Hex). reflexivity.
      - apply inv_set_pending; [exact Hinv2|].
        apply pok_exact; [exact HR|]. destruct Hinv2 as [_ H]. auto.
      - apply inv_set_pending; [exact Hinv2|].
        apply (pok_column st2 pt headers all_rows tab HR).
        destruct Hinv2 as [_ H]. auto.
      - apply inv_set_pending;
          [apply (inv_flush_pending ok pok ok_pending), Hinv2|].
        apply pok_fresh, HR. }
    destruct (str_eqb (boxclass box) (py "picture")).
    { apply on_picture_cases in Hstep.
      destruct Hstep as (b & Hb & Hp & Hblock).
      pose proof (inv_flush_pending ok pok ok_pending _
                    (inv_flush_text ok pok ok_text _ Hinv)) as [H1 H2].
      split.
      - rewrite Hb. apply Forall_app. split; [exact H1|].
        repeat constructor. apply (ok_picture st box); auto.
      - rewrite Hp. exact H2. }
    destruct ((str_eqb (boxclass box) (py "text")
               || str_eqb (boxclass box) (py "list-item"))
              && nonempty (strip (text box)));
      injection Hstep as <-; [|exact Hinv].
    apply (inv_same ok pok st); auto.
Qed.

Lemma resolved_run : forall evs st st',
  inv ok pok st -> all_allowed allowed st evs -> run st evs = Ok st' ->
  inv ok pok st'.
Proof.
  induction evs as [|e evs IH]; intros st st' Hinv Hall Hrun.
  - injection Hrun as <-. exact Hinv.
  - cbn [run] in Hrun. destruct (step st e) as [st1|x] eqn:Hstep;
      [|discriminate].
    cbn [bind] in Hrun. destruct Hall as [Ha Hrest].
    apply (IH st1 st'); auto. apply (resolved_step st e st1); auto.
Qed.

Lemma resolved_transform : forall r out,
  all_allowed allowed init (events_of (pages r)) ->
  transform r = Ok out -> Forall ok (out_blocks out).
Proof.
  intros r out Hall Ht. apply transform_run in Ht.
  destruct Ht as (st & Hrun & ->).
  apply (inv_flush_pending ok pok ok_pending (_flush_text st)).
  apply (inv_flush_text ok pok ok_text).
  apply (resolved_run _ init st (inv_init ok pok) Hall Hrun).
Qed.

End ResolvedInvariant.

(** ** The cells of the emitted tables *)

(** A cell that is null or a string that is not empty and has no blank at
    either end. *)
Definition solid_cell (c : cell) : Prop :=
  match c with
  | Some s => s <> [] /\ strip s = s
  | None => True
  end.

Definition solid_row (r : row) : Prop := Forall solid_cell r.

Definition cells_fit (b : block) : Prop :=
  match data b with
  | DataTable headers rows summary =>
      solid_row headers /\ Forall solid_row rows
      /\ forall r, summary = Some r -> solid_row r
  | DataKeyValue d => Forall solid_cell (map snd d)
  | DataText _ => True
  end.

Definition pending_cells_fit (pt : pending) : Prop :=
  solid_row (pt_headers pt) /\ Forall solid_row (pt_rows pt)
  /\ forall r, pt_summary_row pt = Some r -> solid_row r.

Definition solid_table (headers : row) (all_rows : list row) (tab : table)
  : Prop :=
  solid_row headers /\ Forall solid_row all_rows.

Lemma cleaned_solid : forall v c, _clean_cell v = Ok c -> solid_cell c.
Proof.
  intros v [s|] H; [|exact I].
  assert (Hn : normal_cell s) by (apply cleaned_normal; exists v; exact H).
  split; [apply normal_cell_nonempty, Hn
         | apply strip_id, normal_cell_trimmed, Hn].
Qed.

Lemma clean_row_solid : forall r r',
  mapM _clean_cell r = Ok r' -> solid_row r'.
Proof.
  induction r as [|c r IH]; intros r' H; cbn [mapM] in H.
  - injection H as <-. constructor.
  - destruct (_clean_cell c) as [c'|x] eqn:Hc; [|discriminate].
    cbn [bind] in H. destruct (mapM _clean_cell r) as [cs|x]; [|discriminate].
    cbn [bind] in H. injection H as <-.
    constructor; [apply (cleaned_solid c c' Hc) | apply IH; reflexivity].
Qed.

Lemma clean_rows_solid : forall (rows rows' : list row),
  mapM (mapM _clean_cell) rows = Ok rows' -> Forall solid_row rows'.
Proof.
  induction rows as [|r rows IH]; intros rows' H; cbn [mapM] in H.
  - injection H as <-. constructor.
  - destruct (mapM _clean_cell r) as [r'|x] eqn:Hr; [|discriminate].
    cbn [bind] in H.
    destruct (mapM (mapM _clean_cell) rows) as [rs|x]; [|discriminate].
    cbn [bind] in H. injection H as <-.
    constructor; [apply (clean_row_solid r r' Hr) | apply IH; reflexivity].
Qed.

Lemma resolve_solid : forall st box st1 headers all_rows tab,
  _resolve_table_data st box = Ok (st1, Some (headers, all_rows, tab)) ->
  solid_table headers all_rows tab.
Proof.
  intros st box st1 headers all_rows tab. unfold _resolve_table_data.
  destruct (nth_error (page_tables st) (table_idx st)) as [t|].
  - destruct (mapM _clean_cell (header_names t)) as [hs|x] eqn:Hh;
      [|discriminate].
    destruct (mapM (mapM _clean_cell) (cells t)) as [rows|x] eqn:Hr;
      [|discriminate].
    cbn [bind]. intros E. injection E as _ <- <- _.
    split; [apply (clean_row_solid _ _ Hh) | apply (clean_rows_solid _ _ Hr)].
  - destruct (box_layout_table box) as [lt|]; [|discriminate].
    destruct (mapM (mapM _clean_cell) (lt_cells lt)) as [rows|x] eqn:Hr;
      [|discriminate].
    cbn [bind]. intros E. injection E as _ <- <- _.
    pose proof (clean_rows_solid _ _ Hr) as Hs.
    split; [|exact Hs].
    destruct rows as [|r0 rows]; [constructor|].
    inversion Hs; assumption.
Qed.

Lemma dict_set_values : forall d k v,
  Forall solid_cell (map snd d) -> solid_cell v ->
  Forall solid_cell (map snd (dict_set d k v)).
Proof.
  induction d as [|[k0 v0] d IH]; intros k v Hd Hv; cbn [dict_set map snd].
  - repeat constructor. exact Hv.
  - cbn [map snd] in Hd. inversion Hd as [|? ? H0 Hrest]; subst.
    destruct (str_eqb k0 k); cbn [map snd]; constructor; auto.
Qed.

Lemma nth_solid : forall r k, solid_row r -> solid_cell (nth k r (None : cell)).
Proof.
  intros r k Hr. destruct (Nat.lt_ge_cases k (length r)) as [Hlt | Hge].
  - unfold solid_row in Hr. rewrite Forall_forall in Hr.
    apply Hr, nth_In, Hlt.
  - rewrite nth_overflow by assumption. exact I.
Qed.

Lemma extracted_values_solid : forall rows d,
  Forall solid_row rows -> _extract_key_values rows = Ok d ->
  Forall solid_cell (map snd d).
Proof.
  intros rows d Hrows H. rewrite (extract_key_values_fold rows d H).
  assert (Hv : Forall (fun visit => solid_cell (snd visit)) (kv_visits rows)).
  { unfold kv_visits. rewrite Forall_forall. intros visit Hin.
    apply in_flat_map in Hin. destruct Hin as (r & Hr & Hin).
    apply in_map_iff in Hin. destruct Hin as (k & <- & _). cbn [snd].
    rewrite Forall_forall in Hrows. apply nth_solid, Hrows, Hr. }
  assert (Hfold : forall visits d0,
            Forall (fun visit => solid_cell (snd visit)) visits ->
            Forall solid_cell (map snd d0) ->
            Forall solid_cell (map snd (fold_left kv_write visits d0))).
  { induction visits as [|visit visits IH]; intros d0 Hvs Hd0; [exact Hd0|].
    inversion Hvs as [|? ? Hx Hrest]; subst. cbn [fold_left].
    apply IH; [exact Hrest|]. unfold kv_write.
    destruct (fst visit) as [[|c s]|]; try exact Hd0.
    apply dict_set_values; assumption. }
  apply Hfold; [exact Hv | constructor].
Qed.

Lemma last_summary_in : forall added old s,
  last_summary_of added old = Some s -> In s added \/ old = Some s.
Proof.
  intros added old s H. unfold last_summary_of in H.
  destruct (last_error (filter _is_summary_row added)) as [r|] eqn:E.
  - injection H as <-. left. apply last_error_in in E.
    apply filter_In in E. tauto.
  - right. exact H.
Qed.

Lemma merged_cells_fit : forall st pt added tab,
  Forall solid_row added -> pending_cells_fit pt ->
  pending_cells_fit (merged_pending st pt added tab).
Proof.
  intros st pt added tab Ha (Hh & Hr & Hs). rewrite Forall_forall in Ha.
  split; [exact Hh|]. split.
  - cbn. apply Forall_app. split; [exact Hr|].
    rewrite Forall_forall. intros r Hin. unfold data_rows_of in Hin.
    apply filter_In in Hin. apply Ha. tauto.
  - cbn. intros r E. apply last_summary_in in E.
    destruct E as [E | E]; [apply Ha, E | apply Hs, E].
Qed.

Lemma non_header_solid : forall headers all_rows,
  Forall solid_row all_rows ->
  Forall solid_row (non_header_rows headers all_rows).
Proof.
  intros headers all_rows H. rewrite Forall_forall in *. intros r Hin.
  unfold non_header_rows in Hin. apply filter_In in Hin. apply H. tauto.
Qed.

Lemma in_firstn : forall (A : Type) n (l : list A) x,
  In x (firstn n l) -> In x l.
Proof.
  intros A n l x H. rewrite <- (firstn_skipn n l). apply in_or_app. auto.
Qed.

Lemma in_skipn : forall (A : Type) n (l : list A) x,
  In x (skipn n l) -> In x l.
Proof.
  intros A n l x H. rewrite <- (firstn_skipn n l). apply in_or_app. auto.
Qed.

Lemma solid_lines : forall lines : list str,
  Forall (fun l => l <> [] /\ strip l = l) lines ->
  solid_row (map Some lines).
Proof.
  intros lines H. unfold solid_row. rewrite Forall_map.
  eapply Forall_impl; [|exact H]. intros l Hl. exact Hl.
Qed.

Lemma trimmed_sep : forall a b : str,
  a <> [] -> b <> [] -> trimmed a -> trimmed b ->
  trimmed (a ++ py " " ++ b).
Proof.
  intros a b Ha Hb [Ha1 _] [_ Hb2]. split.
  - destruct a; [congruence | exact Ha1].
  - rewrite !rev_app_distr. destruct (rev b) as [|c rb] eqn:E.
    + apply (f_equal (@rev ascii)) in E. rewrite rev_involutive in E.
      cbn in E. congruence.
    + exact Hb2.
Qed.

(** Lines joined by single spaces. *)
Lemma join_solid : forall lines : list str,
  lines <> [] -> Forall (fun l => l <> [] /\ strip l = l) lines ->
  join (py " ") lines <> [] /\ trimmed (join (py " ") lines).
Proof.
  induction lines as [|l lines IH]; intros Hne H; [congruence|].
  inversion H as [|? ? [Hl Hs] Hrest]; subst.
  assert (Ht : trimmed l) by (rewrite <- Hs; apply strip_trimmed).
  destruct lines as [|l2 lines]; [cbn [join]; auto|].
  destruct IH as [IH1 IH2]; [discriminate | exact Hrest |].
  change (join (py " ") (l :: l2 :: lines))
    with (l ++ py " " ++ join (py " ") (l2 :: lines)).
  split; [destruct l; [congruence | discriminate]|].
  apply trimmed_sep; assumption.
Qed.

Lemma pad_group_solid : forall ncols (g : list str),
  g <> [] -> Forall (fun l => l <> [] /\ strip l = l) g ->
  solid_row (pad_group ncols g).
Proof.
  intros n g Hne Hg. unfold pad_group.
  destruct (n <=? length g) eqn:E.
  - apply Nat.leb_le in E. unfold solid_row. apply Forall_app. split.
    + apply solid_lines. unfold slice_to.
      rewrite Forall_forall in *. intros l Hin. apply Hg.
      apply (in_firstn _ _ _ _ Hin).
    + constructor; [|constructor].
      assert (Hrest : slice_from g (Z.of_nat n - 1) <> []).
      { unfold slice_from. intros Hnil.
        apply (f_equal (@length str)) in Hnil.
        rewrite length_skipn in Hnil. unfold slice_index in Hnil.
        assert (0 < length g) by (destruct g; [congruence | cbn; lia]).
        cbn [length] in Hnil.
        destruct (Z.of_nat n - 1 <? 0)%Z eqn:Ez; lia. }
      assert (Hsub : Forall (fun l => l <> [] /\ strip l = l)
                       (slice_from g (Z.of_nat n - 1))).
      { unfold slice_from. rewrite Forall_forall in *. intros l Hin.
        apply Hg. apply (in_skipn _ _ _ _ Hin). }
      destruct (join_solid _ Hrest Hsub) as [H1 H2].
      split; [exact H1 | apply strip_id, H2].
  - unfold solid_row. apply Forall_app. split; [apply solid_lines, Hg|].
    apply Forall_forall. intros c Hc. apply repeat_spec in Hc. subst c.
    exact I.
Qed.

Lemma data_lines_solid : forall ocr headers skip_header dl,
  data_lines_of ocr headers skip_header = Ok dl ->
  Forall (fun l => l <> [] /\ strip l = l) dl.
Proof.
  intros ocr headers skip dl H. unfold data_lines_of in H.
  pose proof (ocr_lines_solid ocr) as Hs.
  destruct skip.
  - injection H as <-. exact Hs.
  - destruct (last_item headers) as [hl|x]; [|discriminate].
    cbn [bind] in H.
    destruct (index_of (ocr_lines ocr) hl) as [i|x]; [|discriminate].
    cbn [bind] in H. injection H as <-.
    rewrite Forall_forall in *. intros l Hin. apply Hs.
    apply (in_skipn _ _ _ _ Hin).
Qed.

Lemma parsed_rows_solid : forall ocr headers skip_header rows summary,
  _parse_image_table ocr headers skip_header = Ok (rows, summary) ->
  Forall solid_row rows /\ forall r, summary = Some r -> solid_row r.
Proof.
  intros ocr headers skip rows summary H. rewrite parse_image_table_eq in H.
  destruct (data_lines_of ocr headers skip) as [dl|x] eqn:Hdl; [|discriminate].
  cbn [bind] in H. injection H as H.
  apply classify_groups_in in H. destruct H as [Hr Hs].
  pose proof (data_lines_solid _ _ _ _ Hdl) as Hsolid.
  assert (Hpad : forall r,
            In r (map (pad_group (length headers)) (row_groups_of dl)) ->
            solid_row r).
  { intros r Hin. apply in_map_iff in Hin. destruct Hin as (g & <- & Hg).
    pose proof (row_groups_within dl) as Hw. unfold groups_within in Hw.
    rewrite Forall_forall in Hw. destruct (Hw g Hg) as [Hne Hsub].
    apply pad_group_solid; [exact Hne|].
    rewrite Forall_forall in *. intros l Hl. apply Hsolid, Hsub, Hl. }
  split.
  - rewrite Forall_forall. intros r Hin. apply Hpad, Hr, Hin.
  - intros r E. apply Hpad, Hs, E.
Qed.

Lemma header_lines_solid : forall hs, header_lines hs -> solid_row (map Some hs).
Proof.
  intros hs (_ & _ & H). apply solid_lines.
  eapply Forall_impl; [|exact H]. intros l (H1 & H2 & _). auto.
Qed.

Lemma pending_block_cells : forall pt,
  pending_cells_fit pt -> cells_fit (pending_block pt).
Proof.
  intros pt (Hh & Hr & Hs). unfold cells_fit, pending_block.
  cbn [data _make_block]. split; [exact Hh|]. split; [exact Hr|].
  intros r E.
  assert (Hparse : forall old,
            (forall r0, old = Some r0 -> solid_row r0) ->
            (if str_truthy (pt_trailing pt)
             then match _parse_trailing_totals (pt_trailing pt) with
                  | Some (label, values) => Some (map Some (label :: values))
                  | None => old
                  end
             else old) = Some r -> solid_row r).
  { intros old Hold. destruct (str_truthy (pt_trailing pt)); [|apply Hold].
    destruct (_parse_trailing_totals (pt_trailing pt)) as [[label values]|]
      eqn:Ep; [|apply Hold].
    intros E'. injection E' as <-.
    destruct (trailing_totals_lines _ _ _ Ep)
      as (t & before & line & after & _ & _ & _ & Hp & -> & -> & _).
    apply (solid_lines (strip line :: filter nonempty (map strip after))).
    constructor; [|apply filter_strip_solid].
    split; [|apply strip_id, strip_trimmed].
    apply has_total_strip in Hp. intros Hnil. rewrite Hnil in Hp.
    discriminate. }
  destruct (pt_summary_row pt) as [[|c s]|] eqn:Esum.
  - apply (Hparse (Some [])); [|exact E]. intros r0 E0. apply Hs. exact E0.
  - apply Hs. exact E.
  - apply (Hparse None); [discriminate | exact E].
Qed.

Lemma transform_cells_fit : forall r out,
  transform r = Ok out -> Forall cells_fit (out_blocks out).
Proof.
  intros r out.
  apply (resolved_transform cells_fit pending_cells_fit
           (fun st _ => stored_headers_fit st) solid_table).
  - exact resolve_solid.
  - intros b s H. unfold cells_fit. rewrite H. exact I.
  - intros b headers all_rows tab d [_ Ha] Hex H. unfold cells_fit.
    rewrite H. apply (extracted_values_solid all_rows d Ha Hex).
  - exact pending_block_cells.
  - intros p ti de headers all_rows tab [Hh Ha].
    pose proof (non_header_solid headers all_rows Ha) as Hn.
    rewrite Forall_forall in Hn.
    split; [exact Hh|]. split.
    + cbn. rewrite Forall_forall. intros r0 Hin. unfold data_rows_of in Hin.
      apply filter_In in Hin. apply Hn. tauto.
    + cbn. intros r0 E. apply last_summary_in in E.
      destruct E as [E | E]; [apply Hn, E | discriminate].
  - intros st pt headers all_rows tab [_ Ha] Hpt.
    apply merged_cells_fit; [apply non_header_solid, Ha | exact Hpt].
  - intros st pt headers all_rows tab [_ Ha] Hpt.
    apply merged_cells_fit; assumption.
  - intros st box b HJ H. unfold cells_fit.
    destruct H as [hs rows s Hdet Hp -> | hs rows s _ Hlast Hp -> | ->];
      [| |exact I].
    + split; [apply header_lines_solid, (detect_header_lines _ _ Hdet)|].
      apply (parsed_rows_solid _ _ _ _ _ Hp).
    + split; [apply header_lines_solid, HJ, Hlast|].
      apply (parsed_rows_solid _ _ _ _ _ Hp).
  - apply all_allowed_kept; [exact step_stored | discriminate].
Qed.

(** X22: no cell of a table that [transform] returns is an empty string
    or has a blank at either end: in the headers, the rows and the summary
    row of every table block and image table, and among the values of every
    key-value dictionary, a cell is null or a trimmed string that is not
    empty. *)
Theorem transform_solid_cells : forall r out b,
  transform r = Ok out -> In b (out_blocks out) ->
  match data b with
  | DataTable headers rows summary =>
      Forall solid_cell headers
      /\ Forall (Forall solid_cell) rows
      /\ forall s, summary = Some s -> Forall solid_cell s
  | DataKeyValue d => Forall solid_cell (map snd d)
  | DataText _ => True
  end.
Proof.
  intros r out b Ht Hin. apply transform_cells_fit in Ht.
  rewrite Forall_forall in Ht. apply (Ht b Hin).
Qed.

Lemma transform_solid_cells_witness :
  Forall solid_cell [scell "Item"; scell "Cost"]
  /\ Forall (Forall solid_cell) [ [scell "Pen"; scell "$1.00"] ]
  /\ forall s,
       Some [scell "Totals"; scell "350"] = Some s -> Forall solid_cell s.
Proof.
  apply (transform_solid_cells sample_totals_report
           {| out_filename := py "totals.pdf"; out_total_pages := 1;
              out_blocks := sample_totals_blocks |}
           {| title := []; description := []; type := table_block;
              data := DataTable [scell "Item"; scell "Cost"]
                        [ [scell "Pen"; scell "$1.00"] ]
                        (Some [scell "Totals"; scell "350"]);
              page := Some (PageNum 1) |}).
  - vm_compute. reflexivity.
  - left. reflexivity.
Defined.

(* ================================================================== *)
(** ** What the run raises *)

(** A computation that raises nothing but an IndexError. *)
Definition only_index {A : Type} (m : result A) : Prop :=
  forall e, m = Raise e -> e = IndexError.

Lemma only_index_ok : forall (A : Type) (a : A), only_index (Ok a).
Proof. intros A a e H. discriminate. Qed.

Lemma only_index_bind : forall (A B : Type) (m : result A) (k : A -> result B),
  only_index m -> (forall a, m = Ok a -> only_index (k a)) ->
  only_index (bind m k).
Proof.
  intros A B m k Hm Hk e H. destruct m as [a|x]; cbn [bind] in H.
  - apply (Hk a eq_refl e H).
  - injection H as <-. apply Hm. reflexivity.
Qed.

Lemma getitem_only_index : forall (A : Type) (l : list A) i,
  only_index (getitem l i).
Proof.
  intros A l i e H. unfold getitem in H.
  destruct (nth_error l i); [discriminate|]. injection H as <-. reflexivity.
Qed.

Lemma colon_count_only_index : forall rows k, only_index (colon_count rows k).
Proof.
  induction rows as [|r rows IH]; intros k; cbn [colon_count];
    [apply only_index_ok|].
  apply only_index_bind; [apply getitem_only_index|]. intros c _.
  apply only_index_bind; [apply IH|]. intros n _. apply only_index_ok.
Qed.

Lemma kv_columns_only_index : forall rows cols, only_index (kv_columns rows cols).
Proof.
  intros rows. induction cols as [|k cols IH]; cbn [kv_columns];
    [apply only_index_ok|].
  apply only_index_bind; [apply colon_count_only_index|]. intros n _.
  destruct (2 * n <? length rows); [apply only_index_ok | exact IH].
Qed.

Lemma is_key_value_table_only_index : forall rows,
  only_index (_is_key_value_table rows).
Proof.
  intros rows. unfold _is_key_value_table.
  destruct rows as [|r0 rest]; [apply only_index_ok|].
  destruct ((length (r0 :: rest) <? 2) || (length r0 <? 2));
    [apply only_index_ok | apply kv_columns_only_index].
Qed.

Lemma kv_row_only_index : forall r cols kv, only_index (kv_row r cols kv).
Proof.
  intros r. induction cols as [|k cols IH]; intros kv; cbn [kv_row];
    [apply only_index_ok|].
  apply only_index_bind; [apply getitem_only_index|]. intros key _.
  apply only_index_bind; [apply getitem_only_index|]. intros val _.
  apply IH.
Qed.

Lemma kv_rows_only_index : forall rows cols kv, only_index (kv_rows rows cols kv).
Proof.
  induction rows as [|r rows IH]; intros cols kv; cbn [kv_rows];
    [apply only_index_ok|].
  apply only_index_bind; [apply kv_row_only_index|]. intros kv' _. apply IH.
Qed.

Lemma extract_key_values_only_index : forall rows,
  only_index (_extract_key_values rows).
Proof.
  intros rows. unfold _extract_key_values.
  apply only_index_bind; [apply getitem_only_index|]. intros r0 _.
  apply kv_rows_only_index.
Qed.

Lemma clean_rows_return : forall rows : list row,
  exists rows', mapM (mapM _clean_cell) rows = Ok rows'.
Proof.
  intros rows. apply mapM_returns. intros r.
  apply mapM_returns, clean_cell_returns.
Qed.

Lemma resolve_table_data_only_index : forall st box,
  only_index (_resolve_table_data st box).
Proof.
  intros st box e H. exfalso. unfold _resolve_table_data in H.
  destruct (nth_error (page_tables st) (table_idx st)) as [tab|].
  - destruct (mapM_returns _ _ _clean_cell (header_names tab)
                clean_cell_returns) as [hs Hh].
    destruct (clean_rows_return (cells tab)) as [rows Hr].
    rewrite Hh, Hr in H. discriminate.
  - destruct (box_layout_table box) as [lt|]; [|discriminate].
    destruct (clean_rows_return (lt_cells lt)) as [rows Hr].
    rewrite Hr in H. discriminate.
Qed.

Lemma last_item_only_index : forall (A : Type) (l : list A),
  only_index (last_item l).
Proof.
  intros A l e H. unfold last_item in H.
  destruct (rev l); [|discriminate]. injection H as <-. reflexivity.
Qed.

Lemma try_merge_only_index : forall st headers data_rows all_rows tab,
  only_index (_try_merge_table st headers data_rows all_rows tab).
Proof.
  intros st headers data_rows all_rows tab. unfold _try_merge_table.
  destruct (pending_table st) as [pt|]; [|apply only_index_ok].
  apply only_index_bind; [apply last_item_only_index|]. intros L _.
  destruct (_headers_match (pt_raw_headers pt) headers).
  - cbn [negb]. destruct (classify_rows _ _ _). apply only_index_ok.
  - destruct ((length (pt_raw_headers pt) =? length headers)
              && (pg st <=? L + 1)%Z); cbn [negb]; [|apply only_index_ok].
    destruct (classify_rows _ _ _). apply only_index_ok.
Qed.

Lemma on_table_only_index : forall st box, only_index (_on_table st box).
Proof.
  intros st box. unfold _on_table.
  apply only_index_bind; [apply resolve_table_data_only_index|].
  intros [st1 [[[headers all_rows] tab]|]] _; [|apply only_index_ok].
  destruct (_resolve_title_description st1) as [st2 [ti de]].
  apply only_index_bind; [apply is_key_value_table_only_index|].
  intros [|] _.
  - apply only_index_bind; [apply extract_key_values_only_index|].
    intros kv _. apply only_index_ok.
  - apply only_index_bind; [apply try_merge_only_index|].
    intros [st3 [|]] _; [apply only_index_ok|].
    destruct (classify_rows _ _ _). apply only_index_ok.
Qed.

Lemma process_box_only_index : forall st box, only_index (process_box st box).
Proof.
  intros st box. unfold process_box.
  destruct (str_eqb (boxclass box) (py "section-header")
            || str_eqb (boxclass box) (py "header")); [apply only_index_ok|].
  destruct (str_eqb (boxclass box) (py "table"));
    [apply on_table_only_index|].
  destruct (str_eqb (boxclass box) (py "picture")).
  { intros e H. destruct (on_picture_returns st box) as [st' E].
    congruence. }
  destruct ((str_eqb (boxclass box) (py "text")
             || str_eqb (boxclass box) (py "list-item"))
            && nonempty (strip (text box))); apply only_index_ok.
Qed.

Lemma process_boxes_only_index : forall boxes st,
  only_index (process_boxes st boxes).
Proof.
  induction boxes as [|box boxes IH]; intros st; cbn [process_boxes];
    [apply only_index_ok|].
  apply only_index_bind; [apply process_box_only_index|]. intros st' _.
  apply IH.
Qed.

Lemma process_pages_only_index : forall ps st,
  only_index (process_pages st ps).
Proof.
  induction ps as [|p ps IH]; intros st; cbn [process_pages];
    [apply only_index_ok|].
  apply only_index_bind; [apply process_boxes_only_index|]. intros st' _.
  apply IH.
Qed.


(** A table whose second row lacks the third column. *)
Definition sample_ragged_report : raw :=
  {| filename := py "ragged.pdf";
     total_pages := 1;
     pages :=
       [ {| page_number := 1;
            tables :=
              [ {| header_names := [scell "Name:"; scell "Acme"; scell "Ref:"];
                   cells := [ [scell "Name:"; scell "Acme"; scell "Ref:"];
                              [scell "Date:"] ];
                   col_count := 3; row_count := 2;
                   trailing_text := None |} ];
            images := [];
            layout_boxes := [ sample_box "table" 0 "" ] |} ] |}.


(** ** The query layer *)

Lemma document_get_nat : forall d i,
  Document.get d (Z.of_nat i)
  = match nth_error (Document._blocks d) i with
    | Some b => inl b
    | None => inr (Document.KeyError (Z.of_nat i))
    end.
Proof.
  intros d i. unfold Document.get, getitem. rewrite Nat2Z.id.
  replace (Z.of_nat i <? 0)%Z with false by (symmetry; apply Z.ltb_ge; lia).
  cbn [orb].
  destruct (nth_error (Document._blocks d) i) as [b|] eqn:En.
  - assert (i < length (Document._blocks d))
      by (apply nth_error_Some; congruence).
    replace (Z.of_nat (length (Document._blocks d)) <=? Z.of_nat i)%Z
      with false by (symmetry; apply Z.leb_gt; lia).
    reflexivity.
  - apply nth_error_None in En.
    replace (Z.of_nat (length (Document._blocks d)) <=? Z.of_nat i)%Z
      with true by (symmetry; apply Z.leb_le; lia).
    reflexivity.
Qed.

(** X24: [Document.get] returns the block at the position [block_id]
    exactly when [block_id] is at least 0 and less than the number of
    blocks; for every other id, a negative one too, it raises the KeyError
    that names the id, and no access to the list of blocks ever raises. *)
Theorem document_get_in_range : forall d block_id,
  match Document.get d block_id with
  | inl b =>
      (0 <= block_id < Z.of_nat (length (Document._blocks d)))%Z
      /\ nth_error (Document._blocks d) (Z.to_nat block_id) = Some b
  | inr e =>
      e = Document.KeyError block_id
      /\ (block_id < 0
          \/ Z.of_nat (length (Document._blocks d)) <= block_id)%Z
  end.
Proof.
  intros d id. unfold Document.get.
  destruct ((id <? 0)%Z
            || (Z.of_nat (length (Document._blocks d)) <=? id)%Z) eqn:E.
  - split; [reflexivity|]. apply orb_true_iff in E.
    destruct E as [E | E]; [left; apply Z.ltb_lt, E | right; apply Z.leb_le, E].
  - apply orb_false_iff in E. destruct E as [E1 E2].
    apply Z.ltb_ge in E1. apply Z.leb_gt in E2. unfold getitem.
    destruct (nth_error (Document._blocks d) (Z.to_nat id)) as [b|] eqn:En.
    + split; [lia | reflexivity].
    + exfalso. apply nth_error_None in En. lia.
Qed.

Lemma combine_seq_in : forall (A : Type) (l : list A) a i x,
  In (i, x) (combine (seq a (length l)) l)
  <-> a <= i /\ nth_error l (i - a) = Some x.
Proof.
  intros A. induction l as [|y l IH]; intros a i x; cbn [length seq combine].
  - split; [intros [] | intros [_ H]; destruct (i - a); discriminate].
  - cbn [In]. rewrite IH. split.
    + intros [E | [Hle Hn]].
      * injection E as <- <-. split; [lia|]. rewrite Nat.sub_diag. reflexivity.
      * split; [lia|]. replace (i - a) with (S (i - S a)) by lia. exact Hn.
    + intros [Hle Hn]. destruct (Nat.eq_dec i a) as [-> | Hne].
      * left. rewrite Nat.sub_diag in Hn. cbn in Hn. congruence.
      * right. split; [lia|].
        replace (i - a) with (S (i - S a)) in Hn by lia. exact Hn.
Qed.

(** X25: [Document.blocks] lists one entry for every block, under the ids
    0, 1, 2, ... in the order of the blocks, and an entry stands in the list
    exactly when [Document.get] returns for its id a block with this title
    and this type. *)
Theorem document_blocks_get : forall d,
  map (fun e => fst (fst e)) (Document.blocks d)
  = seq 0 (length (Document._blocks d))
  /\ forall i t ty,
       In (i, t, ty) (Document.blocks d)
       <-> exists b, Document.get d (Z.of_nat i) = inl b
                     /\ title b = t /\ type b = ty.
Proof.
  intros d. unfold Document.blocks. split.
  - rewrite map_map. cbn [fst].
    generalize 0. induction (Document._blocks d) as [|b l IH]; intros a;
      [reflexivity|].
    cbn [length seq combine map fst]. f_equal. apply IH.
  - intros i t ty. rewrite in_map_iff. split.
    + intros ([j b] & E & Hin). cbn [fst snd or_empty] in E.
      injection E as -> <- <-.
      apply combine_seq_in in Hin. destruct Hin as [_ Hn].
      rewrite Nat.sub_0_r in Hn. exists b.
      rewrite document_get_nat, Hn. auto.
    + intros (b & Hg & <- & <-). rewrite document_get_nat in Hg.
      destruct (nth_error (Document._blocks d) i) as [b'|] eqn:Hn;
        [|discriminate].
      injection Hg as ->. exists (i, b). split; [reflexivity|].
      apply combine_seq_in. rewrite Nat.sub_0_r. split; [lia | exact Hn].
Qed.

(** X26: for a document made of what [transform] returns, the type that
    [Document.blocks] lists for an id tells what [Document.get_data] returns
    for it: a string for a text block and an image text, headers, rows and a
    summary row for an image table, and these or a key-value dictionary for a
    table block; [get_data] raises for none of the listed ids. *)
Theorem document_data_by_type : forall r out i t ty,
  transform r = Ok out ->
  In (i, t, ty) (Document.blocks (Document.__init__ out)) ->
  exists dat,
    Document.get_data (Document.__init__ out) (Z.of_nat i) = inl dat
    /\ match ty with
       | text_block | image_text => exists s, dat = DataText s
       | image_table => exists h rows s, dat = DataTable h rows s
       | table_block =>
           (exists h rows s, dat = DataTable h rows s)
           \/ exists kv, dat = DataKeyValue kv
       end.
Proof.
  intros r out i t ty Ht Hin. unfold Document.blocks in Hin.
  apply in_map_iff in Hin. destruct Hin as ([j b] & E & Hin).
  cbn [fst snd] in E. injection E as -> _ <-.
  apply combine_seq_in in Hin. destruct Hin as [_ Hn].
  rewrite Nat.sub_0_r in Hn.
  exists (data b). unfold Document.get_data.
  rewrite document_get_nat, Hn. split; [reflexivity|].
  apply transform_well_formed in Ht. rewrite Forall_forall in Ht.
  destruct (Ht b (nth_error_In _ _ Hn)) as [Hd _].
  unfold data_fits in Hd.
  destruct (type b), (data b); try contradiction; eauto 6.
Qed.

Lemma document_data_by_type_witness :
  exists dat,
    Document.get_data (Document.__init__ sample_schema) (Z.of_nat 1)
    = inl dat
    /\ exists s, dat = DataText s.
Proof.
  apply (document_data_by_type sample_report sample_schema 1
           (py "Costs") image_text).
  - vm_compute. reflexivity.
  - right. left. reflexivity.
Defined.

(* ================================================================== *)
(** ** The raw extractor and the transformer *)

(** The first occurrence of a character. *)
Lemma first_occurrence : forall c s,
  has_char c s = true ->
  exists before rest, s = before ++ c :: rest /\ has_char c before = false.
Proof.
  intros c. unfold has_char.
  induction s as [|d s IH]; cbn [existsb]; [discriminate|].
  intros H. destruct (Ascii.eqb c d) eqn:E.
  - apply Ascii.eqb_eq in E. subst d. exists [], s. auto.
  - cbn [orb] in H. destruct (IH H) as (before & rest & -> & Hb).
    exists (d :: before), rest. cbn [existsb app]. rewrite E, Hb. auto.
Qed.

(** A part of a string without the separator lies within one of its
    lines. *)
Lemma part_in_line : forall sep a p b,
  has_char sep p = false ->
  exists x y, In (x ++ p ++ y) (split sep (a ++ p ++ b)).
Proof.
  intros sep a p b Hp.
  assert (Hleft : exists a2,
            has_char sep a2 = false
            /\ forall m, has_char sep m = false ->
                 exists l, split sep (a ++ m) = l ++ [a2 ++ m]).
  { destruct (has_char sep a) eqn:Ha.
    - destruct (last_occurrence sep a Ha) as (a1 & a2 & -> & H2).
      exists a2. split; [exact H2|]. intros m Hm.
      rewrite <- app_assoc. cbn [app]. rewrite split_app_sep.
      rewrite (split_no_sep sep (a2 ++ m))
        by (rewrite has_char_app, H2, Hm; reflexivity).
      eauto.
    - exists a. split; [exact Ha|]. intros m Hm. exists [].
      rewrite split_no_sep by (rewrite has_char_app, Ha, Hm; reflexivity).
      reflexivity. }
  destruct Hleft as (a2 & Ha2 & Hsplit).
  destruct (has_char sep b) eqn:Hb.
  - destruct (first_occurrence sep b Hb) as (b1 & b2 & -> & H1).
    exists a2, b1.
    replace (a ++ p ++ b1 ++ sep :: b2) with ((a ++ p ++ b1) ++ sep :: b2)
      by (rewrite <- !app_assoc; reflexivity).
    rewrite split_app_sep.
    destruct (Hsplit (p ++ b1)) as [l El];
      [rewrite has_char_app, Hp, H1; reflexivity|].
    rewrite El. apply in_or_app. left. apply in_or_app. right. left.
    reflexivity.
  - exists a2, b.
    destruct (Hsplit (p ++ b)) as [l El];
      [rewrite has_char_app, Hp, Hb; reflexivity|].
    rewrite El. apply in_or_app. right. left. reflexivity.
Qed.

Lemma lower_NL : forall s, has_char NL (lower s) = has_char NL s.
Proof.
  unfold has_char, lower. induction s as [|c s IH]; [reflexivity|].
  cbn [map existsb]. rewrite IH. f_equal. char_cases c.
Qed.

(** A text that holds "total" holds it within one of its lines. *)
Lemma total_in_line : forall t,
  has_total t = true ->
  exists line, In line (split NL t) /\ has_total line = true.
Proof.
  intros t H. unfold has_total in H. apply contains_spec in H.
  destruct H as (a & b & E). unfold lower in E.
  apply map_eq_app in E. destruct E as (a' & r & -> & Ea & E).
  apply map_eq_app in E. destruct E as (p' & b' & -> & Ep & Eb).
  assert (Hp : has_char NL p' = false).
  { rewrite <- lower_NL. unfold lower. rewrite Ep. reflexivity. }
  destruct (part_in_line NL a' p' b' Hp) as (x & y & Hin).
  exists (x ++ p' ++ y). split; [exact Hin|].
  apply has_total_part. unfold has_total, lower. rewrite Ep. reflexivity.
Qed.

Lemma find_index_some : forall (A : Type) (p : A -> bool) l x,
  In x l -> p x = true -> exists i, find_index p l = Some i.
Proof.
  intros A p l x Hin Hp. destruct (find_index p l) as [i|] eqn:E; [eauto|].
  rewrite find_index_none in E. rewrite (E x Hin) in Hp. discriminate.
Qed.

(** What the parser of the transformer makes of a trimmed text that holds
    "total". *)
Lemma parse_total_text : forall t,
  strip t = t -> has_total t = true ->
  exists before line after,
    split NL t = before ++ line :: after
    /\ forallb (fun l => negb (has_total l)) before = true
    /\ has_total line = true
    /\ _parse_trailing_totals (Some t)
       = match filter nonempty (map strip after) with
         | [] => None
         | values => Some (strip line, values)
         end.
Proof.
  intros t Hs Ht.
  destruct (total_in_line t Ht) as (line & Hin & Hline).
  destruct (find_index_some _ is_total_line _ line Hin) as [i Ei];
    [rewrite is_total_line_total; exact Hline|].
  destruct (find_index_split str is_total_line _ _ [] Ei)
    as (before & after & E & Hb & Hp & Hsk).
  exists before, (nth i (split NL t) []), after.
  split; [exact E|]. split.
  { rewrite <- Hb. clear. induction before as [|l before IH]; [reflexivity|].
    cbn [forallb]. rewrite IH, is_total_line_total. reflexivity. }
  split; [rewrite <- is_total_line_total; exact Hp|].
  unfold _parse_trailing_totals.
  destruct t as [|c t]; [discriminate|].
  cbv beta iota zeta. rewrite Hs, Ei, Hsk.
  destruct (filter nonempty (map strip after)); reflexivity.
Qed.

(** The text the inner loop of [_attach_trailing_totals] assigns. *)
Lemma trailing_block_spec : forall bottom text_blocks t,
  RawExtractor.trailing_block bottom text_blocks = Some t ->
  (exists block,
     In block text_blocks
     /\ RawExtractor.tt_block_type block = 0%Z
     /\ t = strip (RawExtractor.tt_text block)
     /\ RawExtractor.near_bottom bottom (RawExtractor.tt_y0 block) = true)
  /\ has_total t = true.
Proof.
  intros bottom. induction text_blocks as [|block rest IH]; intros t H;
    cbn [RawExtractor.trailing_block] in H; [discriminate|].
  assert (Hrest : RawExtractor.trailing_block bottom rest = Some t ->
                  (exists block0,
                     In block0 (block :: rest)
                     /\ RawExtractor.tt_block_type block0 = 0%Z
                     /\ t = strip (RawExtractor.tt_text block0)
                     /\ RawExtractor.near_bottom bottom
                          (RawExtractor.tt_y0 block0) = true)
                  /\ has_total t = true).
  { intros H'. destruct (IH t H') as [(b & Hin & Hb) Ht].
    split; [exists b; split; [right; exact Hin | exact Hb] | exact Ht]. }
  destruct (RawExtractor.tt_block_type block =? 0)%Z eqn:Ety;
    cbn [negb] in H; [|auto].
  destruct (RawExtractor.near_bottom bottom (RawExtractor.tt_y0 block))
    eqn:Enear; [|auto].
  fold (is_total_line (strip (RawExtractor.tt_text block))) in H.
  destruct (is_total_line (strip (RawExtractor.tt_text block))) eqn:Etot;
    [|auto].
  injection H as <-. split.
  - exists block. split; [left; reflexivity|].
    split; [apply Z.eqb_eq, Ety|]. auto.
  - rewrite <- is_total_line_total. exact Etot.
Qed.

(** X27: the trailing text [_attach_trailing_totals] gives a table is the
    trimmed text of a text block of type 0 whose top lies within 30 of the
    bottom of the table and which holds the word "total" in any case; the
    other entries of the table stay.  On such a text the parser of the
    transformer always finds its label: the first line that holds "total".
    It yields the label and the values exactly when a line that is not
    blank follows the label, and nothing otherwise. *)
Theorem attached_totals_parse : forall text_blocks page_tables i before after t,
  nth_error page_tables i = Some before ->
  trailing_text (RawExtractor.ti_table before) = None ->
  nth_error (RawExtractor._attach_trailing_totals text_blocks page_tables) i
  = Some after ->
  trailing_text (RawExtractor.ti_table after) = Some t ->
  after = RawExtractor.set_trailing_text before t
  /\ (exists block,
        In block text_blocks
        /\ RawExtractor.tt_block_type block = 0%Z
        /\ t = strip (RawExtractor.tt_text block)
        /\ RawExtractor.near_bottom (y1 (RawExtractor.ti_bbox before))
             (RawExtractor.tt_y0 block) = true)
  /\ exists head line tail,
       split NL t = head ++ line :: tail
       /\ forallb (fun l => negb (has_total l)) head = true
       /\ has_total line = true
       /\ _parse_trailing_totals (Some t)
          = match filter nonempty (map strip tail) with
            | [] => None
            | values => Some (strip line, values)
            end.
Proof.
  intros tbs tables i before after t Hb Hnone Ha Ht.
  unfold RawExtractor._attach_trailing_totals in Ha.
  rewrite nth_error_map, Hb in Ha. cbn [option_map] in Ha.
  injection Ha as Ha.
  destruct (RawExtractor.trailing_block (y1 (RawExtractor.ti_bbox before)) tbs)
    as [btext|] eqn:Etb.
  2:{ subst after. congruence. }
  subst after. cbn in Ht. injection Ht as ->.
  destruct (trailing_block_spec _ _ _ Etb) as [Hfrom Htot].
  split; [reflexivity|]. split; [exact Hfrom|].
  apply parse_total_text; [|exact Htot].
  destruct Hfrom as (block & _ & _ & -> & _). apply strip_id, strip_trimmed.
Qed.

(** A table that ends at height 400 and three text blocks: an image block,
    a note and the totals under the table. *)
Definition sample_text_blocks : list RawExtractor.text_tuple :=
  [ {| RawExtractor.tt_x0 := 0; RawExtractor.tt_y0 := 405;
       RawExtractor.tt_x1 := 100; RawExtractor.tt_y1 := 420;
       RawExtractor.tt_text := py "Totals in a picture";
       RawExtractor.tt_block_no := 0; RawExtractor.tt_block_type := 1 |};
    {| RawExtractor.tt_x0 := 0; RawExtractor.tt_y0 := 100;
       RawExtractor.tt_x1 := 100; RawExtractor.tt_y1 := 120;
       RawExtractor.tt_text := py "Total of the year before";
       RawExtractor.tt_block_no := 1; RawExtractor.tt_block_type := 0 |};
    {| RawExtractor.tt_x0 := 0; RawExtractor.tt_y0 := 410;
       RawExtractor.tt_x1 := 100; RawExtractor.tt_y1 := 440;
       RawExtractor.tt_text := py " Totals" ++ [NL] ++ py "350" ++ [NL];
       RawExtractor.tt_block_no := 2; RawExtractor.tt_block_type := 0 |} ].

Definition sample_page_table : RawExtractor.page_table :=
  {| RawExtractor.ti_bbox := {| x0 := 0; y0 := 300; x1 := 100; y1 := 400 |};
     RawExtractor.ti_header_external := false;
     RawExtractor.ti_table := sample_table |}.

Lemma attached_totals_parse_witness :
  RawExtractor.set_trailing_text sample_page_table
    (py "Totals" ++ [NL] ++ py "350")
  = RawExtractor.set_trailing_text sample_page_table
      (py "Totals" ++ [NL] ++ py "350")
  /\ (exists block,
        In block sample_text_blocks
        /\ RawExtractor.tt_block_type block = 0%Z
        /\ py "Totals" ++ [NL] ++ py "350"
           = strip (RawExtractor.tt_text block)
        /\ RawExtractor.near_bottom
             (y1 (RawExtractor.ti_bbox sample_page_table))
             (RawExtractor.tt_y0 block) = true)
  /\ exists head line tail,
       split NL (py "Totals" ++ [NL] ++ py "350") = head ++ line :: tail
       /\ forallb (fun l => negb (has_total l)) head = true
       /\ has_total line = true
       /\ _parse_trailing_totals (Some (py "Totals" ++ [NL] ++ py "350"))
          = match filter nonempty (map strip tail) with
            | [] => None
            | values => Some (strip line, values)
            end.
Proof.
  apply (attached_totals_parse sample_text_blocks [sample_page_table] 0
           sample_page_table
           (RawExtractor.set_trailing_text sample_page_table
              (py "Totals" ++ [NL] ++ py "350"))).
  - reflexivity.
  - reflexivity.
  - vm_compute. reflexivity.
  - reflexivity.
Defined.


(** Three boxes of a parsed layout: a text that claims a table, a table box
    whose table was read, and a table box whose table is empty. *)
Definition sample_layout : list RawExtractor.layout_object :=
  [ {| RawExtractor.lo_boxclass := py "text";
       RawExtractor.lo_x0 := 0; RawExtractor.lo_y0 := 0;
       RawExtractor.lo_x1 := 100; RawExtractor.lo_y1 := 10;
       RawExtractor.lo_textlines := RawExtractor.Has [[py "Costs"; py " "]];
       RawExtractor.lo_table :=
         RawExtractor.Has
           {| RawExtractor.td_extract := Some [[scell "x"]];
              RawExtractor.td_col_count := Some 1%Z;
              RawExtractor.td_row_count := Some 1%Z |} |};
    {| RawExtractor.lo_boxclass := py "table";
       RawExtractor.lo_x0 := 0; RawExtractor.lo_y0 := 20;
       RawExtractor.lo_x1 := 100; RawExtractor.lo_y1 := 60;
       RawExtractor.lo_textlines := RawExtractor.Absent;
       RawExtractor.lo_table :=
         RawExtractor.Has
           {| RawExtractor.td_extract :=
                Some [ [scell "Item"; scell "Cost"];
                       [scell "Pen"; scell "$100"] ];
              RawExtractor.td_col_count := Some 2%Z;
              RawExtractor.td_row_count := None |} |};
    {| RawExtractor.lo_boxclass := py "table";
       RawExtractor.lo_x0 := 0; RawExtractor.lo_y0 := 70;
       RawExtractor.lo_x1 := 100; RawExtractor.lo_y1 := 90;
       RawExtractor.lo_textlines := RawExtractor.Unfit;
       RawExtractor.lo_table :=
         RawExtractor.Has
           {| RawExtractor.td_extract := Some [];
              RawExtractor.td_col_count := Some 0%Z;
              RawExtractor.td_row_count := Some 0%Z |} |} ].

Definition sample_fallback : layout_table :=
  {| lt_col_count := 2; lt_row_count := 0;
     lt_cells := [ [scell "Item"; scell "Cost"];
                   [scell "Pen"; scell "$100"] ] |}.

Definition sample_fallback_box : layout_box :=
  {| boxclass := py "table";
     box_bbox := {| x0 := 0; y0 := 20; x1 := 100; y1 := 60 |};
     text := [];
     box_layout_table := Some sample_fallback |}.

